(** * The addon installation pipeline of [ayon_server/installer/addons.py]

    A shallow embedding of the installer module: manifest parsers, the
    platform-version check, archive unpacking over a finite-map model of
    the file system, and the two job entry points with their event log. *)

From Stdlib Require Import ZArith NArith String Ascii Lia Bool.
From Stdlib Require Import DecimalString.
From stdpp Require Import base option list gmap strings fin_maps.

Set Warnings "-register-all".
Local Open Scope string_scope.
Local Open Scope Z_scope.
Local Open Scope list_scope.

(** ** Exceptions and results *)

(** The exception classes that the modelled code can raise.  Only
    [UnsupportedAddonException] is defined by the module itself; the
    others come from the interpreter and the libraries it calls. *)
Inductive exn : Type :=
| UnsupportedAddonException (msg : string)
| ValueError
| JSONDecodeError
| YAMLError
| AttributeError
| ValidationError
| BadZipFile
| FileNotFoundError
| FileExistsError
| NotADirectoryError
| IsADirectoryError
| ShutilError
| KeyError
| TransportError (msg : string).

Inductive result (A : Type) : Type :=
| Ok (a : A)
| Raise (e : exn).
Arguments Ok {A} a.
Arguments Raise {A} e.

Definition is_ok {A} (r : result A) : bool :=
  match r with Ok _ => true | Raise _ => false end.

Definition is_unsupported {A} (r : result A) : bool :=
  match r with Raise (UnsupportedAddonException _) => true | _ => false end.

#[global] Instance exn_eq_dec : EqDecision exn.
Proof. solve_decision. Defined.

(** ** Character and string helpers *)

Definition is_digit (c : ascii) : bool :=
  let n := nat_of_ascii c in (48 <=? n)%nat && (n <=? 57)%nat.

Definition is_alpha (c : ascii) : bool :=
  let n := nat_of_ascii c in
  ((65 <=? n)%nat && (n <=? 90)%nat) || ((97 <=? n)%nat && (n <=? 122)%nat).

(** [\s] of Python's [re] on ASCII characters (tab to carriage return,
    the four separators 28 to 31, and the space).  It is exact for ASCII
    text; the further white space of Unicode (U+0085, U+00A0, U+2028 and
    others) is not modelled, so statements about what the pattern reads
    are made for ASCII text ([ascii_text] below). *)
Definition is_space (c : ascii) : bool :=
  let n := nat_of_ascii c in
  ((9 <=? n)%nat && (n <=? 13)%nat) || ((28 <=? n)%nat && (n <=? 32)%nat).

Definition chars (s : string) : list ascii := list_ascii_of_string s.
Definition text (l : list ascii) : string := string_of_list_ascii l.

(** Text of ASCII characters only: decoding it from UTF-8 changes
    nothing. *)
Definition is_ascii (c : ascii) : bool := (nat_of_ascii c <? 128)%nat.

Definition ascii_text (s : string) : Prop := forallb is_ascii (chars s) = true.

(** [split_on c l] is [l.split(c)]: the pieces between occurrences of [c];
    it always returns at least one piece. *)
Fixpoint split_on (c : ascii) (l : list ascii) : list (list ascii) :=
  match l with
  | [] => [[]]
  | x :: l' =>
      if Ascii.eqb x c then [] :: split_on c l'
      else match split_on c l' with
           | [] => [[x]]
           | p :: ps => (x :: p) :: ps
           end
  end.

(** [cut_at c l] splits [l] at the first occurrence of [c]. *)
Fixpoint cut_at (c : ascii) (l : list ascii) : list ascii * option (list ascii) :=
  match l with
  | [] => ([], None)
  | x :: l' =>
      if Ascii.eqb x c then ([], Some l')
      else let '(a, b) := cut_at c l' in (x :: a, b)
  end.

Definition digit_val (c : ascii) : N := N.of_nat (nat_of_ascii c - 48).

Definition digits_val (l : list ascii) : N :=
  fold_left (fun acc c => (10 * acc + digit_val c)%N) l 0%N.

(** A decimal numeral without leading zero: [0|[1-9]\d*]. *)
Definition numeral (l : list ascii) : option N :=
  match l with
  | [] => None
  | c :: rest =>
      if forallb is_digit l then
        if Ascii.eqb c "0" && negb (Nat.eqb (length rest) 0) then None
        else Some (digits_val l)
      else None
  end.

(** ** Semantic versions (the [semver] package)

    [semver.compare(a, b)] parses both strings and compares major, minor
    and patch as a tuple, then the pre-release tags; build metadata never
    takes part.  A string that is not a semantic version raises
    [ValueError]. *)

Inductive ident : Type :=
| INum (n : N)
| IAlnum (s : string).

Record VersionInfo : Type := mkVersion {
  major : N;
  minor : N;
  patch : N;
  prerelease : list ident;   (* [[]] when the version has no pre-release *)
  build : option string
}.

Definition is_ident_char (c : ascii) : bool :=
  is_digit c || is_alpha c || Ascii.eqb c "-".

(** One dot-separated pre-release identifier:
    [0|[1-9]\d*|\d*[a-zA-Z-][0-9a-zA-Z-]*]. *)
Definition parse_ident (l : list ascii) : option ident :=
  match l with
  | [] => None
  | _ =>
      if forallb is_digit l then INum <$> numeral l
      else if forallb is_ident_char l then Some (IAlnum (text l))
      else None
  end.

Fixpoint parse_idents (ps : list (list ascii)) : option (list ident) :=
  match ps with
  | [] => Some []
  | p :: ps' =>
      match parse_ident p, parse_idents ps' with
      | Some i, Some is' => Some (i :: is')
      | _, _ => None
      end
  end.

(** Build metadata: [[0-9a-zA-Z-]+(\.[0-9a-zA-Z-]+)*]. *)
Definition valid_build (l : list ascii) : bool :=
  forallb (fun p => negb (Nat.eqb (length p) 0) && forallb is_ident_char p)
          (split_on "." l).

Definition parse_core (l : list ascii) : option (N * N * N) :=
  match split_on "." l with
  | [a; b; c] =>
      match numeral a, numeral b, numeral c with
      | Some x, Some y, Some z => Some (x, y, z)
      | _, _, _ => None
      end
  | _ => None
  end.

Definition parse_version (s : string) : option VersionInfo :=
  let '(front, bld) := cut_at "+" (chars s) in
  let '(core, pre) := cut_at "-" front in
  match parse_core core with
  | None => None
  | Some (x, y, z) =>
      let pre_ids :=
        match pre with
        | None => Some []
        | Some p => parse_idents (split_on "." p)
        end in
      let bld_ok :=
        match bld with
        | None => true
        | Some b => valid_build b
        end in
      match pre_ids with
      | Some ids =>
          if bld_ok then Some (mkVersion x y z ids (text <$> bld)) else None
      | None => None
      end
  end.

(** [cmp] of two values as Python code writes it: -1, 0 or 1. *)
Definition cmp_of (c : comparison) : Z :=
  match c with Lt => -1 | Eq => 0 | Gt => 1 end.

(** [cmp_prerelease_tag]: numbers compare numerically, a number is below
    any text, texts compare by code points. *)
Definition cmp_prerelease_tag (a b : ident) : comparison :=
  match a, b with
  | INum x, INum y => (x ?= y)%N
  | INum _, IAlnum _ => Lt
  | IAlnum _, INum _ => Gt
  | IAlnum s, IAlnum t => String.compare s t
  end.

(** [_nat_cmp]: the first differing pair of tags decides.  When all
    paired tags are equal the library compares the lengths of the two
    pre-release strings; as equal tags have equal spellings, that is the
    comparison of the numbers of tags: a proper prefix is smaller. *)
Fixpoint nat_cmp (a b : list ident) : comparison :=
  match a, b with
  | [], [] => Eq
  | [], _ :: _ => Lt
  | _ :: _, [] => Gt
  | x :: a', y :: b' =>
      match cmp_prerelease_tag x y with
      | Eq => nat_cmp a' b'
      | c => c
      end
  end.

Definition cmp_triple (v w : VersionInfo) : comparison :=
  match (major v ?= major w)%N with
  | Eq => match (minor v ?= minor w)%N with
          | Eq => (patch v ?= patch w)%N
          | c => c
          end
  | c => c
  end.

(** [VersionInfo.compare]. *)
Definition version_compare (v w : VersionInfo) : comparison :=
  match cmp_triple v w with
  | Eq =>
      match nat_cmp (prerelease v) (prerelease w) with
      | Eq => Eq
      | c =>
          match prerelease v, prerelease w with
          | [], _ => Gt
          | _, [] => Lt
          | _, _ => c
          end
      end
  | c => c
  end.

(** [semver.compare(ver1, ver2)]. *)
Definition semver_compare (ver1 ver2 : string) : result Z :=
  match parse_version ver1, parse_version ver2 with
  | Some v, Some w => Ok (cmp_of (version_compare v w))
  | _, _ => Raise ValueError
  end.


#[global] Instance result_ret : MRet result := fun _ a => Ok a.
#[global] Instance result_bind : MBind result :=
  fun _ _ f r => match r with Ok a => f a | Raise e => Raise e end.

(** ** Python values

    The documents that [json.loads] and [yaml.safe_load] return.  Mapping
    keys are strings (the code only ever looks up string keys);
    floating-point scalars are not represented. *)

Inductive pyval : Type :=
| PyNone
| PyBool (b : bool)
| PyInt (z : Z)
| PyStr (s : string)
| PyList (items : list pyval)
| PyDict (entries : list (string * pyval)).

Definition nonempty (s : string) : bool :=
  match s with EmptyString => false | String _ _ => true end.

(** Truth value of an object in a boolean context. *)
Definition truthy (v : pyval) : bool :=
  match v with
  | PyNone => false
  | PyBool b => b
  | PyInt z => negb (z =? 0)
  | PyStr s => nonempty s
  | PyList items => match items with [] => false | _ => true end
  | PyDict entries => match entries with [] => false | _ => true end
  end.

Fixpoint assoc_get (entries : list (string * pyval)) (key : string) : option pyval :=
  match entries with
  | [] => None
  | (k, v) :: rest => if String.eqb k key then Some v else assoc_get rest key
  end.

(** [d[key] = v]: replaces the binding of [key] in place, or appends it. *)
Fixpoint assoc_set (entries : list (string * pyval)) (key : string) (v : pyval)
  : list (string * pyval) :=
  match entries with
  | [] => [(key, v)]
  | (k, w) :: rest =>
      if String.eqb k key then (k, v) :: rest else (k, w) :: assoc_set rest key v
  end.

(** [obj.get(key)]: [None] for a missing key; only mappings have [get]. *)
Definition py_get (obj : pyval) (key : string) : result pyval :=
  match obj with
  | PyDict entries => Ok (default PyNone (assoc_get entries key))
  | _ => Raise AttributeError
  end.

(** The libraries the module calls into and whose code is not part of
    it: the JSON and YAML readers and the reader of the zip container. *)
Record ZipMember : Type := mkMember {
  filename : string;        (* as stored, with [/] separators *)
  data : string;
  external_attr : Z
}.

Record Libs : Type := mkLibs {
  json_loads : string -> result pyval;
  yaml_safe_load : string -> result pyval;
  zip_read : string -> result (list ZipMember)
}.

(** ** [AddonZipInfo] *)

Record AddonZipInfo : Type := mkAddonZipInfo {
  name : string;
  version : string;
  min_ayon_version : string;            (* inclusive *)
  max_ayon_version : option string;     (* exclusive *)
  is_rez : bool
}.

Definition string_of_Z (z : Z) : string := NilZero.string_of_int (Z.to_int z).

(** Validation of a [str] field by pydantic (version 1): strings pass,
    integers and booleans are converted with [str], anything else is a
    validation error. *)
Definition str_validator (v : pyval) : result string :=
  match v with
  | PyStr s => Ok s
  | PyInt z => Ok (string_of_Z z)
  | PyBool true => Ok "True"
  | PyBool false => Ok "False"
  | _ => Raise ValidationError
  end.

(** [AddonZipInfo(name=.., version=.., ...)] with the two fields that
    come from a document. *)
Definition make_zip_info (n v : pyval) (min_v : string) (max_v : option string)
    (rez : bool) : result AddonZipInfo :=
  match str_validator n, str_validator v with
  | Ok n', Ok v' => Ok (mkAddonZipInfo n' v' min_v max_v rez)
  | _, _ => Raise ValidationError
  end.

(** ** Regular-expression search of [package.py] *)

Definition dquote : ascii := ascii_of_nat 34.

Fixpoint skip_spaces (l : list ascii) : list ascii :=
  match l with
  | c :: l' => if is_space c then skip_spaces l' else l
  | [] => []
  end.

Fixpoint strip_prefix (p l : list ascii) : option (list ascii) :=
  match p, l with
  | [], _ => Some l
  | a :: p', b :: l' => if Ascii.eqb a b then strip_prefix p' l' else None
  | _ :: _, [] => None
  end.

(** The longest run of characters other than the double quote. *)
Fixpoint span_unquoted (l : list ascii) : list ascii * list ascii :=
  match l with
  | c :: l' =>
      if Ascii.eqb c dquote then ([], l)
      else let '(g, r) := span_unquoted l' in (c :: g, r)
  | [] => ([], [])
  end.

(** A match, starting at the head of [l], of the pattern: the key, any
    white space, an equals sign, any white space, a double quote, one or
    more characters other than a double quote (group 1, the result), and
    a closing double quote. *)
Definition match_assignment (key l : list ascii) : option (list ascii) :=
  match strip_prefix key l with
  | None => None
  | Some r1 =>
      match skip_spaces r1 with
      | eq :: r2 =>
          if Ascii.eqb eq "=" then
            match skip_spaces r2 with
            | q :: r3 =>
                if Ascii.eqb q dquote then
                  match span_unquoted r3 with
                  | (c :: g, q' :: _) => Some (c :: g)
                  | _ => None
                  end
                else None
            | [] => None
            end
          else None
      | [] => None
      end
  end.

(** [re.search]: the leftmost position with a match. *)
Fixpoint re_search_assignment (key l : list ascii) : option (list ascii) :=
  match match_assignment key l with
  | Some g => Some g
  | None =>
      match l with
      | [] => None
      | _ :: l' => re_search_assignment key l'
      end
  end.

#[global] Instance result_fmap : FMap result :=
  fun _ _ f r => match r with Ok a => Ok (f a) | Raise e => Raise e end.

(** ** The file system

    A finite map from paths (component lists, the empty list being the
    root of the file system) to nodes.  The code joins paths with
    [os.path.join]; the embedding appends components, so names are taken
    to be single plain components.

    The [perm] of a file stands for its permission bits, the low nine
    bits of the number ([permission_bits] below): [os.chmod] takes no
    more from its argument, and two numbers with the same low nine bits
    are the same permissions. *)

Inductive node : Type :=
| File (content : string) (perm : Z)
| Dir.

#[global] Instance node_eq_dec : EqDecision node.
Proof. solve_decision. Defined.

Abbreviation FS := (gmap (list string) node).

Definition isdir (fs : FS) (p : list string) : bool :=
  match fs !! p with Some Dir => true | _ => false end.

Definition exists_path (fs : FS) (p : list string) : bool :=
  match fs !! p with Some _ => true | None => false end.

(** ** Manifest parsers *)

(** [ayon_version] of [ayon_server.version] and [ayonconfig.addons_dir]
    are not among the sources; they are parameters of what follows. *)
Section Parsers.
Context (L : Libs).
Context (ayon_version : string).

(** [get_addon_info_from_manifest]: the guard reads the keys
    [addon_name] and [addon_version], the constructor reads [name] and
    [version]. *)
Definition get_addon_info_from_manifest (manifest_data : string)
  : result AddonZipInfo :=
  manifest ← json_loads L manifest_data;
  a ← py_get manifest "addon_name";
  found ← (if truthy a
           then b ← py_get manifest "addon_version"; mret (truthy b)
           else mret false);
  if negb found
  then Raise (UnsupportedAddonException
                "Addon name or version not found in manifest")
  else
    n ← py_get manifest "name";
    v ← py_get manifest "version";
    make_zip_info n v "1.0.0" (Some "1.2.0") false.

(** [get_addon_info_from_package_py]. *)
Definition get_addon_info_from_package_py (manifest_data : string)
  : result AddonZipInfo :=
  let name_match := re_search_assignment (chars "name") (chars manifest_data) in
  let version_match :=
    re_search_assignment (chars "version") (chars manifest_data) in
  let package_name := text <$> name_match in
  let package_version := text <$> version_match in
  match package_name, package_version with
  | Some n, Some v =>
      if nonempty n && nonempty v
      then Ok (mkAddonZipInfo n v "1.0.3" None true)
      else Raise (UnsupportedAddonException
                    "Addon name or version not found in package.py")
  | _, _ =>
      Raise (UnsupportedAddonException
               "Addon name or version not found in package.py")
  end.

(** [get_addon_info_from_package_yaml]. *)
Definition get_addon_info_from_package_yaml (manifest_data : string)
  : result AddonZipInfo :=
  manifest ← yaml_safe_load L manifest_data;
  a ← py_get manifest "name";
  found ← (if truthy a
           then b ← py_get manifest "version"; mret (truthy b)
           else mret false);
  if negb found
  then Raise (UnsupportedAddonException
                "Addon name or version not found in package.yaml")
  else
    n ← py_get manifest "name";
    v ← py_get manifest "version";
    make_zip_info n v "1.0.3" None true.

(** The table [PARSERS] of [get_addon_zip_info], in its order. *)
Definition PARSERS : list (string * (string -> result AddonZipInfo)) :=
  [ ("manifest.json", get_addon_info_from_manifest);
    ("package.yaml", get_addon_info_from_package_yaml);
    ("package.yml", get_addon_info_from_package_yaml);
    ("package.py", get_addon_info_from_package_py) ].

(** [zipfile.ZipFile(path, "r")]: the file must exist and hold a zip. *)
Definition open_zip (fs : FS) (p : list string) : result (list ZipMember) :=
  match fs !! p with
  | Some (File bytes _) => zip_read L bytes
  | Some Dir => Raise IsADirectoryError
  | None => Raise FileNotFoundError
  end.

Definition namelist (members : list ZipMember) : list string :=
  filename <$> members.

(** [zip_ref.open(name)] resolves a name to the last member stored
    under it. *)
Definition zip_getinfo (members : list ZipMember) (nm : string)
  : option ZipMember :=
  last (filter (fun m => filename m = nm) members).

(** [zip_ref.open(name).read().decode("utf-8")]; member data is taken
    to be text already. *)
Definition read_text (members : list ZipMember) (nm : string) : result string :=
  match zip_getinfo members nm with
  | Some m => Ok (data m)
  | None => Raise KeyError
  end.

(** The [for manifest_name, parser in PARSERS] loop with its [break].
    Besides the value of [zip_info] it returns the names of the entries
    it opened, in order. *)
Fixpoint parse_loop (members : list ZipMember)
    (parsers : list (string * (string -> result AddonZipInfo)))
  : list string * result (option AddonZipInfo) :=
  match parsers with
  | [] => ([], Ok None)
  | (manifest_name, parser) :: rest =>
      if bool_decide (manifest_name ∈ namelist members)
      then ([manifest_name],
            manifest ← read_text members manifest_name;
            zip_info ← parser manifest;
            mret (Some zip_info))
      else parse_loop members rest
  end.

Definition unsupported_version_message : string :=
  "Ayon version " +:+ ayon_version +:+ " is not supported by this addon".

(** The two version checks that end [get_addon_zip_info]. *)
Definition check_ayon_version (zip_info : AddonZipInfo) : result AddonZipInfo :=
  c ← semver_compare ayon_version (min_ayon_version zip_info);
  if c <? 0
  then Raise (UnsupportedAddonException unsupported_version_message)
  else
    match max_ayon_version zip_info with
    | Some upper =>
        if nonempty upper
        then
          c' ← semver_compare ayon_version upper;
          if c' >=? 0
          then Raise (UnsupportedAddonException unsupported_version_message)
          else Ok zip_info
        else Ok zip_info
    | None => Ok zip_info
    end.

(** [get_addon_zip_info]. *)
Definition get_addon_zip_info (fs : FS) (p : list string) : result AddonZipInfo :=
  members ← open_zip fs p;
  zip_info ← (parse_loop members PARSERS).2;
  match zip_info with
  | None => Raise (UnsupportedAddonException "Unsupported addon format")
  | Some zi => check_ayon_version zi
  end.

End Parsers.

(** ** Library instances for running examples

    The statements below hold for every choice of [Libs].  To evaluate the
    code on concrete inputs the examples use the following readers: a JSON
    reader for documents without fractions, exponents and unicode escapes
    (also used for YAML documents written in JSON flow style, which YAML
    readers accept), and a reader of a line-oriented archive listing. *)

Definition is_json_ws (c : ascii) : bool :=
  let n := nat_of_ascii c in
  Nat.eqb n 32 || Nat.eqb n 9 || Nat.eqb n 10 || Nat.eqb n 13.

Fixpoint skip_ws (l : list ascii) : list ascii :=
  match l with
  | c :: l' => if is_json_ws c then skip_ws l' else l
  | [] => []
  end.

Definition unescape (c : ascii) : option ascii :=
  if Ascii.eqb c dquote then Some dquote
  else if Ascii.eqb c "\" then Some "\"%char
  else if Ascii.eqb c "/" then Some "/"%char
  else if Ascii.eqb c "b" then Some (ascii_of_nat 8)
  else if Ascii.eqb c "f" then Some (ascii_of_nat 12)
  else if Ascii.eqb c "n" then Some (ascii_of_nat 10)
  else if Ascii.eqb c "r" then Some (ascii_of_nat 13)
  else if Ascii.eqb c "t" then Some (ascii_of_nat 9)
  else None.

(** The rest of a string literal after its opening quote. *)
Fixpoint json_string_body (l : list ascii) : option (list ascii * list ascii) :=
  match l with
  | [] => None
  | c :: l' =>
      if Ascii.eqb c dquote then Some ([], l')
      else if Ascii.eqb c "\" then
        match l' with
        | e :: l'' =>
            match unescape e, json_string_body l'' with
            | Some x, Some (s, r) => Some (x :: s, r)
            | _, _ => None
            end
        | [] => None
        end
      else if (nat_of_ascii c <? 32)%nat then None
      else match json_string_body l' with
           | Some (s, r) => Some (c :: s, r)
           | None => None
           end
  end.

Fixpoint span_digits (l : list ascii) : list ascii * list ascii :=
  match l with
  | c :: l' =>
      if is_digit c then let '(g, r) := span_digits l' in (c :: g, r)
      else ([], l)
  | [] => ([], [])
  end.

Definition json_number (l : list ascii) : option (pyval * list ascii) :=
  let '(neg, l1) :=
    match l with
    | c :: r => if Ascii.eqb c "-" then (true, r) else (false, l)
    | [] => (false, l)
    end in
  let '(ds, r) := span_digits l1 in
  match numeral ds with
  | Some n =>
      let continues :=
        match r with
        | c :: _ => Ascii.eqb c "." || Ascii.eqb c "e" || Ascii.eqb c "E"
        | [] => false
        end in
      if continues then None
      else Some (PyInt (if neg then - Z.of_N n else Z.of_N n), r)
  | None => None
  end.

Definition json_literal (l : list ascii) : option (pyval * list ascii) :=
  match strip_prefix (chars "true") l with
  | Some r => Some (PyBool true, r)
  | None =>
      match strip_prefix (chars "false") l with
      | Some r => Some (PyBool false, r)
      | None =>
          match strip_prefix (chars "null") l with
          | Some r => Some (PyNone, r)
          | None => json_number l
          end
      end
  end.

Fixpoint json_value (fuel : nat) (l : list ascii) : option (pyval * list ascii) :=
  match fuel with
  | O => None
  | S f =>
      match skip_ws l with
      | [] => None
      | c :: r =>
          if Ascii.eqb c "{" then
            match skip_ws r with
            | c' :: r' =>
                if Ascii.eqb c' "}" then Some (PyDict [], r')
                else json_members f r []
            | [] => None
            end
          else if Ascii.eqb c "[" then
            match skip_ws r with
            | c' :: r' =>
                if Ascii.eqb c' "]" then Some (PyList [], r')
                else json_elements f r []
            | [] => None
            end
          else if Ascii.eqb c dquote then
            match json_string_body r with
            | Some (s, r') => Some (PyStr (text s), r')
            | None => None
            end
          else json_literal (c :: r)
      end
  end
with json_members (fuel : nat) (l : list ascii) (acc : list (string * pyval))
  : option (pyval * list ascii) :=
  match fuel with
  | O => None
  | S f =>
      match skip_ws l with
      | q :: r =>
          if Ascii.eqb q dquote then
            match json_string_body r with
            | Some (k, r1) =>
                match skip_ws r1 with
                | colon :: r2 =>
                    if Ascii.eqb colon ":" then
                      match json_value f r2 with
                      | Some (v, r3) =>
                          let acc' := assoc_set acc (text k) v in
                          match skip_ws r3 with
                          | sep :: r4 =>
                              if Ascii.eqb sep "," then json_members f r4 acc'
                              else if Ascii.eqb sep "}" then Some (PyDict acc', r4)
                              else None
                          | [] => None
                          end
                      | None => None
                      end
                    else None
                | [] => None
                end
            | None => None
            end
          else None
      | [] => None
      end
  end
with json_elements (fuel : nat) (l : list ascii) (acc : list pyval)
  : option (pyval * list ascii) :=
  match fuel with
  | O => None
  | S f =>
      match json_value f l with
      | Some (v, r) =>
          match skip_ws r with
          | sep :: r' =>
              if Ascii.eqb sep "," then json_elements f r' (acc ++ [v])
              else if Ascii.eqb sep "]" then Some (PyList (acc ++ [v]), r')
              else None
          | [] => None
          end
      | None => None
      end
  end.

Definition example_json_loads (s : string) : result pyval :=
  match json_value (S (String.length s)) (chars s) with
  | Some (v, rest) =>
      match skip_ws rest with
      | [] => Ok v
      | _ :: _ => Raise JSONDecodeError
      end
  | None => Raise JSONDecodeError
  end.

Definition example_yaml_safe_load (s : string) : result pyval :=
  match example_json_loads s with
  | Ok v => Ok v
  | Raise _ => Raise YAMLError
  end.

(** Archive listings: the letters PK, then for each member a semicolon
    and the three fields name, attributes and data separated by bars. *)
Definition parse_member (l : list ascii) : option ZipMember :=
  match split_on "|" l with
  | [n; a; d] =>
      match numeral a with
      | Some attr => Some (mkMember (text n) (text d) (Z.of_N attr))
      | None => None
      end
  | _ => None
  end.

Fixpoint parse_members (ps : list (list ascii)) : option (list ZipMember) :=
  match ps with
  | [] => Some []
  | p :: ps' =>
      match parse_member p, parse_members ps' with
      | Some m, Some ms => Some (m :: ms)
      | _, _ => None
      end
  end.

Definition example_zip_read (s : string) : result (list ZipMember) :=
  match strip_prefix (chars "PK") (chars s) with
  | Some rest =>
      match split_on ";" rest with
      | [] :: entries =>
          match parse_members entries with
          | Some ms => Ok ms
          | None => Raise BadZipFile
          end
      | _ => Raise BadZipFile
      end
  | None => Raise BadZipFile
  end.

Definition example_libs : Libs :=
  mkLibs example_json_loads example_yaml_safe_load example_zip_read.

(** Texts with double quotes are written with apostrophes in examples. *)
Definition quoted (s : string) : string :=
  text ((fun c => if Ascii.eqb c "'" then dquote else c) <$> chars s).

(** ** A state and exception monad

    [M S A] is a computation over a state [S] that returns an [A] or
    raises; the state at the point of the raise is kept, as side effects
    done before an exception are not undone. *)

Definition M (S A : Type) : Type := S -> result A * S.

Definition retM {S A} (a : A) : M S A := fun s => (Ok a, s).
Definition raiseM {S A} (e : exn) : M S A := fun s => (Raise e, s).
Definition bindM {S A B} (m : M S A) (k : A -> M S B) : M S B :=
  fun s => match m s with
           | (Ok a, s') => k a s'
           | (Raise e, s') => (Raise e, s')
           end.
Definition getM {S} : M S S := fun s => (Ok s, s).
Definition liftR {S A} (r : result A) : M S A := fun s => (r, s).

(** [try: m except Exception as e: handler e]. *)
Definition try_except {S A} (m : M S A) (handler : exn -> M S A) : M S A :=
  fun s => match m s with
           | (Ok a, s') => (Ok a, s')
           | (Raise e, s') => handler e s'
           end.

Notation "x <~ m ;; k" := (bindM m (fun x => k))
  (at level 100, m at next level, right associativity).
Notation "m ;;; k" := (bindM m (fun _ => k))
  (at level 100, right associativity).

(** [for x in xs: body x], stopping at the first exception. *)
Fixpoint forM {S A} (xs : list A) (body : A -> M S unit) : M S unit :=
  match xs with
  | [] => retM tt
  | x :: xs' => body x ;;; forM xs' body
  end.

(** ** File-system operations *)

Definition default_perm : Z := 420.   (* 0o644 *)
Definition private_perm : Z := 384.   (* 0o600 *)

(** The permission bits of a mode: read, write and execute for the
    owner, the group and the others. *)
Definition permission_bits (mode : Z) : Z := Z.land mode 511.   (* 0o777 *)

Definition dirname (p : list string) : list string := removelast p.
Definition basename (p : list string) : string := List.last p EmptyString.

(** The error [open] or [mkdir] reports when the parent directory of the
    path is missing or is a file; [None] when it is a directory. *)
Definition parent_error (fs : FS) (p : list string) : option exn :=
  match fs !! dirname p with
  | Some Dir => None
  | Some (File _ _) => Some NotADirectoryError
  | None => Some FileNotFoundError
  end.

(** [os.makedirs(p, exist_ok=True)], walking the prefixes of [p] from the
    top: missing ones are created, and a file in the way raises. *)
Fixpoint makedirs_from (pre rest : list string) : M FS unit :=
  fun fs =>
    match rest with
    | [] => (Ok tt, fs)
    | c :: rest' =>
        let p := pre ++ [c] in
        match fs !! p with
        | None => makedirs_from p rest' (<[p := Dir]> fs)
        | Some Dir => makedirs_from p rest' fs
        | Some (File _ _) =>
            (Raise (match rest' with
                    | [] => FileExistsError
                    | _ => NotADirectoryError
                    end), fs)
        end
    end.

Definition makedirs (p : list string) : M FS unit := makedirs_from [] p.

(** [os.mkdir(p)]. *)
Definition mkdir (p : list string) : M FS unit :=
  fun fs =>
    match fs !! p with
    | Some _ => (Raise FileExistsError, fs)
    | None =>
        match parent_error fs p with
        | Some e => (Raise e, fs)
        | None => (Ok tt, <[p := Dir]> fs)
        end
    end.

(** [open(p, "wb")] followed by one write of [bytes]: an existing file is
    truncated and keeps its mode. *)
Definition write_file (p : list string) (bytes : string) (new_perm : Z) : M FS unit :=
  fun fs =>
    match fs !! p with
    | Some Dir => (Raise IsADirectoryError, fs)
    | Some (File _ perm) => (Ok tt, <[p := File bytes perm]> fs)
    | None =>
        match parent_error fs p with
        | Some e => (Raise e, fs)
        | None => (Ok tt, <[p := File bytes new_perm]> fs)
        end
    end.

(** A further [f.write(chunk)] on the file opened at [p]. *)
Definition append_file (p : list string) (chunk : string) : M FS unit :=
  fun fs =>
    match fs !! p with
    | Some (File bytes perm) => (Ok tt, <[p := File (bytes +:+ chunk) perm]> fs)
    | Some Dir => (Raise IsADirectoryError, fs)
    | None => (Raise FileNotFoundError, fs)
    end.

(** [os.chmod(p, mode)]; directories carry no mode in this model.  The
    argument is kept as it is given, file-type bits included; what it
    says about the file on disk is its [permission_bits]. *)
Definition chmod (p : list string) (mode : Z) : M FS unit :=
  fun fs =>
    match fs !! p with
    | Some (File bytes _) => (Ok tt, <[p := File bytes mode]> fs)
    | Some Dir => (Ok tt, fs)
    | None => (Raise FileNotFoundError, fs)
    end.

(** [os.remove(p)] / [os.unlink(p)]. *)
Definition unlink (p : list string) : M FS unit :=
  fun fs =>
    match fs !! p with
    | Some (File _ _) => (Ok tt, delete p fs)
    | Some Dir => (Raise IsADirectoryError, fs)
    | None => (Raise FileNotFoundError, fs)
    end.

(** Everything that is not at or below [p]. *)
Definition prune (p : list string) (fs : FS) : FS :=
  filter (fun kv => ¬ p `prefix_of` kv.1) fs.

(** [shutil.rmtree(p)]. *)
Definition rmtree (p : list string) : M FS unit :=
  fun fs =>
    match fs !! p with
    | Some Dir => (Ok tt, prune p fs)
    | Some (File _ _) => (Raise NotADirectoryError, fs)
    | None => (Raise FileNotFoundError, fs)
    end.

(** [strip_path src p] is [Some q] when [p = src ++ q]. *)
Fixpoint strip_path (src p : list string) : option (list string) :=
  match src, p with
  | [], _ => Some p
  | a :: src', b :: p' => if decide (a = b) then strip_path src' p' else None
  | _ :: _, [] => None
  end.

(** The tree below [src], keyed by paths relative to [src]. *)
Definition subtree (src : list string) (fs : FS) : FS :=
  list_to_map
    (omap (fun kv => (fun q => (q, kv.2)) <$> strip_path src kv.1)
          (map_to_list fs)).

(** The tree [t] placed at [dst]. *)
Definition graft (dst : list string) (t : FS) : FS := kmap (app dst) t.

(** [shutil.move(src, dst)]: a rename when that works, else a copy of the
    source (which creates the missing parents of a directory destination)
    followed by its removal.  The copy is taken as one step that
    completes; [shutil.copytree] copies file by file and can stop midway,
    so statements about a move that fails are made for the case in which
    the parent of the destination exists and the move is a rename. *)
Definition move (src dst : list string) : M FS unit :=
  fun fs =>
    let real_dst := if isdir fs dst then dst ++ [basename src] else dst in
    if isdir fs dst && bool_decide (src = dst) then (Ok tt, fs)
    else if isdir fs dst && exists_path fs real_dst then (Raise ShutilError, fs)
    else
      match fs !! src with
      | None => (Raise FileNotFoundError, fs)
      | Some (File bytes perm) =>
          match parent_error fs real_dst with
          | Some e => (Raise e, fs)
          | None =>
              match fs !! real_dst with
              | Some Dir => (Raise IsADirectoryError, fs)
              | _ => (Ok tt, <[real_dst := File bytes perm]> (delete src fs))
              end
          end
      | Some Dir =>
          if bool_decide (src `prefix_of` real_dst) then (Raise ShutilError, fs)
          else
            match fs !! real_dst with
            | Some _ => (Raise FileExistsError, fs)
            | None =>
                match makedirs (dirname real_dst) fs with
                | (Raise e, fs') => (Raise e, fs')
                | (Ok _, fs') =>
                    (Ok tt, graft real_dst (subtree src fs') ∪ prune src fs')
                end
            end
      end.

(** The regular files that [os.walk(top)] reports, as full paths. *)
Definition walk_files (top : list string) (fs : FS) : list (list string) :=
  omap (fun kv => match kv.2 with
                  | File _ _ => if bool_decide (top `prefix_of` kv.1)
                                then Some kv.1 else None
                  | Dir => None
                  end)
       (map_to_list fs).

(** The first candidate name that is free in [dir]. *)
Fixpoint pick_fresh (fs : FS) (dir : list string) (candidates : list string)
  : option string :=
  match candidates with
  | [] => None
  | c :: rest =>
      match fs !! (dir ++ [c]) with
      | None => Some c
      | Some _ => pick_fresh fs dir rest
      end
  end.

(** [tempfile.mkdtemp(dir=dir)]: random names are tried until one is
    free; [candidates] are the names the generator produces. *)
Definition mkdtemp (dir : list string) (candidates : list string)
  : M FS (list string) :=
  fun fs =>
    match fs !! dir with
    | Some Dir =>
        match pick_fresh fs dir candidates with
        | Some c => (Ok (dir ++ [c]), <[dir ++ [c] := Dir]> fs)
        | None => (Raise FileExistsError, fs)
        end
    | Some (File _ _) => (Raise NotADirectoryError, fs)
    | None => (Raise FileNotFoundError, fs)
    end.

(** The file creation of [tempfile.NamedTemporaryFile(dir=dir)]. *)
Definition mkstemp (dir : list string) (candidates : list string)
  : M FS (list string) :=
  fun fs =>
    match fs !! dir with
    | Some Dir =>
        match pick_fresh fs dir candidates with
        | Some c => (Ok (dir ++ [c]), <[dir ++ [c] := File EmptyString private_perm]> fs)
        | None => (Raise FileExistsError, fs)
        end
    | Some (File _ _) => (Raise NotADirectoryError, fs)
    | None => (Raise FileNotFoundError, fs)
    end.

(** [with tempfile.TemporaryDirectory(dir=dir) as tmpdirname: body]: on
    every exit the directory and all it holds are removed; a directory
    that is already gone is not an error. *)
Definition with_temporary_directory {A} (dir : list string)
    (candidates : list string) (body : list string -> M FS A) : M FS A :=
  fun fs =>
    match mkdtemp dir candidates fs with
    | (Raise e, fs') => (Raise e, fs')
    | (Ok tmpdirname, fs') =>
        let '(r, fs'') := body tmpdirname fs' in (r, prune tmpdirname fs'')
    end.

(** ** Unpacking *)

Definition invalid_part (s : string) : bool :=
  bool_decide (s = EmptyString ∨ s = "." ∨ s = "..").

(** The sanitised member path of [ZipFile._extract_member]: split at the
    separators, without empty, [.] and [..] components. *)
Definition arcname (fname : string) : list string :=
  filter (fun s => invalid_part s = false) (text <$> split_on "/" (chars fname)).

(** [member.is_dir()]: the stored name ends with a separator. *)
Definition member_is_dir (m : ZipMember) : bool :=
  match last (chars (filename m)) with
  | Some c => Ascii.eqb c "/"
  | None => false
  end.

(** [zip_ref.extract(member, dest)]; returns the path it wrote. *)
Definition extract (m : ZipMember) (dest : list string) : M FS (list string) :=
  let targetpath := dest ++ arcname (filename m) in
  let upperdirs := dirname targetpath in
  fs <~ getM ;;
  (if exists_path fs upperdirs then retM tt else makedirs upperdirs) ;;;
  if member_is_dir m
  then
    fs' <~ getM ;;
    (if isdir fs' targetpath then retM tt else mkdir targetpath) ;;;
    retM targetpath
  else
    write_file targetpath (data m) default_perm ;;;
    retM targetpath.

(** The body of the [for member in zip_ref.infolist()] loop. *)
Definition extract_member (dest : list string) (m : ZipMember) : M FS unit :=
  extracted_path <~ extract m dest ;;
  let original_mode := Z.shiftr (external_attr m) 16 in
  if original_mode =? 0 then retM tt else chmod extracted_path original_mode.

(** A string that is one path component for [os.path.join]: not empty,
    neither [.] nor [..], without a separator and without a NUL. *)
Definition plain_component (s : string) : bool :=
  negb (invalid_part s)
  && forallb (fun c => negb (Ascii.eqb c "/" || Ascii.eqb c Ascii.zero)) (chars s).

Section Installer.
Context (L : Libs).
Context (ayon_version : string).
Context (addons_dir : list string).

(** [os.path.join(addon_root_dir, zip_info.name, zip_info.version)], for
    a name and a version that are plain path components
    ([plain_component]).  For other strings [os.path.join] gives another
    path (an empty string adds no component, [..] leads upwards, a
    separator splits the string, a leading separator starts again at the
    root of the file system), which this definition does not follow:
    statements about the paths an installation leaves alone are made for
    plain components. *)
Definition target_path (zip_info : AddonZipInfo) : list string :=
  addons_dir ++ [name zip_info; version zip_info].

(** The body of the [for file in files] loop of the rez branch. *)
Definition rehome (tmpdirname target_dir source_file : list string) : M FS unit :=
  let target_file := target_dir ++ drop (length tmpdirname) source_file in
  makedirs (dirname target_file) ;;;
  move source_file target_file.

(** [unpack_addon_sync]; [dir_names] are the names the temporary
    directory generator produces.  The calls to the logger are not
    modelled.  [os.walk] is taken to list the files that are below the
    scratch directory when the walk starts. *)
Definition unpack_addon_sync (zip_path : list string) (zip_info : AddonZipInfo)
    (dir_names : list string) : M FS unit :=
  let addon_root_dir := addons_dir in
  makedirs addon_root_dir ;;;
  let target_dir := target_path zip_info in
  with_temporary_directory addon_root_dir dir_names (fun tmpdirname =>
    fs0 <~ getM ;;
    members <~ liftR (open_zip L fs0 zip_path) ;;
    forM members (extract_member tmpdirname) ;;;
    fs1 <~ getM ;;
    (if isdir fs1 target_dir then rmtree target_dir else retM tt) ;;;
    if is_rez zip_info
    then
      fs2 <~ getM ;;
      forM (walk_files tmpdirname fs2) (rehome tmpdirname target_dir) ;;;
      rmtree tmpdirname
    else
      move (tmpdirname ++ ["addon"]) target_dir).

(** *** The event log *)

Record Event : Type := mkEvent {
  ev_id : string;
  ev_description : option string;
  ev_status : option string;
  ev_summary : option (AddonZipInfo * string);
  ev_progress : option Z;
  ev_store : bool
}.

Record World : Type := mkWorld {
  files : FS;
  events : list Event
}.

(** Modelled from the spec: [update_event] of [ayon_server.events], the
    progress sink, is not among the sources.  The spec describes it as
    fire-and-forget and never read back, so a call records its arguments,
    in the order the calls are made, and does not raise. *)
Definition update_event (e : Event) : M World unit :=
  fun w => (Ok tt, mkWorld (files w) (events w ++ [e])).

Definition on_files {A} (m : M FS A) : M World A :=
  fun w => let '(r, fs') := m (files w) in (r, mkWorld fs' (events w)).

(** The text an exception formats to; for library exceptions the class
    name stands for the message. *)
Definition exn_text (e : exn) : string :=
  match e with
  | UnsupportedAddonException msg => msg
  | TransportError msg => msg
  | ValueError => "ValueError"
  | JSONDecodeError => "JSONDecodeError"
  | YAMLError => "YAMLError"
  | AttributeError => "AttributeError"
  | ValidationError => "ValidationError"
  | BadZipFile => "BadZipFile"
  | FileNotFoundError => "FileNotFoundError"
  | FileExistsError => "FileExistsError"
  | NotADirectoryError => "NotADirectoryError"
  | IsADirectoryError => "IsADirectoryError"
  | ShutilError => "shutil.Error"
  | KeyError => "KeyError"
  end.

(** [unpack_addon]: the entry point for an archive that is already on
    disk.  The executor runs [unpack_addon_sync] and the coroutine
    awaits it, so within one job the call is sequential. *)
Definition unpack_addon (event_id : string) (zip_path : list string)
    (zip_info : AddonZipInfo) (dir_names : list string) : M World unit :=
  update_event
    (mkEvent event_id
       (Some ("Unpacking addon " +:+ name zip_info +:+ " " +:+ version zip_info))
       (Some "in_progress") None None true) ;;;
  try_except
    (on_files (unpack_addon_sync zip_path zip_info dir_names))
    (fun e =>
       update_event
         (mkEvent event_id
            (Some ("Error while unpacking addon: " +:+ exn_text e))
            (Some "failed") None None true)) ;;;
  try_except (on_files (unlink zip_path)) (fun _ => retM tt) ;;;
  update_event
    (mkEvent event_id
       (Some ("Addon " +:+ name zip_info +:+ " " +:+ version zip_info +:+ " installed"))
       (Some "finished") None None true).

(** *** Download *)

(** One chunk of the response body with the clock reading (in
    milliseconds) taken after it was written. *)
Record Chunk : Type := mkChunk {
  chunk_bytes : string;
  chunk_clock : Z
}.

Record Response : Type := mkResponse {
  status_code : Z;
  content_length : option Z;
  chunks : list Chunk;
  stream_error : option exn   (* raised by the stream after the chunks *)
}.

Inductive Fetch : Type :=
| ConnectFailed (e : exn)
| Connected (r : Response).

(** The [async for chunk in response.aiter_bytes()] loop.  The
    percentage is computed on integers here; the code computes it in
    floating point. *)
Fixpoint download_loop (event_id : string) (zip_path : list string)
    (file_size : Z) (cs : list Chunk) (i last_time : Z) : M World unit :=
  match cs with
  | [] => retM tt
  | c :: cs' =>
      on_files (append_file zip_path (chunk_bytes c)) ;;;
      let i' := i + Z.of_nat (String.length (chunk_bytes c)) in
      if negb (file_size =? 0) && (chunk_clock c - last_time >? 1000)
      then
        let percent := Z.quot (i' * 100) file_size in
        update_event
          (mkEvent event_id None None None (Some (Z.quot percent 2)) false) ;;;
        download_loop event_id zip_path file_size cs' i' (chunk_clock c)
      else download_loop event_id zip_path file_size cs' i' last_time
  end.

(** The [client.stream("GET", url)] block: the status code of the
    response is not looked at. *)
Definition download (event_id : string) (zip_path : list string) (f : Fetch)
  : M World unit :=
  match f with
  | ConnectFailed e => raiseM e
  | Connected response =>
      let file_size := default 0 (content_length response) in
      on_files (write_file zip_path EmptyString private_perm) ;;;
      download_loop event_id zip_path file_size (chunks response) 0 0 ;;;
      match stream_error response with
      | Some e => raiseM e
      | None => retM tt
      end
  end.

(** [with tempfile.NamedTemporaryFile(dir=dir) as temporary_file: body]:
    the file is unlinked when the block is left, normally or not. *)
Definition with_named_temporary_file {A} (dir : list string)
    (candidates : list string) (body : list string -> M World A) : M World A :=
  fun w =>
    match on_files (mkstemp dir candidates) w with
    | (Raise e, w') => (Raise e, w')
    | (Ok zip_path, w') =>
        let '(r, w'') := body zip_path w' in
        match on_files (unlink zip_path) w'' with
        | (Ok _, w3) => (r, w3)
        | (Raise e, w3) => (Raise e, w3)
        end
    end.

(** [install_addon_from_url]; [http_get] is the network, [file_names]
    and [dir_names] the names the temporary-name generator produces. *)
Definition install_addon_from_url (http_get : string -> Fetch)
    (file_names dir_names : list string) (event_id url : string) : M World unit :=
  update_event
    (mkEvent event_id (Some ("Downloading addon from URL " +:+ url))
       (Some "in_progress") None None true) ;;;
  zip_info <~ with_named_temporary_file addons_dir file_names (fun zip_path =>
    download event_id zip_path (http_get url) ;;;
    w <~ getM ;;
    zip_info <~ liftR (get_addon_zip_info L ayon_version (files w) zip_path) ;;
    update_event
      (mkEvent event_id
         (Some ("Installing addon " +:+ name zip_info +:+ " " +:+ version zip_info))
         (Some "in_progress") (Some (zip_info, url)) (Some 50) true) ;;;
    on_files (unpack_addon_sync zip_path zip_info dir_names) ;;;
    retM zip_info) ;;
  update_event
    (mkEvent event_id
       (Some ("Addon " +:+ name zip_info +:+ " " +:+ version zip_info +:+ " installed"))
       (Some "finished") None None true).

End Installer.

(** ** Semantic-version precedence, as the specification words it

    Major, minor and patch compare numerically, in that order.  With
    equal triples a version with a pre-release precedes the one without;
    two pre-releases compare tag by tag: numbers numerically, a number
    before any text, texts in code-point order, and a proper prefix
    before its extensions.  Build metadata takes no part. *)

Inductive tag_lt : ident -> ident -> Prop :=
| tag_lt_num x y : (x < y)%N -> tag_lt (INum x) (INum y)
| tag_lt_num_text x s : tag_lt (INum x) (IAlnum s)
| tag_lt_text s t : String.compare s t = Lt -> tag_lt (IAlnum s) (IAlnum t).

Inductive tags_lt : list ident -> list ident -> Prop :=
| tags_lt_prefix y ys : tags_lt [] (y :: ys)
| tags_lt_head x y xs ys : tag_lt x y -> tags_lt (x :: xs) (y :: ys)
| tags_lt_tail x xs ys : tags_lt xs ys -> tags_lt (x :: xs) (x :: ys).

Definition prerelease_lt (a b : list ident) : Prop :=
  match a, b with
  | [], _ => False
  | _ :: _, [] => True
  | _ :: _, _ :: _ => tags_lt a b
  end.

Definition precedes (v w : VersionInfo) : Prop :=
  (major v < major w)%N
  ∨ (major v = major w
     ∧ ((minor v < minor w)%N
        ∨ (minor v = minor w
           ∧ ((patch v < patch w)%N
              ∨ (patch v = patch w
                 ∧ prerelease_lt (prerelease v) (prerelease w)))))).

Definition same_precedence (v w : VersionInfo) : Prop :=
  major v = major w ∧ minor v = minor w ∧ patch v = patch w
  ∧ prerelease v = prerelease w.

(** [a < b] and [a <= b] on version strings. *)
Definition version_lt (a b : string) : Prop :=
  ∃ v w, parse_version a = Some v ∧ parse_version b = Some w ∧ precedes v w.

Definition version_le (a b : string) : Prop :=
  ∃ v w, parse_version a = Some v ∧ parse_version b = Some w
         ∧ (precedes v w ∨ same_precedence v w).

(** The platform version [p] lies in the range a descriptor declares. *)
Definition in_range (p : string) (d : AddonZipInfo) : Prop :=
  version_le (min_ayon_version d) p
  ∧ match max_ayon_version d with
    | None => True
    | Some upper => version_lt p upper
    end.

(** A descriptor whose bounds are semantic versions. *)
Definition well_formed_bounds (d : AddonZipInfo) : Prop :=
  is_Some (parse_version (min_ayon_version d))
  ∧ match max_ayon_version d with
    | None => True
    | Some upper => is_Some (parse_version upper)
    end.

(** The value [parse_loop] computes when it opens the entry [nm] and
    hands its text to [parser]. *)
Definition parsed_with (members : list ZipMember) (nm : string)
    (parser : string -> result AddonZipInfo)
  : list string * result (option AddonZipInfo) :=
  ([nm],
   manifest ← read_text members nm;
   zip_info ← parser manifest;
   mret (Some zip_info)).

(** ** Inputs of the examples *)

Definition tvpaint_manifest : string :=
  quoted "{'name':'tvpaint','version':'1.0.0'}".

Definition nameless_manifest : string :=
  quoted "{'addon_name':'x','addon_version':'1','name':'','version':''}".

Definition nameless_archive : string :=
  "PK;manifest.json|0|" +:+ nameless_manifest +:+ ";addon/|0|".

Definition json_and_yaml : list ZipMember :=
  [ mkMember "package.yaml"
      (quoted "{'name': 'from_yaml', 'version': '2.0.0'}") 0;
    mkMember "manifest.json"
      (quoted "{'addon_name': 'a', 'addon_version': '1', 'name': 'from_json', 'version': '1.0.0'}")
      0 ].

(** The bytes a response delivers, chunk after chunk. *)
Definition concat_chunks (cs : list Chunk) : string :=
  foldr (fun c acc => chunk_bytes c +:+ acc) EmptyString cs.

(** The first event of [install_addon_from_url]. *)
Definition downloading_event (event_id url : string) : Event :=
  mkEvent event_id (Some ("Downloading addon from URL " +:+ url))
    (Some "in_progress") None None true.

(** An event that reports progress only. *)
Definition progress_only (event_id : string) (e : Event) : Prop :=
  ev_id e = event_id /\ ev_status e = None /\ ev_description e = None.

Definition example_root : list string := ["addons"].

Definition example_world : World :=
  mkWorld {[ [] := Dir; ["addons"] := Dir ]} [].

(** A standard archive: JSON manifest and an [addon] directory. *)
Definition tvpaint_archive : string :=
  quoted "PK;manifest.json|0|{'addon_name':'tvpaint','addon_version':'1.0.0','name':'tvpaint','version':'1.0.0'};addon/|0|;addon/a.py|2175008768|x=1".

(** An archive without any manifest. *)
Definition plain_archive : string := "PK;readme.txt|0|hello".

(** A standard archive that lacks the [addon] directory. *)
Definition hollow_archive : string :=
  quoted "PK;manifest.json|0|{'addon_name':'tvpaint','addon_version':'1.0.0','name':'tvpaint','version':'1.0.0'}".

(** A server that answers every request with the given status and body,
    in one chunk and without a content length. *)
Definition serve (status : Z) (body : string) : string -> Fetch :=
  fun _ => Connected (mkResponse status None [mkChunk body 0] None).

(** A server that cannot be reached. *)
Definition unreachable : string -> Fetch :=
  fun _ => ConnectFailed (TransportError "connection refused").

(** A server whose stream breaks after the first chunk. *)
Definition breaking (body : string) : string -> Fetch :=
  fun _ => Connected (mkResponse 200 (Some 1000) [mkChunk body 2000]
                        (Some (TransportError "connection reset"))).

Definition not_failed (e : Event) : Prop := ev_status e <> Some "failed".

(** A world in which an archive was uploaded next to the install root. *)
Definition uploaded_world (archive : string) : World :=
  mkWorld {[ [] := Dir; ["addons"] := Dir;
             ["uploads"] := Dir; ["uploads"; "a.zip"] := File archive 420 ]} [].

Definition tvpaint_info : AddonZipInfo :=
  mkAddonZipInfo "tvpaint" "1.0.0" "1.0.0" (Some "1.2.0") false.

(** ** Vocabulary of the file-system properties *)

(** [m] leaves the nodes at the paths in [P] as they are. *)
Definition preserves {A} (P : list string -> Prop) (m : M FS A) : Prop :=
  forall fs q n, P q -> fs !! q = Some n -> (m fs).2 !! q = Some n.

(** The path [q] lies outside the tree rooted at [p]. *)
Definition outside (p q : list string) : Prop := ¬ p `prefix_of` q.

(** A file system in which every node other than the root lies in a
    directory. *)
Definition tree_like (fs : FS) : Prop :=
  forall p x, is_Some (fs !! (p ++ [x])) -> fs !! p = Some Dir.

(** The node [n] at the member path [rel] stems from the archive: [rel]
    leads to a member, and a file holds the data of a file member stored
    under exactly that path. *)
Definition from_archive (members : list ZipMember) (rel : list string)
    (n : node) : Prop :=
  (exists m, m ∈ members /\ rel `prefix_of` arcname (filename m))
  /\ (forall bytes perm, n = File bytes perm ->
      exists m, m ∈ members /\ member_is_dir m = false
                /\ arcname (filename m) = rel /\ data m = bytes).

(** Where the installed content sits inside the archive. *)
Definition payload_root (zip_info : AddonZipInfo) : list string :=
  if is_rez zip_info then [] else ["addon"].

(** The archive has content for its packaging kind: some file for a rez
    package, an [addon] directory otherwise. *)
Definition carries_payload (zip_info : AddonZipInfo) (members : list ZipMember)
  : Prop :=
  if is_rez zip_info
  then exists m, m ∈ members /\ member_is_dir m = false
                 /\ arcname (filename m) <> []
  else exists m k, m ∈ members /\ arcname (filename m) = "addon" :: k
                   /\ (k <> [] \/ member_is_dir m = true).

(** The scratch directory [tmp] after the members [ms] were extracted. *)
Definition staged (ms : list ZipMember) (tmp : list string) (fs : FS) : Prop :=
  tree_like fs
  /\ fs !! tmp = Some Dir
  /\ forall rel n, rel <> [] -> fs !! (tmp ++ rel) = Some n -> from_archive ms rel n.


(** [m] never turns a directory into something else, nor a file into a
    directory or nothing. *)
Definition same_kind (n n' : node) : Prop :=
  match n, n' with
  | Dir, Dir => True
  | File _ _, File _ _ => True
  | _, _ => False
  end.

Definition keeps_kinds {A} (m : M FS A) : Prop :=
  forall fs q n, fs !! q = Some n ->
                 exists n', (m fs).2 !! q = Some n' /\ same_kind n n'.

(** Every node strictly below [tmp] stems from the members [ms]. *)
Definition provenance (ms : list ZipMember) (tmp : list string) (fs : FS) : Prop :=
  forall rel n, rel <> [] -> fs !! (tmp ++ rel) = Some n -> from_archive ms rel n.

(** The node [n] has the kind of the member [m]. *)
Definition kind_of_member (m : ZipMember) (n : node) : Prop :=
  if member_is_dir m then n = Dir else exists bytes perm, n = File bytes perm.

(** The state of the rez loop: what is left below the scratch directory
    [tmp] is as in [fs2], the state when the loop started, and every node
    strictly below [target] is the node [fs2] had at the same relative
    path below [tmp]. *)
Definition rehomed (tmp target : list string) (fs2 fs : FS) : Prop :=
  (forall p n, tmp `prefix_of` p -> fs !! p = Some n -> fs2 !! p = Some n)
  /\ (forall k n, k <> [] -> fs !! (target ++ k) = Some n ->
                  fs2 !! (tmp ++ k) = Some n).

(** A decidable form of [tree_like] for concrete file systems. *)
Definition tree_like_b (fs : FS) : bool :=
  forallb (fun kv => match kv.1 with
                     | [] => true
                     | _ => bool_decide (fs !! dirname kv.1 = Some Dir)
                     end)
          (map_to_list fs).

(** A file system with tvpaint 1.0.0 installed and a new archive
    uploaded. *)
Definition installed_files : FS :=
  {[ [] := Dir; ["addons"] := Dir; ["addons"; "tvpaint"] := Dir;
     ["addons"; "tvpaint"; "1.0.0"] := Dir;
     ["addons"; "tvpaint"; "1.0.0"; "old.py"] := File "old" 420;
     ["uploads"] := Dir; ["uploads"; "a.zip"] := File tvpaint_archive 420 ]}.

(** The members of [tvpaint_archive]. *)
Definition tvpaint_members : list ZipMember :=
  [ mkMember "manifest.json"
      (quoted "{'addon_name':'tvpaint','addon_version':'1.0.0','name':'tvpaint','version':'1.0.0'}")
      0;
    mkMember "addon/" EmptyString 0;
    mkMember "addon/a.py" "x=1" 2175008768 ].

(** ** Vocabulary of the further properties *)

(** [m] changes nothing at the paths in [P]: a node there is neither
    altered nor created nor removed, whether [m] returns or raises. *)
Definition untouched {A} (P : list string -> Prop) (m : M FS A) : Prop :=
  forall fs q, P q -> (m fs).2 !! q = fs !! q.

(** The events [unpack_addon] and [install_addon_from_url] record. *)
Definition unpacking_event (event_id : string) (zip_info : AddonZipInfo) : Event :=
  mkEvent event_id
    (Some ("Unpacking addon " +:+ name zip_info +:+ " " +:+ version zip_info))
    (Some "in_progress") None None true.

Definition unpack_failed_event (event_id : string) (e : exn) : Event :=
  mkEvent event_id (Some ("Error while unpacking addon: " +:+ exn_text e))
    (Some "failed") None None true.

Definition installing_event (event_id url : string) (zip_info : AddonZipInfo)
  : Event :=
  mkEvent event_id
    (Some ("Installing addon " +:+ name zip_info +:+ " " +:+ version zip_info))
    (Some "in_progress") (Some (zip_info, url)) (Some 50) true.

Definition installed_event (event_id : string) (zip_info : AddonZipInfo) : Event :=
  mkEvent event_id
    (Some ("Addon " +:+ name zip_info +:+ " " +:+ version zip_info +:+ " installed"))
    (Some "finished") None None true.

(** The text [key ws1 = ws2 "g" rest] laid out around an occurrence of
    the pattern of [get_addon_info_from_package_py]. *)
Definition assignment_text (key ws1 ws2 g rest : list ascii) : list ascii :=
  key ++ ws1 ++ "="%char :: ws2 ++ dquote :: g ++ dquote :: rest.

Definition all_spaces (ws : list ascii) : Prop := forallb is_space ws = true.

(** A [package.py] with a name line followed by a version line. *)
Definition package_py_text (n v : list ascii) : list ascii :=
  assignment_text (chars "name") [" "%char] [" "%char] n
    (ascii_of_nat 10
       :: assignment_text (chars "version") [" "%char] [" "%char] v
            [ascii_of_nat 10]).

(** The descriptors the three readers can return, by format. *)
Definition standard_bounds (d : AddonZipInfo) : Prop :=
  is_rez d = false /\ min_ayon_version d = "1.0.0"
  /\ max_ayon_version d = Some "1.2.0".

Definition rez_bounds (d : AddonZipInfo) : Prop :=
  is_rez d = true /\ min_ayon_version d = "1.0.3" /\ max_ayon_version d = None
  /\ name d <> EmptyString /\ version d <> EmptyString.

(** An archive with a [package.py] only, and a world in which it was
    uploaded. *)
Definition rez_archive : string :=
  quoted "PK;package.py|0|name = 'foo'
version = '1.0.0';client/a.py|2175008768|x=1;server/|0|".

Definition rez_members : list ZipMember :=
  [ mkMember "package.py" (quoted "name = 'foo'
version = '1.0.0'") 0;
    mkMember "client/a.py" "x=1" 2175008768;
    mkMember "server/" EmptyString 0 ].

Definition rez_info : AddonZipInfo :=
  mkAddonZipInfo "foo" "1.0.0" "1.0.3" None true.

(** The literal [g] is assigned to [key] somewhere in the text [l]. *)
Definition assigned_in (key g l : list ascii) : Prop :=
  exists pre ws1 ws2 rest,
    all_spaces ws1 /\ all_spaces ws2
    /\ l = pre ++ assignment_text key ws1 ws2 g rest.

Definition not_finished (e : Event) : Prop := ev_status e <> Some "finished".

(** The mode a member stores in the high half of its external
    attributes. *)
Definition original_mode (m : ZipMember) : Z := Z.shiftr (external_attr m) 16.

(** The state of the rez loop once the files [moved] were handled: each
    of them sits at its relative path below [target], the directories
    that lead to it exist, and a directory below [target] leads to one of
    them. *)
Definition placed (tmp target : list string) (fs2 : FS)
    (moved : list (list string)) (fs : FS) : Prop :=
  (forall rel n, tmp ++ rel ∈ moved -> fs2 !! (tmp ++ rel) = Some n ->
                 fs !! (target ++ rel) = Some n)
  /\ (forall k, k <> [] -> fs !! (target ++ k) = Some Dir ->
                exists rel, tmp ++ rel ∈ moved /\ k `prefix_of` dirname rel)
  /\ (forall rel k, tmp ++ rel ∈ moved -> k `prefix_of` dirname rel ->
                    fs !! (target ++ k) = Some Dir).

(** Two file systems hold the same tree below [ta] and below [tb]. *)
Definition same_below (ta tb : list string) (fa fb : FS) : Prop :=
  forall rel, fa !! (ta ++ rel) = fb !! (tb ++ rel).

(** Below [tmp], [fs2] is what the extraction of [members] into a fresh
    scratch directory [tmp] left. *)
Definition extracted (members : list ZipMember) (tmp : list string) (fs2 : FS)
  : Prop :=
  exists fs0 fsS,
    staged [] tmp fs0
    /\ forM members (extract_member tmp) fs0 = (Ok tt, fsS)
    /\ forall j, fs2 !! (tmp ++ j) = fsS !! (tmp ++ j).

(** [unpack_addon_sync] ran to completion on a tree-shaped file system
    [fs], on an archive at [zip_path] that holds [members], with a
    scratch directory that did not take the name of the addon. *)
Definition completed_install (L : Libs) (addons_dir zip_path : list string)
    (zip_info : AddonZipInfo) (dir_names : list string)
    (members : list ZipMember) (fs fs' : FS) : Prop :=
  tree_like fs
  /\ zip_path <> []
  /\ (exists bytes perm, fs !! zip_path = Some (File bytes perm)
                         /\ zip_read L bytes = Ok members)
  /\ (name zip_info ∉ dir_names)
  /\ unpack_addon_sync L addons_dir zip_path zip_info dir_names fs = (Ok tt, fs').

(** A standard archive whose entry [addon] is a regular file. *)
Definition filed_archive : string :=
  quoted "PK;manifest.json|0|{'addon_name':'tvpaint','addon_version':'1.0.0','name':'tvpaint','version':'1.0.0'};addon|0|hello".


(** * Properties *)

(** ** The order computed by [version_compare] *)

Lemma string_compare_refl (s : string) : String.compare s s = Eq.
Proof.
  induction s as [|c s IH]; simpl; [reflexivity|].
  unfold Ascii.compare. rewrite N.compare_refl. exact IH.
Qed.

Lemma cmp_tag_swap (a b : ident) :
  cmp_prerelease_tag b a = CompOpp (cmp_prerelease_tag a b).
Proof.
  destruct a, b; simpl; auto using N.compare_antisym, String.compare_antisym.
Qed.

Lemma cmp_tag_eq (a b : ident) : cmp_prerelease_tag a b = Eq <-> a = b.
Proof.
  destruct a as [x|s], b as [y|t]; simpl; split; intros H; try discriminate.
  - apply N.compare_eq_iff in H. congruence.
  - inversion H. apply N.compare_refl.
  - apply String.compare_eq_iff in H. congruence.
  - inversion H. apply string_compare_refl.
Qed.

Lemma cmp_tag_lt (a b : ident) : cmp_prerelease_tag a b = Lt <-> tag_lt a b.
Proof.
  destruct a as [x|s], b as [y|t]; simpl; split; intros H;
    try discriminate; try (inversion H; fail).
  - constructor. by apply N.compare_lt_iff.
  - inversion H; subst. by apply N.compare_lt_iff.
  - constructor.
  - reflexivity.
  - by constructor.
  - by inversion H.
Qed.

Lemma nat_cmp_swap (a b : list ident) : nat_cmp b a = CompOpp (nat_cmp a b).
Proof.
  revert b. induction a as [|x a IH]; intros [|y b]; simpl; try reflexivity.
  rewrite (cmp_tag_swap x y).
  destruct (cmp_prerelease_tag x y); simpl; auto.
Qed.

Lemma nat_cmp_eq (a b : list ident) : nat_cmp a b = Eq <-> a = b.
Proof.
  revert b. induction a as [|x a IH]; intros [|y b]; simpl;
    try (split; [discriminate | intros; discriminate]); [tauto|].
  destruct (cmp_prerelease_tag x y) eqn:E.
  - apply cmp_tag_eq in E. subst. rewrite IH. split; congruence.
  - split; [discriminate|]. intros [= -> ->].
    rewrite (proj2 (cmp_tag_eq y y) eq_refl) in E. discriminate.
  - split; [discriminate|]. intros [= -> ->].
    rewrite (proj2 (cmp_tag_eq y y) eq_refl) in E. discriminate.
Qed.

Lemma tag_lt_irrefl (a : ident) : ~ tag_lt a a.
Proof.
  intros H. apply cmp_tag_lt in H.
  rewrite (proj2 (cmp_tag_eq a a) eq_refl) in H. discriminate.
Qed.

Lemma nat_cmp_lt (a b : list ident) : nat_cmp a b = Lt <-> tags_lt a b.
Proof.
  revert b. induction a as [|x a IH]; intros [|y b]; simpl.
  - split; [discriminate | inversion 1].
  - split; [constructor | reflexivity].
  - split; [discriminate | inversion 1].
  - destruct (cmp_prerelease_tag x y) eqn:E.
    + apply cmp_tag_eq in E. subst. rewrite IH. split.
      * by apply tags_lt_tail.
      * inversion 1; subst; [|assumption].
        exfalso. by eapply tag_lt_irrefl.
    + apply cmp_tag_lt in E. split; [intros _; by constructor | reflexivity].
    + split; [discriminate|]. inversion 1; subst.
      * match goal with H : tag_lt _ _ |- _ => apply cmp_tag_lt in H end.
        congruence.
      * rewrite (proj2 (cmp_tag_eq y y) eq_refl) in E. discriminate.
Qed.

Lemma version_compare_swap (v w : VersionInfo) :
  version_compare w v = CompOpp (version_compare v w).
Proof.
  unfold version_compare, cmp_triple.
  rewrite (N.compare_antisym (major v) (major w)),
          (N.compare_antisym (minor v) (minor w)),
          (N.compare_antisym (patch v) (patch w)),
          (nat_cmp_swap (prerelease v) (prerelease w)).
  destruct (major v ?= major w)%N; simpl; auto.
  destruct (minor v ?= minor w)%N; simpl; auto.
  destruct (patch v ?= patch w)%N; simpl; auto.
  destruct (prerelease v) as [|x a], (prerelease w) as [|y b]; simpl; auto.
  destruct (cmp_prerelease_tag x y); simpl; auto.
  destruct (nat_cmp a b); simpl; auto.
Qed.

Lemma version_compare_lt (v w : VersionInfo) :
  version_compare v w = Lt <-> precedes v w.
Proof.
  unfold version_compare, cmp_triple, precedes.
  destruct (major v ?= major w)%N eqn:E1.
  2:{ apply N.compare_lt_iff in E1. split; auto. }
  2:{ apply N.compare_gt_iff in E1. split; [discriminate|]. lia. }
  apply N.compare_eq_iff in E1.
  destruct (minor v ?= minor w)%N eqn:E2.
  2:{ apply N.compare_lt_iff in E2. split; auto. }
  2:{ apply N.compare_gt_iff in E2. split; [discriminate|]. lia. }
  apply N.compare_eq_iff in E2.
  destruct (patch v ?= patch w)%N eqn:E3.
  2:{ apply N.compare_lt_iff in E3. split; auto 10. }
  2:{ apply N.compare_gt_iff in E3. split; [discriminate|]. lia. }
  apply N.compare_eq_iff in E3.
  assert (Hpre : match nat_cmp (prerelease v) (prerelease w) with
                 | Eq => Eq
                 | c => match prerelease v, prerelease w with
                        | [], _ => Gt
                        | _ :: _, [] => Lt
                        | _ :: _, _ :: _ => c
                        end
                 end = Lt
                 <-> prerelease_lt (prerelease v) (prerelease w)).
  { destruct (nat_cmp (prerelease v) (prerelease w)) eqn:E4.
    - apply nat_cmp_eq in E4. rewrite E4. unfold prerelease_lt.
      destruct (prerelease w) as [|y b]; [split; [discriminate | tauto]|].
      split; [discriminate|]. intros H. apply nat_cmp_lt in H.
      rewrite (proj2 (nat_cmp_eq _ _) eq_refl) in H. discriminate.
    - unfold prerelease_lt.
      destruct (prerelease v) as [|x a]; [split; [discriminate | tauto]|].
      destruct (prerelease w) as [|y b]; [tauto|].
      split; [intros _; by apply nat_cmp_lt | reflexivity].
    - unfold prerelease_lt.
      destruct (prerelease v) as [|x a]; [split; [discriminate | tauto]|].
      destruct (prerelease w) as [|y b]; [tauto|].
      split; [discriminate|]. intros H. apply nat_cmp_lt in H. congruence. }
  rewrite Hpre. split; [auto 10|].
  intros [?|[_ [?|[_ [?|[_ ?]]]]]]; try lia. assumption.
Qed.

Lemma N_compare_neq (x y : N) (c : comparison) :
  (x ?= y)%N = c -> c <> Eq -> x <> y.
Proof. intros H Hc ->. rewrite N.compare_refl in H. congruence. Qed.

Lemma version_compare_eq (v w : VersionInfo) :
  version_compare v w = Eq <-> same_precedence v w.
Proof.
  unfold version_compare, cmp_triple, same_precedence.
  destruct (major v ?= major w)%N eqn:E1;
    [apply N.compare_eq_iff in E1
    | split; [discriminate | intros (?&?&?&?); exfalso;
               by eapply (N_compare_neq _ _ _ E1)]
    | split; [discriminate | intros (?&?&?&?); exfalso;
               by eapply (N_compare_neq _ _ _ E1)]].
  destruct (minor v ?= minor w)%N eqn:E2;
    [apply N.compare_eq_iff in E2
    | split; [discriminate | intros (?&?&?&?); exfalso;
               by eapply (N_compare_neq _ _ _ E2)]
    | split; [discriminate | intros (?&?&?&?); exfalso;
               by eapply (N_compare_neq _ _ _ E2)]].
  destruct (patch v ?= patch w)%N eqn:E3;
    [apply N.compare_eq_iff in E3
    | split; [discriminate | intros (?&?&?&?); exfalso;
               by eapply (N_compare_neq _ _ _ E3)]
    | split; [discriminate | intros (?&?&?&?); exfalso;
               by eapply (N_compare_neq _ _ _ E3)]].
  destruct (nat_cmp (prerelease v) (prerelease w)) eqn:E4.
  - apply nat_cmp_eq in E4. tauto.
  - assert (prerelease v <> prerelease w)
      by (intros Heq; apply nat_cmp_eq in Heq; congruence).
    destruct (prerelease v), (prerelease w); split; try discriminate; tauto.
  - assert (prerelease v <> prerelease w)
      by (intros Heq; apply nat_cmp_eq in Heq; congruence).
    destruct (prerelease v), (prerelease w); split; try discriminate; tauto.
Qed.

Example compare_is_numeric : semver_compare "1.10.0" "1.9.0" = Ok 1.
Proof. reflexivity. Qed.

Example compare_prerelease_below_release :
  semver_compare "1.0.0-rc.1" "1.0.0" = Ok (-1).
Proof. reflexivity. Qed.

Example compare_rejects_short_version : semver_compare "1.2" "1.2.0" = Raise ValueError.
Proof. reflexivity. Qed.

(** ** The platform-version check *)

Lemma semver_compare_parsed (a b : string) (v w : VersionInfo) :
  parse_version a = Some v -> parse_version b = Some w ->
  semver_compare a b = Ok (cmp_of (version_compare v w)).
Proof. intros Ha Hb. unfold semver_compare. by rewrite Ha, Hb. Qed.

Lemma cmp_of_negative (c : comparison) : (cmp_of c <? 0) = true <-> c = Lt.
Proof. destruct c; simpl; split; intros; congruence || lia. Qed.

Lemma cmp_of_nonnegative (c : comparison) : (cmp_of c >=? 0) = true <-> c <> Lt.
Proof. destruct c; simpl; split; intros; congruence || lia. Qed.

Lemma version_le_compare (a b : string) (v w : VersionInfo) :
  parse_version a = Some v -> parse_version b = Some w ->
  version_le a b <-> version_compare w v <> Lt.
Proof.
  intros Ha Hb. unfold version_le. split.
  - intros (v' & w' & Hv & Hw & Hle).
    rewrite Ha in Hv. rewrite Hb in Hw. inversion Hv; inversion Hw; subst.
    rewrite version_compare_swap.
    destruct Hle as [Hlt | Heq].
    + apply version_compare_lt in Hlt. by rewrite Hlt.
    + apply version_compare_eq in Heq. by rewrite Heq.
  - intros Hc. exists v, w. do 2 (split; [assumption|]).
    rewrite version_compare_swap in Hc.
    destruct (version_compare v w) eqn:E.
    + right. by apply version_compare_eq.
    + left. by apply version_compare_lt.
    + simpl in Hc. congruence.
Qed.

Lemma version_lt_compare (a b : string) (v w : VersionInfo) :
  parse_version a = Some v -> parse_version b = Some w ->
  version_lt a b <-> version_compare v w = Lt.
Proof.
  intros Ha Hb. unfold version_lt. split.
  - intros (v' & w' & Hv & Hw & Hlt).
    rewrite Ha in Hv. rewrite Hb in Hw. inversion Hv; inversion Hw; subst.
    by apply version_compare_lt.
  - intros Hc. exists v, w. do 2 (split; [assumption|]).
    by apply version_compare_lt.
Qed.

Lemma parse_version_empty : parse_version EmptyString = None.
Proof. reflexivity. Qed.

Lemma nonempty_false (s : string) : nonempty s = false -> s = EmptyString.
Proof. by destruct s. Qed.

(** What [check_ayon_version] returns, by cases on the two comparisons. *)
Lemma check_ayon_version_cases (p : string) (d : AddonZipInfo) :
  is_Some (parse_version p) -> well_formed_bounds d ->
  (in_range p d /\ check_ayon_version p d = Ok d)
  \/ (~ in_range p d
      /\ check_ayon_version p d
         = Raise (UnsupportedAddonException (unsupported_version_message p))).
Proof.
  intros [vp Hp] [[vmin Hmin] Hmax].
  unfold check_ayon_version, in_range.
  rewrite (semver_compare_parsed _ _ _ _ Hp Hmin). simpl.
  pose proof (version_le_compare _ _ _ _ Hmin Hp) as Hle.
  destruct (cmp_of (version_compare vp vmin) <? 0) eqn:E1.
  { right. split; [|reflexivity].
    apply cmp_of_negative in E1. intros [H _]. by apply Hle in H. }
  assert (Hge : version_compare vp vmin <> Lt).
  { intros H. apply cmp_of_negative in H. congruence. }
  apply Hle in Hge.
  destruct (max_ayon_version d) as [upper|]; [|by left].
  destruct Hmax as [vmax Hmax].
  destruct (nonempty upper) eqn:Hne.
  2:{ apply nonempty_false in Hne. subst.
      rewrite parse_version_empty in Hmax. discriminate. }
  rewrite (semver_compare_parsed _ _ _ _ Hp Hmax). simpl.
  pose proof (version_lt_compare _ _ _ _ Hp Hmax) as Hlt.
  destruct (cmp_of (version_compare vp vmax) >=? 0) eqn:E2.
  - right. split; [|reflexivity].
    apply cmp_of_nonnegative in E2. intros [_ H]. by apply Hlt in H.
  - left. split; [|reflexivity]. split; [assumption|]. apply Hlt.
    destruct (version_compare vp vmax); simpl in E2; congruence || lia.
Qed.

Lemma version_le_refl (p : string) : is_Some (parse_version p) -> version_le p p.
Proof.
  intros [v Hv]. exists v, v. do 2 (split; [assumption|]).
  right. by unfold same_precedence.
Qed.

Lemma version_lt_irrefl (p : string) : ~ version_lt p p.
Proof.
  intros (v & w & Hv & Hw & Hlt). rewrite Hv in Hw. inversion Hw; subst.
  apply version_compare_lt in Hlt.
  rewrite (proj2 (version_compare_eq w w)) in Hlt; [discriminate|].
  by unfold same_precedence.
Qed.

(** C1.  For a platform version and a descriptor whose bounds are
    semantic versions, [check_ayon_version] returns the descriptor exactly
    when the minimum is at most the platform version and the maximum is
    absent or strictly above it; otherwise it raises
    [UnsupportedAddonException].  A platform version equal to the minimum
    is accepted (when the maximum allows it) and one equal to the maximum
    is rejected. *)
Theorem check_ayon_version_in_range (p : string) (d : AddonZipInfo) :
  is_Some (parse_version p) -> well_formed_bounds d ->
  (check_ayon_version p d = Ok d <-> in_range p d)
  /\ (~ in_range p d ->
      check_ayon_version p d
      = Raise (UnsupportedAddonException (unsupported_version_message p)))
  /\ (min_ayon_version d = p ->
      match max_ayon_version d with
      | None => True
      | Some upper => version_lt p upper
      end ->
      check_ayon_version p d = Ok d)
  /\ (max_ayon_version d = Some p ->
      is_unsupported (check_ayon_version p d) = true).
Proof.
  intros Hp Hd.
  destruct (check_ayon_version_cases p d Hp Hd) as [[Hin Hok] | [Hout Hbad]].
  - split; [by rewrite Hok|]. split; [tauto|]. split; [done|].
    intros Hmax. exfalso. destruct Hin as [_ Hin]. rewrite Hmax in Hin.
    by apply (version_lt_irrefl p).
  - split.
    { rewrite Hbad. split; [discriminate | tauto]. }
    split; [done|]. split.
    + intros Hmin Hup. exfalso. apply Hout. split; [|assumption].
      rewrite Hmin. by apply version_le_refl.
    + intros _. by rewrite Hbad.
Qed.

Lemma check_ayon_version_in_range_witness :
  let d := mkAddonZipInfo "tvpaint" "1.0.0" "1.0.0" (Some "1.2.0") false in
  is_Some (parse_version "1.1.0") /\ well_formed_bounds d
  /\ (check_ayon_version "1.1.0" d = Ok d <-> in_range "1.1.0" d).
Proof.
  assert (H1 : is_Some (parse_version "1.1.0")) by (eexists; reflexivity).
  assert (H2 : well_formed_bounds
                 (mkAddonZipInfo "tvpaint" "1.0.0" "1.0.0" (Some "1.2.0") false))
    by (split; eexists; reflexivity).
  split; [exact H1|]. split; [exact H2|].
  exact (proj1 (check_ayon_version_in_range "1.1.0" _ H1 H2)).
Defined.

(** ** Selection of the manifest *)

Lemma parse_loop_first (members : list ZipMember)
    (parsers : list (string * (string -> result AddonZipInfo)))
    (i : nat) (nm : string) (parser : string -> result AddonZipInfo) :
  parsers !! i = Some (nm, parser) ->
  nm ∈ namelist members ->
  (forall j e, (j < i)%nat -> parsers !! j = Some e -> e.1 ∉ namelist members) ->
  parse_loop members parsers = parsed_with members nm parser.
Proof.
  revert i. induction parsers as [|[nm0 p0] parsers IH]; intros i Hi Hin Hbefore.
  - by rewrite lookup_nil in Hi.
  - destruct i as [|i]; simpl in *.
    + inversion Hi; subst. by rewrite bool_decide_eq_true_2.
    + rewrite bool_decide_eq_false_2.
      * apply (IH i); [assumption | assumption |].
        intros j e Hj He. apply (Hbefore (S j) e); [lia | assumption].
      * apply (Hbefore O (nm0, p0)); [lia | reflexivity].
Qed.

Lemma parse_loop_none (members : list ZipMember)
    (parsers : list (string * (string -> result AddonZipInfo))) :
  (forall e, e ∈ parsers -> e.1 ∉ namelist members) ->
  parse_loop members parsers = ([], Ok None).
Proof.
  induction parsers as [|[nm0 p0] parsers IH]; intros Hnone; [reflexivity|].
  simpl. rewrite bool_decide_eq_false_2.
  - apply IH. intros e He. apply Hnone. by right.
  - apply (Hnone (nm0, p0)). by left.
Qed.

(** C2.  The candidates are tried in the order of [PARSERS]: JSON
    manifest, the two YAML names, then [package.py].  The loop opens
    exactly one entry, the first candidate of that order that is among
    the archive's names, and its result is that candidate's parser
    applied to that entry, whatever other candidates the archive holds.
    An archive with a JSON manifest is therefore parsed from it even when
    a YAML package file is present. *)
Theorem parse_loop_first_candidate (L : Libs) (members : list ZipMember)
    (i : nat) (nm : string) (parser : string -> result AddonZipInfo) :
  PARSERS L !! i = Some (nm, parser) ->
  nm ∈ namelist members ->
  (forall j e, (j < i)%nat -> PARSERS L !! j = Some e -> e.1 ∉ namelist members) ->
  (PARSERS L).*1 = ["manifest.json"; "package.yaml"; "package.yml"; "package.py"]
  /\ parse_loop members (PARSERS L) = parsed_with members nm parser
  /\ length (parse_loop members (PARSERS L)).1 = 1%nat
  /\ ("manifest.json" ∈ namelist members ->
      parse_loop members (PARSERS L)
      = parsed_with members "manifest.json" (get_addon_info_from_manifest L)).
Proof.
  intros Hi Hin Hbefore.
  pose proof (parse_loop_first members (PARSERS L) i nm parser Hi Hin Hbefore)
    as Hloop.
  split; [reflexivity|]. split; [exact Hloop|]. split; [by rewrite Hloop|].
  intros Hjson.
  apply (parse_loop_first members (PARSERS L) 0); [reflexivity | assumption |].
  intros j e Hj. lia.
Qed.

Lemma parse_loop_first_candidate_witness :
  PARSERS example_libs !! 0%nat
  = Some ("manifest.json", get_addon_info_from_manifest example_libs)
  /\ "manifest.json" ∈ namelist json_and_yaml
  /\ parse_loop json_and_yaml (PARSERS example_libs)
     = parsed_with json_and_yaml "manifest.json"
         (get_addon_info_from_manifest example_libs)
  /\ (parse_loop json_and_yaml (PARSERS example_libs)).2
     = Ok (Some (mkAddonZipInfo "from_json" "1.0.0" "1.0.0" (Some "1.2.0") false)).
Proof.
  assert (H1 : PARSERS example_libs !! 0%nat
               = Some ("manifest.json", get_addon_info_from_manifest example_libs))
    by reflexivity.
  assert (H2 : "manifest.json" ∈ namelist json_and_yaml)
    by (cbn; repeat constructor).
  assert (H3 : forall j e, (j < 0)%nat -> PARSERS example_libs !! j = Some e ->
                           e.1 ∉ namelist json_and_yaml)
    by (intros j e Hj; lia).
  split; [exact H1|]. split; [exact H2|]. split.
  - exact (proj1 (proj2 (parse_loop_first_candidate example_libs json_and_yaml
                           0 _ _ H1 H2 H3))).
  - vm_compute. reflexivity.
Defined.

(** An archive without any of the four entries is refused. *)
Lemma get_addon_zip_info_no_candidate (L : Libs) (ayon_version : string)
    (fs : FS) (p : list string) (members : list ZipMember) :
  open_zip L fs p = Ok members ->
  (forall e, e ∈ PARSERS L -> e.1 ∉ namelist members) ->
  get_addon_zip_info L ayon_version fs p
  = Raise (UnsupportedAddonException "Unsupported addon format").
Proof.
  intros Hopen Hnone. unfold get_addon_zip_info. rewrite Hopen.
  cbn [mbind result_bind]. by rewrite (parse_loop_none members (PARSERS L) Hnone).
Qed.

(** ** The JSON manifest reader *)

(** C3.  A JSON manifest that gives [name] and [version] but not
    [addon_name] is refused: the guard of [get_addon_info_from_manifest]
    reads [addon_name] and [addon_version], not the keys the descriptor
    is built from.  This holds in particular for the manifest with name
    tvpaint and version 1.0.0. *)
Theorem manifest_without_addon_keys_refused (L : Libs) (manifest_data : string)
    (entries : list (string * pyval)) :
  json_loads L manifest_data = Ok (PyDict entries) ->
  assoc_get entries "addon_name" = None ->
  get_addon_info_from_manifest L manifest_data
  = Raise (UnsupportedAddonException "Addon name or version not found in manifest").
Proof.
  intros Hload Hkey. unfold get_addon_info_from_manifest.
  rewrite Hload. simpl. by rewrite Hkey.
Qed.

Lemma manifest_without_addon_keys_refused_witness :
  json_loads example_libs tvpaint_manifest
  = Ok (PyDict [("name", PyStr "tvpaint"); ("version", PyStr "1.0.0")])
  /\ get_addon_info_from_manifest example_libs tvpaint_manifest
     = Raise (UnsupportedAddonException
                "Addon name or version not found in manifest").
Proof.
  assert (H1 : json_loads example_libs tvpaint_manifest
               = Ok (PyDict [("name", PyStr "tvpaint"); ("version", PyStr "1.0.0")]))
    by (vm_compute; reflexivity).
  split; [exact H1|].
  exact (manifest_without_addon_keys_refused example_libs tvpaint_manifest _ H1
           eq_refl).
Defined.

(** C9.  A JSON manifest whose [addon_name] and [addon_version] are set
    passes the guard whatever [name] and [version] hold; with both empty
    the reader returns a descriptor with an empty name and an empty
    version. *)
Theorem manifest_returns_empty_name (L : Libs) (manifest_data : string)
    (entries : list (string * pyval)) (a b : pyval) :
  json_loads L manifest_data = Ok (PyDict entries) ->
  assoc_get entries "addon_name" = Some a -> truthy a = true ->
  assoc_get entries "addon_version" = Some b -> truthy b = true ->
  assoc_get entries "name" = Some (PyStr EmptyString) ->
  assoc_get entries "version" = Some (PyStr EmptyString) ->
  get_addon_info_from_manifest L manifest_data
  = Ok (mkAddonZipInfo EmptyString EmptyString "1.0.0" (Some "1.2.0") false).
Proof.
  intros Hload Ha Hta Hb Htb Hn Hv. unfold get_addon_info_from_manifest.
  rewrite Hload. simpl. rewrite Ha. simpl. rewrite Hta, Hb. simpl.
  rewrite Htb. simpl. by rewrite Hn, Hv.
Qed.

Lemma manifest_returns_empty_name_witness :
  get_addon_info_from_manifest example_libs nameless_manifest
  = Ok (mkAddonZipInfo EmptyString EmptyString "1.0.0" (Some "1.2.0") false)
  /\ get_addon_zip_info example_libs "1.1.0"
       {[ ["addons"; "upload.zip"] := File nameless_archive 420 ]}
       ["addons"; "upload.zip"]
     = Ok (mkAddonZipInfo EmptyString EmptyString "1.0.0" (Some "1.2.0") false).
Proof.
  split.
  - apply (manifest_returns_empty_name example_libs nameless_manifest
             [("addon_name", PyStr "x"); ("addon_version", PyStr "1");
              ("name", PyStr EmptyString); ("version", PyStr EmptyString)]
             (PyStr "x") (PyStr "1"));
      vm_compute; reflexivity.
  - vm_compute. reflexivity.
Defined.

(** The two other readers test the values they return: a descriptor read
    from [package.py] or from a YAML package file has a non-empty name and
    a non-empty version. *)
Lemma string_of_Z_nonempty (z : Z) : string_of_Z z <> EmptyString.
Proof.
  unfold string_of_Z, NilZero.string_of_int.
  destruct (Z.to_int z) as [d|d]; [|discriminate].
  unfold NilZero.string_of_uint. destruct d; discriminate.
Qed.

Lemma str_validator_nonempty (v : pyval) (s : string) :
  truthy v = true -> str_validator v = Ok s -> s <> EmptyString.
Proof.
  destruct v as [|[]|z|t| |]; simpl; intros Ht Hs; inversion Hs; subst;
    try discriminate.
  - apply string_of_Z_nonempty.
  - by destruct s.
Qed.

Lemma package_yaml_nonempty (L : Libs) (manifest_data : string) (d : AddonZipInfo) :
  get_addon_info_from_package_yaml L manifest_data = Ok d ->
  name d <> EmptyString /\ version d <> EmptyString.
Proof.
  unfold get_addon_info_from_package_yaml.
  destruct (yaml_safe_load L manifest_data) as [doc|]; [|discriminate]. simpl.
  destruct (py_get doc "name") as [a|] eqn:Ha; [|discriminate]. simpl.
  destruct (truthy a) eqn:Hta; simpl; [|discriminate].
  destruct (py_get doc "version") as [b|] eqn:Hb; [|discriminate]. simpl.
  destruct (truthy b) eqn:Htb; simpl; [|discriminate].
  unfold make_zip_info.
  destruct (str_validator a) as [n|] eqn:Hn; [|discriminate].
  destruct (str_validator b) as [v|] eqn:Hv; [|discriminate].
  intros [= <-]. simpl. split; eauto using str_validator_nonempty.
Qed.

Lemma nonempty_true (s : string) : nonempty s = true -> s <> EmptyString.
Proof. by destruct s. Qed.

Lemma package_py_nonempty (manifest_data : string) (d : AddonZipInfo) :
  get_addon_info_from_package_py manifest_data = Ok d ->
  name d <> EmptyString /\ version d <> EmptyString.
Proof.
  unfold get_addon_info_from_package_py.
  destruct (re_search_assignment (chars "name") (chars manifest_data)) as [n|];
    [|discriminate].
  destruct (re_search_assignment (chars "version") (chars manifest_data)) as [v|];
    [|discriminate].
  simpl. destruct (nonempty (text n)) eqn:Hn; simpl; [|discriminate].
  destruct (nonempty (text v)) eqn:Hv; simpl; [|discriminate].
  intros [= <-]. simpl. split; by apply nonempty_true.
Qed.

(** ** Download into the scratch file *)

Lemma append_assoc (a b c : string) : (a +:+ b) +:+ c = a +:+ (b +:+ c).
Proof.
  induction a as [|x a IH]; [reflexivity|].
  change (String x ((a +:+ b) +:+ c) = String x (a +:+ (b +:+ c))).
  by rewrite IH.
Qed.

Lemma append_empty_r (a : string) : a +:+ EmptyString = a.
Proof.
  induction a as [|x a IH]; [reflexivity|].
  change (String x (a +:+ EmptyString) = String x a). by rewrite IH.
Qed.

Lemma pick_fresh_free (fs : FS) (dir : list string) (candidates : list string)
    (c : string) :
  pick_fresh fs dir candidates = Some c -> fs !! (dir ++ [c]) = None.
Proof.
  induction candidates as [|x xs IH]; simpl; [discriminate|].
  destruct (fs !! (dir ++ [x])) eqn:E; [exact IH|].
  intros [= <-]. exact E.
Qed.

Lemma download_loop_run (event_id : string) (zip_path : list string)
    (file_size : Z) (cs : list Chunk) :
  forall (i last_time : Z) (w : World) (bytes : string) (perm : Z),
    files w !! zip_path = Some (File bytes perm) ->
    exists evs,
      download_loop event_id zip_path file_size cs i last_time w
      = (Ok tt,
         mkWorld (<[zip_path := File (bytes +:+ concat_chunks cs) perm]> (files w))
                 (events w ++ evs))
      /\ Forall (progress_only event_id) evs.
Proof.
  induction cs as [|c cs IH]; intros i last_time w bytes perm Hfile.
  - exists []. simpl. unfold retM. rewrite append_empty_r, app_nil_r.
    rewrite insert_id by assumption. by destruct w.
  - simpl. unfold bindM at 1. unfold on_files, append_file. rewrite Hfile.
    set (w1 := mkWorld (<[zip_path:=File (bytes +:+ chunk_bytes c) perm]> (files w))
                       (events w)).
    assert (Hfile1 : files w1 !! zip_path
                     = Some (File (bytes +:+ chunk_bytes c) perm))
      by apply lookup_insert_eq.
    destruct (negb (file_size =? 0) && (chunk_clock c - last_time >? 1000)).
    + unfold bindM, update_event.
      match goal with
      | |- context [download_loop _ _ _ _ ?i' ?t' ?w'] =>
          destruct (IH i' t' w' _ _ Hfile1) as (evs & Hrun & Hevs)
      end.
      eexists (_ :: evs). rewrite Hrun. simpl.
      rewrite insert_insert_eq, append_assoc, <- app_assoc. simpl.
      split; [reflexivity|]. constructor; [by unfold progress_only | assumption].
    + match goal with
      | |- context [download_loop _ _ _ _ ?i' ?t' ?w'] =>
          destruct (IH i' t' w' _ _ Hfile1) as (evs & Hrun & Hevs)
      end.
      exists evs. rewrite Hrun. simpl.
      rewrite insert_insert_eq, append_assoc. by split.
Qed.

Lemma download_connected (event_id : string) (zip_path : list string)
    (r : Response) (w : World) (bytes : string) (perm : Z) :
  files w !! zip_path = Some (File bytes perm) ->
  exists evs,
    download event_id zip_path (Connected r) w
    = (match stream_error r with Some e => Raise e | None => Ok tt end,
       mkWorld (<[zip_path := File (concat_chunks (chunks r)) perm]> (files w))
               (events w ++ evs))
    /\ Forall (progress_only event_id) evs.
Proof.
  intros Hfile. unfold download, bindM at 1, on_files, write_file.
  rewrite Hfile.
  set (w1 := mkWorld (<[zip_path:=File EmptyString perm]> (files w)) (events w)).
  assert (Hfile1 : files w1 !! zip_path = Some (File EmptyString perm))
    by apply lookup_insert_eq.
  destruct (download_loop_run event_id zip_path (default 0 (content_length r))
              (chunks r) 0 0 w1 _ _ Hfile1) as (evs & Hrun & Hevs).
  exists evs. unfold bindM. rewrite Hrun. simpl. rewrite insert_insert_eq.
  split; [|assumption]. by destruct (stream_error r).
Qed.

(** The scratch file of [install_addon_from_url] and the state in which
    the archive is read, once the download went through. *)
Section FromUrl.
Context (L : Libs) (ayon_version : string) (addons_dir : list string).
Context (http_get : string -> Fetch) (file_names dir_names : list string).
Context (event_id url : string) (w : World) (c : string).
Hypothesis Hroot : files w !! addons_dir = Some Dir.
Hypothesis Hfresh : pick_fresh (files w) addons_dir file_names = Some c.

Let zip_path := addons_dir ++ [c].
Let run := install_addon_from_url L ayon_version addons_dir http_get
             file_names dir_names event_id url w.

Lemma scratch_path_free : files w !! zip_path = None.
Proof. by apply pick_fresh_free with file_names. Qed.

Lemma install_connect_failed (e : exn) :
  http_get url = ConnectFailed e ->
  run = (Raise e,
         mkWorld (files w) (events w ++ [downloading_event event_id url])).
Proof.
  intros Hget. unfold run, install_addon_from_url.
  cbv [bindM update_event with_named_temporary_file on_files mkstemp].
  cbn [files events]. rewrite Hroot, Hfresh, Hget.
  cbv [download raiseM]. cbn [files events]. fold zip_path.
  unfold unlink. rewrite lookup_insert_eq.
  rewrite delete_insert_id by apply scratch_path_free. reflexivity.
Qed.

Lemma install_after_download (r : Response) :
  http_get url = Connected r ->
  exists evs,
    Forall (progress_only event_id) evs
    /\ let fs1 := <[zip_path := File (concat_chunks (chunks r)) private_perm]> (files w) in
       let evs1 := events w ++ downloading_event event_id url :: evs in
       match stream_error r with
       | Some e => run = (Raise e, mkWorld (files w) evs1)
       | None =>
           match get_addon_zip_info L ayon_version fs1 zip_path with
           | Raise e => run = (Raise e, mkWorld (files w) evs1)
           | Ok zip_info =>
               let installing :=
                 mkEvent event_id
                   (Some ("Installing addon " +:+ name zip_info +:+ " "
                          +:+ version zip_info))
                   (Some "in_progress") (Some (zip_info, url)) (Some 50) true in
               let '(res, fs2) :=
                 unpack_addon_sync L addons_dir zip_path zip_info dir_names fs1 in
               let '(res3, fs3) := unlink zip_path fs2 in
               match res, res3 with
               | Ok _, Ok _ =>
                   run = (Ok tt,
                          mkWorld fs3
                            (evs1 ++ [installing;
                               mkEvent event_id
                                 (Some ("Addon " +:+ name zip_info +:+ " "
                                        +:+ version zip_info +:+ " installed"))
                                 (Some "finished") None None true]))
               | Raise e, Ok _ => run = (Raise e, mkWorld fs3 (evs1 ++ [installing]))
               | _, Raise e => run = (Raise e, mkWorld fs3 (evs1 ++ [installing]))
               end
           end
       end.
Proof.
  intros Hget.
  set (w0 := mkWorld (<[zip_path := File EmptyString private_perm]> (files w))
                     (events w ++ [downloading_event event_id url])).
  assert (Hfile0 : files w0 !! zip_path = Some (File EmptyString private_perm))
    by apply lookup_insert_eq.
  destruct (download_connected event_id zip_path r w0 _ _ Hfile0)
    as (evs & Hdl & Hevs).
  exists evs. split; [assumption|].
  assert (Hback : forall n, delete zip_path (<[zip_path := n]> (files w)) = files w)
    by (intros n; apply delete_insert_id, scratch_path_free).
  unfold run, install_addon_from_url.
  cbv [bindM update_event getM liftR retM with_named_temporary_file on_files mkstemp].
  cbn [files events]. rewrite Hroot, Hfresh, Hget.
  fold zip_path. fold (downloading_event event_id url). fold w0.
  rewrite Hdl. cbn [files events].
  replace (<[zip_path:=File (concat_chunks (chunks r)) private_perm]> (files w0))
    with (<[zip_path:=File (concat_chunks (chunks r)) private_perm]> (files w))
    by (unfold w0; cbn [files]; by rewrite insert_insert_eq).
  replace (events w0 ++ evs)
    with (events w ++ downloading_event event_id url :: evs)
    by (unfold w0; cbn [events]; by rewrite <- app_assoc).
  destruct (stream_error r) as [e|].
  { cbn [files events]. unfold unlink. rewrite lookup_insert_eq, Hback.
    reflexivity. }
  destruct (get_addon_zip_info L ayon_version _ zip_path) as [zip_info|e].
  2:{ cbn [files events]. unfold unlink. rewrite lookup_insert_eq, Hback.
      reflexivity. }
  destruct (unpack_addon_sync L addons_dir zip_path zip_info dir_names _)
    as [res fs2].
  cbn [files events].
  destruct res as [[]|e]; cbn [files events];
    destruct (unlink zip_path fs2) as [res3 fs3];
    destruct res3 as [[]|e3]; cbn [files events]; try reflexivity.
  by rewrite <- app_assoc.
Qed.

End FromUrl.

(** ** Errors in [install_addon_from_url] *)

Lemma progress_only_not_failed (event_id : string) (evs : list Event) :
  Forall (progress_only event_id) evs -> Forall not_failed evs.
Proof.
  intros H. eapply Forall_impl; [exact H|].
  intros e (_ & Hs & _). unfold not_failed. by rewrite Hs.
Qed.

(** C5.  An error of [get_addon_zip_info] (no manifest, a manifest that
    cannot be read, an unsupported platform version) leaves
    [install_addon_from_url] as a raised exception: the call returns the
    exception and no event with status failed is recorded. *)
Theorem install_from_url_error_escapes (L : Libs) (ayon_version : string)
    (addons_dir : list string) (http_get : string -> Fetch)
    (file_names dir_names : list string) (event_id url : string) (w : World)
    (c : string) (r : Response) (e : exn) :
  files w !! addons_dir = Some Dir ->
  pick_fresh (files w) addons_dir file_names = Some c ->
  http_get url = Connected r ->
  stream_error r = None ->
  get_addon_zip_info L ayon_version
    (<[addons_dir ++ [c] := File (concat_chunks (chunks r)) private_perm]> (files w))
    (addons_dir ++ [c]) = Raise e ->
  let run := install_addon_from_url L ayon_version addons_dir http_get
               file_names dir_names event_id url w in
  run.1 = Raise e
  /\ exists evs, events run.2 = events w ++ evs /\ Forall not_failed evs.
Proof.
  intros Hroot Hfresh Hget Hstream Hinfo run.
  destruct (install_after_download L ayon_version addons_dir http_get file_names
              dir_names event_id url w c Hroot Hfresh r Hget)
    as (evs & Hevs & Hrun).
  cbv zeta in Hrun. rewrite Hstream, Hinfo in Hrun.
  subst run. rewrite Hrun. split; [reflexivity|].
  eexists. split; [reflexivity|]. constructor.
  - unfold not_failed, downloading_event. simpl. discriminate.
  - by eapply progress_only_not_failed.
Qed.

Lemma install_from_url_error_escapes_witness :
  let run := install_addon_from_url example_libs "1.1.0" example_root
               (serve 200 plain_archive) ["tmpzip"] ["tmpdir"]
               "job" "http://host/a.zip" example_world in
  run.1 = Raise (UnsupportedAddonException "Unsupported addon format")
  /\ exists evs, events run.2 = events example_world ++ evs
                 /\ Forall not_failed evs.
Proof.
  apply (install_from_url_error_escapes example_libs "1.1.0" example_root
           (serve 200 plain_archive) ["tmpzip"] ["tmpdir"] "job"
           "http://host/a.zip" example_world "tmpzip"
           (mkResponse 200 None [mkChunk plain_archive 0] None));
    vm_compute; reflexivity.
Defined.

(** C8.  When the archive is read but the version check refuses its
    descriptor, [install_addon_from_url] raises and leaves the file system
    as it found it: nothing is created below the install root. *)
Theorem rejected_install_leaves_files (L : Libs) (ayon_version : string)
    (addons_dir : list string) (http_get : string -> Fetch)
    (file_names dir_names : list string) (event_id url : string) (w : World)
    (c : string) (r : Response) (members : list ZipMember) (d : AddonZipInfo)
    (e : exn) :
  files w !! addons_dir = Some Dir ->
  pick_fresh (files w) addons_dir file_names = Some c ->
  http_get url = Connected r ->
  stream_error r = None ->
  zip_read L (concat_chunks (chunks r)) = Ok members ->
  (parse_loop members (PARSERS L)).2 = Ok (Some d) ->
  check_ayon_version ayon_version d = Raise e ->
  let run := install_addon_from_url L ayon_version addons_dir http_get
               file_names dir_names event_id url w in
  run.1 = Raise e /\ files run.2 = files w.
Proof.
  intros Hroot Hfresh Hget Hstream Hzip Hparse Hcheck run.
  destruct (install_after_download L ayon_version addons_dir http_get file_names
              dir_names event_id url w c Hroot Hfresh r Hget)
    as (evs & Hevs & Hrun).
  cbv zeta in Hrun. rewrite Hstream in Hrun.
  assert (Hinfo : get_addon_zip_info L ayon_version
            (<[addons_dir ++ [c] := File (concat_chunks (chunks r)) private_perm]>
               (files w)) (addons_dir ++ [c]) = Raise e).
  { unfold get_addon_zip_info, open_zip. rewrite lookup_insert_eq, Hzip.
    cbn [mbind result_bind]. rewrite Hparse. exact Hcheck. }
  rewrite Hinfo in Hrun. subst run. by rewrite Hrun.
Qed.

Lemma rejected_install_leaves_files_witness :
  let run := install_addon_from_url example_libs "1.3.0" example_root
               (serve 200 tvpaint_archive) ["tmpzip"] ["tmpdir"]
               "job" "http://host/a.zip" example_world in
  run.1 = Raise (UnsupportedAddonException
                   "Ayon version 1.3.0 is not supported by this addon")
  /\ files run.2 = files example_world.
Proof.
  apply (rejected_install_leaves_files example_libs "1.3.0" example_root
           (serve 200 tvpaint_archive) ["tmpzip"] ["tmpdir"] "job"
           "http://host/a.zip" example_world "tmpzip"
           (mkResponse 200 None [mkChunk tvpaint_archive 0] None)
           tvpaint_members tvpaint_info
           (UnsupportedAddonException
              "Ayon version 1.3.0 is not supported by this addon"));
    vm_compute; reflexivity.
Defined.

(** ** Failed fetches *)

(** C7 as stated fails: a response with status 404 is stored and read like
    any other; when its body is an archive the addon is installed and the
    job ends as finished. *)
Lemma not_found_response_is_installed :
  let run := install_addon_from_url example_libs "1.1.0" example_root
               (serve 404 tvpaint_archive) ["tmpzip"] ["tmpdir"]
               "job" "http://host/a.zip" example_world in
  run.1 = Ok tt
  /\ files run.2 !! ["addons"; "tvpaint"; "1.0.0"; "a.py"]
     = Some (File "x=1" 33188)
  /\ ev_status <$> last (events run.2) = Some (Some "finished").
Proof. vm_compute. repeat split; reflexivity. Qed.

(** C7, amended.  When the connection fails or the stream breaks,
    [install_addon_from_url] raises that error; the archive is not read
    (the only events are the first one and progress reports), the file
    system is as before, and so no scratch file is left. *)
Theorem failed_fetch_raises (L : Libs) (ayon_version : string)
    (addons_dir : list string) (http_get : string -> Fetch)
    (file_names dir_names : list string) (event_id url : string) (w : World)
    (c : string) (e : exn) :
  files w !! addons_dir = Some Dir ->
  pick_fresh (files w) addons_dir file_names = Some c ->
  (http_get url = ConnectFailed e
   \/ exists r, http_get url = Connected r /\ stream_error r = Some e) ->
  let run := install_addon_from_url L ayon_version addons_dir http_get
               file_names dir_names event_id url w in
  run.1 = Raise e
  /\ files run.2 = files w
  /\ files run.2 !! (addons_dir ++ [c]) = None
  /\ exists evs, events run.2 = events w ++ downloading_event event_id url :: evs
                 /\ Forall (progress_only event_id) evs.
Proof.
  intros Hroot Hfresh Hfail run.
  pose proof (scratch_path_free addons_dir file_names w c Hfresh) as Hfree.
  destruct Hfail as [Hget | (r & Hget & Hstream)].
  - subst run.
    rewrite (install_connect_failed L ayon_version addons_dir http_get file_names
               dir_names event_id url w c Hroot Hfresh e Hget).
    cbn [fst snd files events]. repeat split; try assumption.
    exists []. by split.
  - destruct (install_after_download L ayon_version addons_dir http_get
                file_names dir_names event_id url w c Hroot Hfresh r Hget)
      as (evs & Hevs & Hrun).
    cbv zeta in Hrun. rewrite Hstream in Hrun. subst run. rewrite Hrun.
    cbn [fst snd files events]. repeat split; try assumption.
    exists evs. by split.
Qed.

Lemma failed_fetch_raises_witness :
  let run := install_addon_from_url example_libs "1.1.0" example_root
               (breaking "PK") ["tmpzip"] ["tmpdir"]
               "job" "http://host/a.zip" example_world in
  run.1 = Raise (TransportError "connection reset")
  /\ files run.2 = files example_world
  /\ files run.2 !! (example_root ++ ["tmpzip"]) = None
  /\ exists evs,
       events run.2
       = events example_world ++ downloading_event "job" "http://host/a.zip" :: evs
       /\ Forall (progress_only "job") evs.
Proof.
  apply (failed_fetch_raises example_libs "1.1.0" example_root
           (breaking "PK") ["tmpzip"] ["tmpdir"] "job" "http://host/a.zip"
           example_world "tmpzip" (TransportError "connection reset")).
  - vm_compute; reflexivity.
  - vm_compute; reflexivity.
  - right. eexists. split; reflexivity.
Defined.

(** ** Events of [unpack_addon] *)

(** C6.  When [unpack_addon_sync] raises, [unpack_addon] records an event
    with status failed and continues: the next and last event of the same
    job has status finished. *)
Theorem unpack_addon_finished_after_failed (L : Libs) (addons_dir : list string)
    (event_id : string) (zip_path : list string) (zip_info : AddonZipInfo)
    (dir_names : list string) (w : World) (e : exn) (fs' : FS) :
  unpack_addon_sync L addons_dir zip_path zip_info dir_names (files w)
  = (Raise e, fs') ->
  let run := unpack_addon L addons_dir event_id zip_path zip_info dir_names w in
  run.1 = Ok tt
  /\ exists e1 e2 e3,
       events run.2 = events w ++ [e1; e2; e3]
       /\ ev_id e1 = event_id /\ ev_id e2 = event_id /\ ev_id e3 = event_id
       /\ ev_status e1 = Some "in_progress"
       /\ ev_status e2 = Some "failed"
       /\ ev_status e3 = Some "finished".
Proof.
  intros Hsync run. subst run. unfold unpack_addon.
  cbv [bindM update_event try_except on_files retM]. cbn [files events].
  rewrite Hsync. cbn [files events].
  destruct (unlink zip_path fs') as [[[]|e'] fs'']; cbn [fst snd files events];
    (split; [reflexivity|]); do 3 eexists;
    (split; [by rewrite <- !app_assoc|]); repeat split.
Qed.

Lemma unpack_addon_finished_after_failed_witness :
  let run := unpack_addon example_libs example_root "job" ["uploads"; "a.zip"]
               tvpaint_info ["tmpdir"] (uploaded_world hollow_archive) in
  (unpack_addon_sync example_libs example_root ["uploads"; "a.zip"] tvpaint_info
     ["tmpdir"] (files (uploaded_world hollow_archive))).1
  = Raise FileNotFoundError
  /\ run.1 = Ok tt
  /\ ev_status <$> events run.2
     = [Some "in_progress"; Some "failed"; Some "finished"].
Proof.
  split; [vm_compute; reflexivity|].
  destruct (unpack_addon_sync example_libs example_root ["uploads"; "a.zip"]
              tvpaint_info ["tmpdir"] (files (uploaded_world hollow_archive)))
    as [res fs'] eqn:Hsync.
  assert (Hres : res = Raise FileNotFoundError).
  { change res with (res, fs').1. rewrite <- Hsync. vm_compute. reflexivity. }
  subst res.
  destruct (unpack_addon_finished_after_failed example_libs example_root "job"
              ["uploads"; "a.zip"] tvpaint_info ["tmpdir"]
              (uploaded_world hollow_archive) FileNotFoundError fs' Hsync)
    as (Hok & e1 & e2 & e3 & Hev & _ & _ & _ & H1 & H2 & H3).
  split; [exact Hok|]. cbv zeta. rewrite Hev. cbn. by rewrite H1, H2, H3.
Defined.

(** ** Frame properties of the file-system operations *)

Lemma preserves_ret {A} (P : list string -> Prop) (a : A) : preserves P (retM a).
Proof. by intros fs q n _ H. Qed.

Lemma preserves_get (P : list string -> Prop) : preserves P getM.
Proof. by intros fs q n _ H. Qed.

Lemma preserves_liftR {A} (P : list string -> Prop) (r : result A) :
  preserves P (liftR r).
Proof. by intros fs q n _ H. Qed.

Lemma preserves_bind {A B : Type} (P : list string -> Prop) (m : M FS A)
    (k : A -> M FS B) :
  preserves P m -> (forall a, preserves P (k a)) -> preserves P (bindM m k).
Proof.
  intros Hm Hk fs q n HP Hq. unfold bindM.
  specialize (Hm fs q n HP Hq).
  destruct (m fs) as [[a|e] fs1]; cbn [fst snd] in *; [by apply Hk | done].
Qed.

Lemma preserves_weaken {A} (P Q : list string -> Prop) (m : M FS A) :
  (forall q, Q q -> P q) -> preserves P m -> preserves Q m.
Proof. intros HQP Hm fs q n HQ. apply Hm. by apply HQP. Qed.

Lemma preserves_forM {A} (P : list string -> Prop) (xs : list A)
    (body : A -> M FS unit) :
  (forall x, x ∈ xs -> preserves P (body x)) -> preserves P (forM xs body).
Proof.
  induction xs as [|x xs IH]; intros Hbody; simpl.
  - apply preserves_ret.
  - apply preserves_bind.
    + apply Hbody. by left.
    + intros _. apply IH. intros y Hy. apply Hbody. by right.
Qed.

Lemma preserves_if {A} (P : list string -> Prop) (b : bool) (m1 m2 : M FS A) :
  preserves P m1 -> preserves P m2 -> preserves P (if b then m1 else m2).
Proof. by destruct b. Qed.

Lemma lookup_prune (p : list string) (fs : FS) (q : list string) :
  prune p fs !! q = if decide (p `prefix_of` q) then None else fs !! q.
Proof.
  unfold prune. destruct (decide (p `prefix_of` q)) as [Hp|Hp].
  - apply map_lookup_filter_None. right. intros n _ Hn. by apply Hn.
  - destruct (fs !! q) as [n|] eqn:Hq.
    + by apply map_lookup_filter_Some.
    + apply map_lookup_filter_None. by left.
Qed.

Lemma lookup_prune_outside (p : list string) (fs : FS) (q : list string) :
  outside p q -> prune p fs !! q = fs !! q.
Proof. intros H. rewrite lookup_prune. by destruct (decide (p `prefix_of` q)). Qed.

Lemma lookup_prune_below (p : list string) (fs : FS) (q : list string) :
  p `prefix_of` q -> prune p fs !! q = None.
Proof. intros H. rewrite lookup_prune. by destruct (decide (p `prefix_of` q)). Qed.

Lemma makedirs_from_preserves (rest pre : list string) :
  preserves (fun _ => True) (makedirs_from pre rest).
Proof.
  revert pre. induction rest as [|c rest IH]; intros pre fs q n _ Hq; simpl.
  - exact Hq.
  - destruct (fs !! (pre ++ [c])) as [[b perm|]|] eqn:Hp.
    + exact Hq.
    + by apply IH.
    + apply IH; [done|]. rewrite lookup_insert_ne; [done|]. congruence.
Qed.

Lemma makedirs_preserves (p : list string) : preserves (fun _ => True) (makedirs p).
Proof. apply makedirs_from_preserves. Qed.

Lemma mkdir_preserves (p : list string) : preserves (fun _ => True) (mkdir p).
Proof.
  intros fs q n _ Hq. unfold mkdir.
  destruct (fs !! p) eqn:Hp; [exact Hq|].
  destruct (parent_error fs p); [exact Hq|]. cbn [snd].
  rewrite lookup_insert_ne; [done|]. congruence.
Qed.

Lemma write_file_preserves (p : list string) (bytes : string) (perm : Z) :
  preserves (fun q => q <> p) (write_file p bytes perm).
Proof.
  intros fs q n Hne Hq. unfold write_file.
  destruct (fs !! p) as [[b m|]|] eqn:Hp; cbn [snd];
    [by rewrite lookup_insert_ne | exact Hq |].
  destruct (parent_error fs p); cbn [snd]; [exact Hq|].
  by rewrite lookup_insert_ne.
Qed.

Lemma chmod_preserves (p : list string) (mode : Z) :
  preserves (fun q => q <> p) (chmod p mode).
Proof.
  intros fs q n Hne Hq. unfold chmod.
  destruct (fs !! p) as [[b m|]|] eqn:Hp; cbn [snd];
    [by rewrite lookup_insert_ne | exact Hq | exact Hq].
Qed.

Lemma rmtree_preserves (p : list string) : preserves (outside p) (rmtree p).
Proof.
  intros fs q n Hout Hq. unfold rmtree.
  destruct (fs !! p) as [[b m|]|] eqn:Hp; cbn [snd];
    [exact Hq | by rewrite lookup_prune_outside | exact Hq].
Qed.

Lemma outside_neq (p q : list string) : outside p q -> q <> p.
Proof. intros H ->. by apply H. Qed.

Lemma outside_app (p k q : list string) : outside p q -> outside (p ++ k) q.
Proof.
  intros H Hpre. apply H. etrans; [|exact Hpre]. by apply prefix_app_r.
Qed.

Lemma lookup_graft_outside (dst : list string) (t : FS) (q : list string) :
  outside dst q -> graft dst t !! q = None.
Proof.
  intros Hout. unfold graft. apply lookup_kmap_None; [apply _|].
  intros i ->. exfalso. apply Hout. by apply prefix_app_r.
Qed.

Lemma move_preserves (src dst : list string) :
  preserves (fun q => outside src q /\ outside dst q) (move src dst).
Proof.
  intros fs q n [Hsrc Hdst] Hq. unfold move.
  set (real_dst := if isdir fs dst then dst ++ [basename src] else dst).
  assert (Hreal : outside real_dst q).
  { unfold real_dst. destruct (isdir fs dst); [by apply outside_app | done]. }
  destruct (isdir fs dst && bool_decide (src = dst)); [exact Hq|].
  destruct (isdir fs dst && exists_path fs real_dst); [exact Hq|].
  destruct (fs !! src) as [[bytes perm|]|] eqn:Hs; [| |exact Hq].
  - destruct (parent_error fs real_dst); [exact Hq|].
    destruct (fs !! real_dst) as [[b m|]|]; cbn [snd]; try exact Hq;
      (rewrite lookup_insert_ne by (intros ->; by apply Hreal));
      by rewrite lookup_delete_ne by (intros ->; by apply Hsrc).
  - destruct (bool_decide (src `prefix_of` real_dst)); [exact Hq|].
    destruct (fs !! real_dst); [exact Hq|].
    pose proof (makedirs_preserves (dirname real_dst) fs q n I Hq) as Hmk.
    destruct (makedirs (dirname real_dst) fs) as [[[]|e] fs1]; cbn [snd] in *;
      [|exact Hmk].
    rewrite lookup_union_r by by apply lookup_graft_outside.
    by rewrite lookup_prune_outside.
Qed.

Lemma preserves_bind_val {A B : Type} (P : list string -> Prop) (R : A -> Prop)
    (m : M FS A) (k : A -> M FS B) :
  preserves P m ->
  (forall fs a fs', m fs = (Ok a, fs') -> R a) ->
  (forall a, R a -> preserves P (k a)) ->
  preserves P (bindM m k).
Proof.
  intros Hm HR Hk fs q n HP Hq. unfold bindM.
  specialize (Hm fs q n HP Hq). specialize (HR fs).
  destruct (m fs) as [[a|e] fs1]; cbn [fst snd] in *; [|done].
  apply Hk; [by eapply HR | done | done].
Qed.

Lemma extract_returns (m : ZipMember) (dest : list string) (fs fs' : FS)
    (a : list string) :
  extract m dest fs = (Ok a, fs') -> a = dest ++ arcname (filename m).
Proof.
  unfold extract. cbv [bindM getM retM].
  destruct (exists_path fs (dirname (dest ++ arcname (filename m)))).
  - destruct (member_is_dir m).
    + destruct (isdir fs _); [by intros [= <- _]|].
      destruct (mkdir _ fs) as [[[]|e] fs1]; [by intros [= <- _] | discriminate].
    + destruct (write_file _ _ _ fs) as [[[]|e] fs1];
        [by intros [= <- _] | discriminate].
  - destruct (makedirs _ fs) as [[[]|e] fs1]; [|discriminate].
    destruct (member_is_dir m).
    + destruct (isdir fs1 _); [by intros [= <- _]|].
      destruct (mkdir _ fs1) as [[[]|e] fs2]; [by intros [= <- _] | discriminate].
    + destruct (write_file _ _ _ fs1) as [[[]|e] fs2];
        [by intros [= <- _] | discriminate].
Qed.

Lemma outside_app_neq (p k q : list string) : outside p q -> q <> p ++ k.
Proof. intros H ->. apply H. by apply prefix_app_r. Qed.

Lemma extract_preserves (m : ZipMember) (dest : list string) :
  preserves (outside dest) (extract m dest).
Proof.
  unfold extract.
  apply preserves_bind; [apply preserves_get|]. intros fs.
  apply preserves_bind.
  { apply preserves_if; [apply preserves_ret|].
    eapply preserves_weaken; [|apply makedirs_preserves]. done. }
  intros _. apply preserves_if.
  - apply preserves_bind; [apply preserves_get|]. intros fs'.
    apply preserves_bind; [|intros; apply preserves_ret].
    apply preserves_if; [apply preserves_ret|].
    eapply preserves_weaken; [|apply mkdir_preserves]. done.
  - apply preserves_bind; [|intros; apply preserves_ret].
    eapply preserves_weaken; [|apply write_file_preserves].
    intros q Hq. by apply outside_app_neq.
Qed.

Lemma extract_member_preserves (dest : list string) (m : ZipMember) :
  preserves (outside dest) (extract_member dest m).
Proof.
  unfold extract_member.
  eapply (preserves_bind_val _ (fun a => a = dest ++ arcname (filename m))).
  - apply extract_preserves.
  - intros fs a fs'. apply extract_returns.
  - intros a ->. apply preserves_if; [apply preserves_ret|].
    eapply preserves_weaken; [|apply chmod_preserves].
    intros q Hq. by apply outside_app_neq.
Qed.

Lemma elem_of_walk_files (top : list string) (fs : FS) (p : list string) :
  p ∈ walk_files top fs <->
  top `prefix_of` p /\ exists bytes perm, fs !! p = Some (File bytes perm).
Proof.
  unfold walk_files. rewrite list_elem_of_omap. split.
  - intros ([k n] & Hin & Hsome). apply elem_of_map_to_list in Hin.
    cbn [fst snd] in Hsome. destruct n as [bytes perm|]; [|discriminate].
    case_bool_decide; [|discriminate]. inversion Hsome; subst. eauto.
  - intros (Hpre & bytes & perm & Hp). exists (p, File bytes perm).
    split; [by apply elem_of_map_to_list|]. cbn [fst snd].
    by rewrite bool_decide_eq_true_2.
Qed.

Lemma outside_trans (p p' q : list string) :
  p `prefix_of` p' -> outside p q -> outside p' q.
Proof. intros Hpp Hout Hpre. apply Hout. by etrans. Qed.

Lemma rehome_preserves (tmpdirname target_dir source_file : list string) :
  preserves (fun q => outside source_file q /\ outside target_dir q)
            (rehome tmpdirname target_dir source_file).
Proof.
  unfold rehome. apply preserves_bind.
  - eapply preserves_weaken; [|apply makedirs_preserves]. done.
  - intros _. eapply preserves_weaken; [|apply move_preserves].
    intros q [Hs Ht]. split; [done | by apply outside_app].
Qed.

(** [unpack_addon_sync] leaves alone every node that is neither below
    the target directory nor below a name that was free in the install
    root. *)
Lemma unpack_addon_sync_preserves (L : Libs) (addons_dir zip_path : list string)
    (zip_info : AddonZipInfo) (dir_names : list string) (fs : FS)
    (q : list string) (n : node) :
  fs !! q = Some n ->
  outside (target_path addons_dir zip_info) q ->
  (forall c, fs !! (addons_dir ++ [c]) = None -> outside (addons_dir ++ [c]) q) ->
  (unpack_addon_sync L addons_dir zip_path zip_info dir_names fs).2 !! q = Some n.
Proof.
  intros Hq Htarget Hfree. unfold unpack_addon_sync, bindM at 1.
  pose proof (makedirs_preserves addons_dir fs q n I Hq) as Hq1.
  assert (Hfree1 : forall c, (makedirs addons_dir fs).2 !! (addons_dir ++ [c]) = None ->
                             outside (addons_dir ++ [c]) q).
  { intros c Hc. apply Hfree.
    destruct (fs !! (addons_dir ++ [c])) as [n'|] eqn:E; [|done].
    by rewrite (makedirs_preserves addons_dir fs _ n' I E) in Hc. }
  destruct (makedirs addons_dir fs) as [[[]|e] fs1]; cbn [fst snd] in *; [|done].
  unfold with_temporary_directory, mkdtemp.
  destruct (fs1 !! addons_dir) as [[b perm|]|]; cbn [snd]; try done.
  destruct (pick_fresh fs1 addons_dir dir_names) as [c|] eqn:Hpick;
    cbn [snd]; [|done].
  apply pick_fresh_free in Hpick.
  pose proof (Hfree1 c Hpick) as Htmp.
  set (tmpdirname := addons_dir ++ [c]) in *.
  match goal with
  | |- (let '(_, _) := ?body ?fs0 in _).2 !! _ = _ =>
      assert (Hbody : (body fs0).2 !! q = Some n)
  end.
  2:{ match goal with
      | |- (let '(_, _) := ?body ?fs0 in _).2 !! _ = _ =>
          destruct (body fs0) as [r fs2]
      end.
      cbn [snd] in *. by rewrite lookup_prune_outside. }
  assert (Hpres : preserves
            (fun q => outside tmpdirname q /\
                      outside (target_path addons_dir zip_info) q)
            (fun fs0 =>
               (fs0' <~ getM ;;
                members <~ liftR (open_zip L fs0' zip_path) ;;
                forM members (extract_member tmpdirname) ;;;
                fs1' <~ getM ;;
                (if isdir fs1' (target_path addons_dir zip_info)
                 then rmtree (target_path addons_dir zip_info) else retM tt) ;;;
                if is_rez zip_info
                then
                  fs2 <~ getM ;;
                  forM (walk_files tmpdirname fs2)
                       (rehome tmpdirname (target_path addons_dir zip_info)) ;;;
                  rmtree tmpdirname
                else
                  move (tmpdirname ++ ["addon"])
                       (target_path addons_dir zip_info)) fs0)).
  { apply preserves_bind; [apply preserves_get|]. intros fs0.
    apply preserves_bind; [apply preserves_liftR|]. intros members.
    apply preserves_bind.
    { apply preserves_forM. intros m _.
      eapply preserves_weaken; [|apply extract_member_preserves]. by intros ? []. }
    intros _. apply preserves_bind; [apply preserves_get|]. intros fs1'.
    apply preserves_bind.
    { apply preserves_if; [|apply preserves_ret].
      eapply preserves_weaken; [|apply rmtree_preserves]. by intros ? []. }
    intros _. apply preserves_if.
    - apply preserves_bind; [apply preserves_get|]. intros fs2.
      apply preserves_bind.
      + apply preserves_forM. intros src Hsrc.
        apply elem_of_walk_files in Hsrc as [Hpre _].
        eapply preserves_weaken; [|apply rehome_preserves].
        intros q' [H1 H2]. split; [by eapply outside_trans | done].
      + intros _. eapply preserves_weaken; [|apply rmtree_preserves].
        by intros ? [].
    - eapply preserves_weaken; [|apply move_preserves].
      intros q' [H1 H2]. split; [by apply outside_app | done]. }
  apply Hpres; [by split|].
  rewrite lookup_insert_ne; [done|]. intros Heq. apply Htmp. by rewrite Heq.
Qed.

(** ** The scratch file of a download *)

Lemma prefix_snoc_same_length (p : list string) (c c' : string) (k : list string) :
  (p ++ [c']) ++ k = p ++ [c] -> c' = c /\ k = [].
Proof.
  rewrite <- app_assoc. intros H. apply app_inv_head in H.
  simpl in H. inversion H; subst. done.
Qed.

Lemma install_without_scratch (L : Libs) (ayon_version : string)
    (addons_dir : list string) (http_get : string -> Fetch)
    (file_names dir_names : list string) (event_id url : string) (w : World) :
  (files w !! addons_dir <> Some Dir
   \/ pick_fresh (files w) addons_dir file_names = None) ->
  files (install_addon_from_url L ayon_version addons_dir http_get file_names
           dir_names event_id url w).2 = files w.
Proof.
  intros Hno. unfold install_addon_from_url.
  cbv [bindM update_event with_named_temporary_file on_files mkstemp].
  cbn [files events].
  destruct (files w !! addons_dir) as [[b perm|]|]; try reflexivity.
  destruct Hno as [Hno|Hno]; [done|]. by rewrite Hno.
Qed.

(** C10.  The scratch file that [install_addon_from_url] creates in the
    install root is gone when the call is over, whether it returned or
    raised and at whichever step; when no scratch file could be created
    the file system is as before. *)
Theorem scratch_file_removed (L : Libs) (ayon_version : string)
    (addons_dir : list string) (http_get : string -> Fetch)
    (file_names dir_names : list string) (event_id url : string) (w : World) :
  let run := install_addon_from_url L ayon_version addons_dir http_get
               file_names dir_names event_id url w in
  match files w !! addons_dir, pick_fresh (files w) addons_dir file_names with
  | Some Dir, Some c => files run.2 !! (addons_dir ++ [c]) = None
  | _, _ => files run.2 = files w
  end.
Proof.
  intros run.
  destruct (files w !! addons_dir) as [[b perm|]|] eqn:Hroot;
    try (apply install_without_scratch; left; congruence).
  destruct (pick_fresh (files w) addons_dir file_names) as [c|] eqn:Hfresh;
    [|apply install_without_scratch; by right].
  pose proof (scratch_path_free addons_dir file_names w c Hfresh) as Hfree.
  destruct (http_get url) as [e|r] eqn:Hget.
  { subst run.
    by rewrite (install_connect_failed L ayon_version addons_dir http_get
                  file_names dir_names event_id url w c Hroot Hfresh e Hget). }
  destruct (install_after_download L ayon_version addons_dir http_get file_names
              dir_names event_id url w c Hroot Hfresh r Hget)
    as (evs & _ & Hrun).
  cbv zeta in Hrun. fold run in Hrun.
  destruct (stream_error r); [by rewrite Hrun|].
  destruct (get_addon_zip_info L ayon_version _ _) as [zip_info|e];
    [|by rewrite Hrun].
  set (zip_path := addons_dir ++ [c]) in *.
  set (fs1 := <[zip_path:=File (concat_chunks (chunks r)) private_perm]> (files w))
    in *.
  assert (Hkept : (unpack_addon_sync L addons_dir zip_path zip_info dir_names
                     fs1).2 !! zip_path
                  = Some (File (concat_chunks (chunks r)) private_perm)).
  { apply unpack_addon_sync_preserves.
    - apply lookup_insert_eq.
    - intros Hpre. apply prefix_length in Hpre.
      unfold target_path, zip_path in Hpre. rewrite !length_app in Hpre.
      simpl in Hpre. lia.
    - intros c' Hc' [k Hk]. symmetry in Hk.
      apply prefix_snoc_same_length in Hk as [-> _].
      unfold fs1 in Hc'. by rewrite lookup_insert_eq in Hc'. }
  destruct (unpack_addon_sync L addons_dir zip_path zip_info dir_names fs1)
    as [res fs2].
  cbn [snd] in Hkept. unfold unlink in Hrun. rewrite Hkept in Hrun.
  destruct res as [[]|e]; rewrite Hrun; cbn [snd files]; apply lookup_delete_eq.
Qed.

(** ** Tree-shaped file systems *)

Lemma snoc_cases (p : list string) :
  p = [] \/ exists pre c, p = pre ++ [c].
Proof.
  induction p as [|c pre _] using rev_ind; [by left | right; eauto].
Qed.

Lemma dirname_snoc (pre : list string) (c : string) : dirname (pre ++ [c]) = pre.
Proof. unfold dirname. apply removelast_last. Qed.

Lemma dirname_app (p rel : list string) :
  rel <> [] -> dirname (p ++ rel) = p ++ dirname rel.
Proof. intros H. unfold dirname. by apply removelast_app. Qed.

Lemma tree_like_ancestor (fs : FS) (p k : list string) :
  tree_like fs -> k <> [] -> is_Some (fs !! (p ++ k)) -> fs !! p = Some Dir.
Proof.
  intros Htree. induction k as [|x k IH] using rev_ind; [done|].
  intros _ Hsome. rewrite app_assoc in Hsome. apply Htree in Hsome.
  destruct k as [|y k]; [by rewrite app_nil_r in Hsome|].
  apply IH; [done | by rewrite Hsome].
Qed.

Lemma tree_like_absent_below (fs : FS) (p k : list string) :
  tree_like fs -> fs !! p = None -> fs !! (p ++ k) = None.
Proof.
  intros Htree Hp. destruct k as [|x k]; [by rewrite app_nil_r|].
  destruct (fs !! (p ++ x :: k)) as [n|] eqn:E; [|done].
  assert (fs !! p = Some Dir)
    by (apply (tree_like_ancestor fs p (x :: k)); [done | done | by rewrite E]).
  congruence.
Qed.

Lemma tree_like_insert_dir (fs : FS) (pre : list string) (c : string) :
  tree_like fs -> fs !! pre = Some Dir -> fs !! (pre ++ [c]) = None ->
  tree_like (<[pre ++ [c] := Dir]> fs).
Proof.
  intros Htree Hpre Hnew q x Hsome.
  destruct (decide (q ++ [x] = pre ++ [c])) as [Heq|Hne].
  - apply app_inj_tail in Heq as [-> ->].
    rewrite lookup_insert_ne; [done|]. intros Heq.
    apply (f_equal length) in Heq. rewrite length_app in Heq. simpl in Heq. lia.
  - rewrite lookup_insert_ne in Hsome by done.
    apply Htree in Hsome. rewrite lookup_insert_ne; [done|]. congruence.
Qed.

Lemma tree_like_insert_file (fs : FS) (pre : list string) (c : string)
    (bytes : string) (perm : Z) :
  tree_like fs -> fs !! pre = Some Dir -> fs !! (pre ++ [c]) <> Some Dir ->
  tree_like (<[pre ++ [c] := File bytes perm]> fs).
Proof.
  intros Htree Hpre Hnew q x Hsome.
  destruct (decide (q ++ [x] = pre ++ [c])) as [Heq|Hne].
  - apply app_inj_tail in Heq as [-> ->].
    rewrite lookup_insert_ne; [done|]. intros Heq.
    apply (f_equal length) in Heq. rewrite length_app in Heq. simpl in Heq. lia.
  - rewrite lookup_insert_ne in Hsome by done.
    apply Htree in Hsome. rewrite lookup_insert_ne; [done|]. congruence.
Qed.

Lemma tree_like_prune (fs : FS) (p : list string) :
  tree_like fs -> tree_like (prune p fs).
Proof.
  intros Htree q x [n Hn]. rewrite lookup_prune in Hn.
  destruct (decide (p `prefix_of` q ++ [x])) as [|Hout]; [done|].
  rewrite lookup_prune_outside.
  - apply (Htree q x). by rewrite Hn.
  - intros Hpre. apply Hout. etrans; [exact Hpre|]. by apply prefix_app_r.
Qed.

(** *** [makedirs] *)

Lemma makedirs_from_new (rest pre : list string) (fs : FS) (q : list string)
    (n : node) :
  (makedirs_from pre rest fs).2 !! q = Some n ->
  fs !! q = Some n
  \/ (n = Dir /\ fs !! q = None
      /\ exists k, k <> [] /\ k `prefix_of` rest /\ q = pre ++ k).
Proof.
  revert pre fs. induction rest as [|c rest IH]; intros pre fs; simpl; [by left|].
  destruct (fs !! (pre ++ [c])) as [[b perm|]|] eqn:Hp; [by left| |].
  - intros H. apply IH in H as [H | (-> & Hq & k & Hk & Hpre & ->)]; [by left|].
    right. split; [done|]. split; [done|]. exists (c :: k).
    split; [done|]. split; [by apply prefix_cons|]. by rewrite <- app_assoc.
  - intros H. apply IH in H as [H | (-> & Hq & k & Hk & Hpre & ->)].
    + destruct (decide (q = pre ++ [c])) as [->|Hne].
      * rewrite lookup_insert_eq in H. inversion H; subst.
        right. split; [done|]. split; [done|]. exists [c].
        split; [done|]. split; [|done]. apply prefix_cons, prefix_nil.
      * rewrite lookup_insert_ne in H by done. by left.
    + right. split; [done|]. split.
      * destruct (decide (pre ++ [c] = (pre ++ [c]) ++ k)) as [Heq|Hne].
        { by rewrite <- Heq, lookup_insert_eq in Hq. }
        by rewrite lookup_insert_ne in Hq.
      * exists (c :: k). split; [done|]. split; [by apply prefix_cons|].
        by rewrite <- app_assoc.
Qed.

Lemma makedirs_from_tree_like (rest pre : list string) (fs : FS) :
  tree_like fs -> fs !! pre = Some Dir ->
  tree_like (makedirs_from pre rest fs).2.
Proof.
  revert pre fs. induction rest as [|c rest IH]; intros pre fs Htree Hpre; simpl;
    [done|].
  destruct (fs !! (pre ++ [c])) as [[b perm|]|] eqn:Hp; [done| |].
  - by apply IH.
  - apply IH; [by apply tree_like_insert_dir | apply lookup_insert_eq].
Qed.

Lemma makedirs_from_made (rest pre : list string) (fs fs' : FS) (k : list string) :
  makedirs_from pre rest fs = (Ok tt, fs') ->
  k <> [] -> k `prefix_of` rest -> fs' !! (pre ++ k) = Some Dir.
Proof.
  revert pre fs k. induction rest as [|c rest IH]; intros pre fs k; simpl.
  - intros _ Hk Hpre. by apply prefix_nil_inv in Hpre.
  - intros Hrun Hk Hpre. destruct k as [|x k]; [done|].
    apply prefix_cons_inv_1 in Hpre as Hx. subst x.
    apply prefix_cons_inv_2 in Hpre.
    assert (Hstep : forall fs0, fs0 !! (pre ++ [c]) = Some Dir ->
              makedirs_from (pre ++ [c]) rest fs0 = (Ok tt, fs') ->
              fs' !! (pre ++ c :: k) = Some Dir).
    { intros fs0 Hc Hrun0. destruct k as [|y k].
      - pose proof (makedirs_from_preserves rest (pre ++ [c]) fs0 _ _ I Hc) as H.
        by rewrite Hrun0 in H.
      - rewrite (app_assoc pre [c] (y :: k)) || rewrite cons_middle, app_assoc.
        by eapply IH. }
    destruct (fs !! (pre ++ [c])) as [[b perm|]|] eqn:Hp; [done| |].
    + by eapply Hstep.
    + eapply Hstep; [|exact Hrun]. apply lookup_insert_eq.
Qed.

Lemma tree_like_insert_file_over (fs : FS) (p : list string)
    (b0 bytes : string) (m0 perm : Z) :
  tree_like fs -> fs !! p = Some (File b0 m0) ->
  tree_like (<[p := File bytes perm]> fs).
Proof.
  intros Htree Hp q x Hsome.
  assert (Hq : fs !! q = Some Dir).
  { apply (Htree q x). destruct (decide (q ++ [x] = p)) as [->|Hne].
    - by rewrite Hp.
    - by rewrite lookup_insert_ne in Hsome. }
  rewrite lookup_insert_ne; [done|]. congruence.
Qed.

(** *** What the successful operations did *)

Lemma mkdir_ok (p : list string) (fs fs' : FS) :
  mkdir p fs = (Ok tt, fs') ->
  fs' = <[p := Dir]> fs /\ fs !! p = None /\ fs !! dirname p = Some Dir.
Proof.
  unfold mkdir, parent_error. destruct (fs !! p); [discriminate|].
  destruct (fs !! dirname p) as [[b m|]|]; try discriminate.
  by intros [= <-].
Qed.

Lemma write_file_ok (p : list string) (bytes : string) (new_perm : Z)
    (fs fs' : FS) :
  write_file p bytes new_perm fs = (Ok tt, fs') ->
  exists perm,
    fs' = <[p := File bytes perm]> fs
    /\ ((exists b0 m0, fs !! p = Some (File b0 m0))
        \/ (fs !! p = None /\ fs !! dirname p = Some Dir)).
Proof.
  unfold write_file, parent_error.
  destruct (fs !! p) as [[b0 m0|]|]; [| discriminate |].
  - intros [= <-]. exists m0. split; [done|]. left. eauto.
  - destruct (fs !! dirname p) as [[b m|]|]; try discriminate.
    intros [= <-]. exists new_perm. split; [done|]. by right.
Qed.

Lemma chmod_ok (p : list string) (mode : Z) (fs fs' : FS) :
  chmod p mode fs = (Ok tt, fs') ->
  (fs' = fs /\ fs !! p = Some Dir)
  \/ exists bytes m0, fs !! p = Some (File bytes m0)
                      /\ fs' = <[p := File bytes mode]> fs.
Proof.
  unfold chmod. destruct (fs !! p) as [[b0 m0|]|]; [| |discriminate].
  - intros [= <-]. right. eauto.
  - intros [= <-]. by left.
Qed.

Lemma mkdir_tree_like (p : list string) (fs fs' : FS) :
  tree_like fs -> mkdir p fs = (Ok tt, fs') -> tree_like fs'.
Proof.
  intros Htree Hrun. apply mkdir_ok in Hrun as (-> & Hnew & Hparent).
  destruct (snoc_cases p) as [->|(pre & c & ->)].
  - simpl in Hparent. congruence.
  - rewrite dirname_snoc in Hparent. by apply tree_like_insert_dir.
Qed.

Lemma write_file_tree_like (p : list string) (bytes : string) (new_perm : Z)
    (fs fs' : FS) :
  tree_like fs -> write_file p bytes new_perm fs = (Ok tt, fs') -> tree_like fs'.
Proof.
  intros Htree Hrun.
  apply write_file_ok in Hrun as (perm & -> & [(b0 & m0 & Hp) | [Hnew Hparent]]).
  - by eapply tree_like_insert_file_over.
  - destruct (snoc_cases p) as [->|(pre & c & ->)].
    + simpl in Hparent. congruence.
    + rewrite dirname_snoc in Hparent. apply tree_like_insert_file; [done..|].
      by rewrite Hnew.
Qed.

Lemma chmod_tree_like (p : list string) (mode : Z) (fs fs' : FS) :
  tree_like fs -> chmod p mode fs = (Ok tt, fs') -> tree_like fs'.
Proof.
  intros Htree Hrun.
  apply chmod_ok in Hrun as [[-> _] | (bytes & m0 & Hp & ->)]; [done|].
  by eapply tree_like_insert_file_over.
Qed.

(** *** Kinds of nodes are stable during extraction *)

Lemma same_kind_refl (n : node) : same_kind n n.
Proof. by destruct n. Qed.

Lemma same_kind_trans (a b c : node) : same_kind a b -> same_kind b c -> same_kind a c.
Proof. by destruct a, b, c. Qed.

Lemma keeps_kinds_of_preserves {A} (m : M FS A) :
  preserves (fun _ => True) m -> keeps_kinds m.
Proof.
  intros H fs q n Hq. exists n. split; [by apply H | apply same_kind_refl].
Qed.

Lemma keeps_kinds_ret {A} (a : A) : keeps_kinds (@retM FS A a).
Proof. intros fs q n Hq. exists n. split; [done | apply same_kind_refl]. Qed.

Lemma keeps_kinds_get : keeps_kinds (@getM FS).
Proof. intros fs q n Hq. exists n. split; [done | apply same_kind_refl]. Qed.

Lemma keeps_kinds_bind {A B : Type} (m : M FS A) (k : A -> M FS B) :
  keeps_kinds m -> (forall a, keeps_kinds (k a)) -> keeps_kinds (bindM m k).
Proof.
  intros Hm Hk fs q n Hq. unfold bindM.
  destruct (Hm fs q n Hq) as (n1 & H1 & Hk1).
  destruct (m fs) as [[a|e] fs1]; cbn [fst snd] in *; [|eauto].
  destruct (Hk a fs1 q n1 H1) as (n2 & H2 & Hk2).
  exists n2. split; [done | by eapply same_kind_trans].
Qed.

Lemma keeps_kinds_if {A} (b : bool) (m1 m2 : M FS A) :
  keeps_kinds m1 -> keeps_kinds m2 -> keeps_kinds (if b then m1 else m2).
Proof. by destruct b. Qed.

Lemma keeps_kinds_forM {A} (xs : list A) (body : A -> M FS unit) :
  (forall x, keeps_kinds (body x)) -> keeps_kinds (forM xs body).
Proof.
  intros Hbody. induction xs as [|x xs IH]; simpl.
  - apply keeps_kinds_ret.
  - apply keeps_kinds_bind; [apply Hbody | by intros _].
Qed.

Ltac kind_done :=
  eexists; split;
  [ first [reflexivity | eassumption]
  | first [exact I | apply same_kind_refl] ].

Lemma write_file_keeps_kinds (p : list string) (bytes : string) (perm : Z) :
  keeps_kinds (write_file p bytes perm).
Proof.
  intros fs q n Hq. unfold write_file, parent_error.
  destruct (decide (q = p)) as [->|Hne].
  - rewrite Hq. destruct n as [b0 m0|]; cbn [snd].
    + rewrite lookup_insert_eq. kind_done.
    + kind_done.
  - destruct (fs !! p) as [[b0 m0|]|]; cbn [snd].
    + rewrite lookup_insert_ne by done. kind_done.
    + kind_done.
    + destruct (fs !! dirname p) as [[b m|]|]; cbn [snd];
        try rewrite lookup_insert_ne by done; kind_done.
Qed.

Lemma chmod_keeps_kinds (p : list string) (mode : Z) : keeps_kinds (chmod p mode).
Proof.
  intros fs q n Hq. unfold chmod.
  destruct (decide (q = p)) as [->|Hne].
  - rewrite Hq. destruct n as [b0 m0|]; cbn [snd].
    + rewrite lookup_insert_eq. kind_done.
    + kind_done.
  - destruct (fs !! p) as [[b0 m0|]|]; cbn [snd];
      try rewrite lookup_insert_ne by done; kind_done.
Qed.

Lemma extract_member_keeps_kinds (dest : list string) (m : ZipMember) :
  keeps_kinds (extract_member dest m).
Proof.
  unfold extract_member, extract.
  apply keeps_kinds_bind.
  - apply keeps_kinds_bind; [apply keeps_kinds_get|]. intros fs.
    apply keeps_kinds_bind.
    { apply keeps_kinds_if; [apply keeps_kinds_ret|].
      apply keeps_kinds_of_preserves, makedirs_preserves. }
    intros _. apply keeps_kinds_if.
    + apply keeps_kinds_bind; [apply keeps_kinds_get|]. intros fs'.
      apply keeps_kinds_bind; [|intros; apply keeps_kinds_ret].
      apply keeps_kinds_if; [apply keeps_kinds_ret|].
      apply keeps_kinds_of_preserves, mkdir_preserves.
    + apply keeps_kinds_bind; [|intros; apply keeps_kinds_ret].
      apply write_file_keeps_kinds.
  - intros a. apply keeps_kinds_if; [apply keeps_kinds_ret|].
    apply chmod_keeps_kinds.
Qed.

(** ** Extraction into the scratch directory *)

Lemma from_archive_mono (ms ms' : list ZipMember) (rel : list string) (n : node) :
  ms ⊆ ms' -> from_archive ms rel n -> from_archive ms' rel n.
Proof.
  intros Hsub [(m & Hm & Hpre) Hfile]. split.
  - exists m. split; [by apply Hsub | done].
  - intros bytes perm Hn. destruct (Hfile bytes perm Hn) as (m' & Hm' & H).
    exists m'. split; [by apply Hsub | done].
Qed.

Lemma provenance_mono (ms ms' : list ZipMember) (tmp : list string) (fs : FS) :
  ms ⊆ ms' -> provenance ms tmp fs -> provenance ms' tmp fs.
Proof. intros Hsub H rel n Hrel Hn. eapply from_archive_mono; eauto. Qed.

Lemma tree_like_root (fs : FS) (q : list string) :
  tree_like fs -> fs !! q = Some Dir -> fs !! [] = Some Dir.
Proof.
  intros Htree Hq. destruct q as [|x q]; [done|].
  apply (tree_like_ancestor fs [] (x :: q)); [done | done |].
  exact (mk_is_Some _ _ Hq).
Qed.

Lemma dirname_prefix (p : list string) : dirname p `prefix_of` p.
Proof.
  destruct (snoc_cases p) as [->|(pre & c & ->)]; [done|].
  rewrite dirname_snoc. by apply prefix_app_r.
Qed.

Lemma provenance_makedirs (ms : list ZipMember) (tmp arc : list string)
    (m : ZipMember) (fs : FS) :
  provenance ms tmp fs -> m ∈ ms -> arcname (filename m) = arc ->
  provenance ms tmp (makedirs (dirname (tmp ++ arc)) fs).2.
Proof.
  intros Hprov Hm Harc rel n Hrel Hn.
  apply makedirs_from_new in Hn as [Hold | (-> & _ & k & _ & Hpre & Hk)];
    [by apply Hprov|].
  simpl in Hk. subst k. split; [|done].
  exists m. split; [done|]. rewrite Harc.
  apply (prefix_app_inv tmp). etrans; [exact Hpre | apply dirname_prefix].
Qed.

Lemma provenance_insert (ms : list ZipMember) (tmp p : list string) (n' : node)
    (fs : FS) :
  provenance ms tmp fs ->
  (forall rel, rel <> [] -> p = tmp ++ rel -> from_archive ms rel n') ->
  provenance ms tmp (<[p := n']> fs).
Proof.
  intros Hprov Hnew rel n Hrel Hn.
  destruct (decide (p = tmp ++ rel)) as [Heq|Hne].
  - rewrite Heq, lookup_insert_eq in Hn. inversion Hn; subst n. by apply Hnew.
  - rewrite lookup_insert_ne in Hn by done. by apply Hprov.
Qed.

Lemma extract_ok (m : ZipMember) (dest : list string) (fs fs' : FS)
    (a : list string) :
  extract m dest fs = (Ok a, fs') ->
  let tp := dest ++ arcname (filename m) in
  exists fsA,
    (fsA = fs \/ makedirs (dirname tp) fs = (Ok tt, fsA))
    /\ if member_is_dir m
       then (fs' = fsA /\ fsA !! tp = Some Dir) \/ mkdir tp fsA = (Ok tt, fs')
       else write_file tp (data m) default_perm fsA = (Ok tt, fs').
Proof.
  unfold extract. cbv [bindM getM retM]. intros Hrun.
  set (tp := dest ++ arcname (filename m)) in *.
  assert (Hafter : forall fsA,
    (if member_is_dir m
     then let (r, s') := (if isdir fsA tp then (fun s : FS => (Ok tt, s))
                          else mkdir tp) fsA in
          match r with
          | Ok _ => (Ok tp, s')
          | Raise e => (Raise e, s')
          end
     else let (r, s') := write_file tp (data m) default_perm fsA in
          match r with
          | Ok _ => (Ok tp, s')
          | Raise e => (Raise e, s')
          end) = (Ok a, fs') ->
    if member_is_dir m
    then (fs' = fsA /\ fsA !! tp = Some Dir) \/ mkdir tp fsA = (Ok tt, fs')
    else write_file tp (data m) default_perm fsA = (Ok tt, fs')).
  { intros fsA H. destruct (member_is_dir m).
    - unfold isdir in H. destruct (fsA !! tp) as [[b perm|]|] eqn:Htp.
      + right. destruct (mkdir tp fsA) as [[[]|e] fs1]; by inversion H.
      + left. by inversion H.
      + right. destruct (mkdir tp fsA) as [[[]|e] fs1]; by inversion H.
    - destruct (write_file tp (data m) default_perm fsA) as [[[]|e] fs1];
        by inversion H. }
  destruct (exists_path fs (dirname tp)).
  - exists fs. split; [by left|]. apply Hafter.
    destruct (member_is_dir m); exact Hrun.
  - destruct (makedirs (dirname tp) fs) as [[[]|e] fsA]; [|done].
    exists fsA. split; [by right|]. apply Hafter.
    destruct (member_is_dir m); exact Hrun.
Qed.

Lemma extract_member_ok (dest : list string) (m : ZipMember) (fs fs' : FS) :
  extract_member dest m fs = (Ok tt, fs') ->
  let tp := dest ++ arcname (filename m) in
  exists fsB,
    extract m dest fs = (Ok tp, fsB)
    /\ (fs' = fsB
        \/ chmod tp (Z.shiftr (external_attr m) 16) fsB = (Ok tt, fs')).
Proof.
  unfold extract_member, bindM. intros Hrun. cbv zeta.
  set (tp := dest ++ arcname (filename m)) in *.
  destruct (extract m dest fs) as [[a|e] fsB] eqn:Hex; [|done].
  pose proof (extract_returns _ _ _ _ _ Hex) as ->. fold tp in Hrun.
  exists fsB. split; [done|].
  destruct (Z.shiftr (external_attr m) 16 =? 0).
  - left. by inversion Hrun.
  - by right.
Qed.

(** One successful loop iteration keeps the scratch directory staged and
    leaves a node of the member's kind at the member's path. *)
Lemma extract_member_staged (ms : list ZipMember) (tmp : list string)
    (m : ZipMember) (fs fs' : FS) :
  staged ms tmp fs ->
  extract_member tmp m fs = (Ok tt, fs') ->
  staged (ms ++ [m]) tmp fs'
  /\ (if member_is_dir m
      then fs' !! (tmp ++ arcname (filename m)) = Some Dir
      else exists perm,
             fs' !! (tmp ++ arcname (filename m)) = Some (File (data m) perm)).
Proof.
  intros (Htree & Htmp & Hprov) Hrun.
  pose proof (extract_member_keeps_kinds tmp m fs tmp Dir Htmp) as (n' & Hn' & Hk).
  rewrite Hrun in Hn'. cbn [snd] in Hn'. destruct n' as [|]; [done|]. clear Hk.
  apply extract_member_ok in Hrun as (fsB & Hex & Hch).
  apply extract_ok in Hex as (fsA & HA & HB). cbv zeta in *.
  set (arc := arcname (filename m)) in *. set (tp := tmp ++ arc) in *.
  assert (Hin : m ∈ ms ++ [m]) by (apply elem_of_app; right; by left).
  assert (Hsub : ms ⊆ ms ++ [m]) by (intros x Hx; apply elem_of_app; by left).
  assert (Hprov0 : provenance (ms ++ [m]) tmp fs)
    by (eapply provenance_mono; [exact Hsub | exact Hprov]).
  assert (HtreeA : tree_like fsA /\ provenance (ms ++ [m]) tmp fsA).
  { destruct HA as [->|Hmk]; [done|]. split.
    - pose proof (makedirs_from_tree_like (dirname tp) [] fs Htree
                    (tree_like_root _ _ Htree Htmp)) as H.
      unfold makedirs in Hmk. by rewrite Hmk in H.
    - pose proof (provenance_makedirs (ms ++ [m]) tmp arc m fs Hprov0 Hin
                    eq_refl) as H.
      fold tp in H. by rewrite Hmk in H. }
  destruct HtreeA as [HtreeA HprovA].
  assert (Hself : forall n0, (forall bytes perm, n0 = File bytes perm ->
                                member_is_dir m = false /\ bytes = data m) ->
            forall rel, rel <> [] -> tp = tmp ++ rel ->
                        from_archive (ms ++ [m]) rel n0).
  { intros n0 Hn0 rel Hrel Heq. apply app_inv_head in Heq. subst rel. split.
    - exists m. split; [done | reflexivity].
    - intros bytes perm ->. destruct (Hn0 bytes perm eq_refl) as [Hd ->].
      exists m. repeat split; done. }
  assert (HB' : tree_like fsB /\ provenance (ms ++ [m]) tmp fsB
                /\ (if member_is_dir m then fsB !! tp = Some Dir
                    else exists perm, fsB !! tp = Some (File (data m) perm))).
  { destruct (member_is_dir m) eqn:Hdir.
    - destruct HB as [[-> Hd] | Hmk]; [done|].
      split; [by eapply mkdir_tree_like|].
      apply mkdir_ok in Hmk as (-> & _ & _). split; [|apply lookup_insert_eq].
      apply provenance_insert; [done|]. by apply Hself.
    - split; [by eapply write_file_tree_like|].
      apply write_file_ok in HB as (perm & -> & _). split.
      + apply provenance_insert; [done|]. apply Hself.
        intros bytes perm' [= <- _]. done.
      + exists perm. apply lookup_insert_eq. }
  destruct HB' as (HtreeB & HprovB & HnodeB).
  destruct Hch as [-> | Hch]; [done|].
  split; [split; [by eapply chmod_tree_like | split; [done|]]|].
  - apply chmod_ok in Hch as [[-> _] | (bytes & m0 & Hp & ->)]; [done|].
    apply provenance_insert; [done|]. intros rel Hrel Heq.
    pose proof (HprovB rel (File bytes m0) Hrel) as [H1 H2];
      [by rewrite <- Heq|].
    split; [done|]. intros b p [= <- _]. by apply (H2 bytes m0).
  - apply chmod_ok in Hch as [[-> _] | (bytes & m0 & Hp & ->)]; [done|].
    destruct (member_is_dir m); [congruence|].
    destruct HnodeB as (perm & Hperm). rewrite Hp in Hperm.
    inversion Hperm; subst. eexists. apply lookup_insert_eq.
Qed.

Lemma forM_cons_ok {A} (x : A) (xs : list A) (body : A -> M FS unit)
    (fs fs' : FS) :
  forM (x :: xs) body fs = (Ok tt, fs') ->
  exists fs1, body x fs = (Ok tt, fs1) /\ forM xs body fs1 = (Ok tt, fs').
Proof.
  simpl. unfold bindM. destruct (body x fs) as [[[]|e] fs1]; [|done].
  intros H. by exists fs1.
Qed.

Lemma kind_of_member_same (m : ZipMember) (n n' : node) :
  kind_of_member m n -> same_kind n n' -> kind_of_member m n'.
Proof.
  unfold kind_of_member. destruct (member_is_dir m).
  - intros ->. by destruct n'.
  - intros (b & p & ->). destruct n'; [eauto | done].
Qed.

(** The extraction loop, when it completes: the scratch directory holds
    nodes of the archive only, and every member left a node of its kind. *)
Lemma extract_all_staged (tmp : list string) (todo : list ZipMember) :
  forall (ms : list ZipMember) (fs fs' : FS),
    staged ms tmp fs ->
    forM todo (extract_member tmp) fs = (Ok tt, fs') ->
    staged (ms ++ todo) tmp fs'
    /\ forall m, m ∈ todo ->
         exists n, fs' !! (tmp ++ arcname (filename m)) = Some n
                   /\ kind_of_member m n.
Proof.
  induction todo as [|m todo IH]; intros ms fs fs' Hst Hrun.
  - simpl in Hrun. inversion Hrun; subst. rewrite app_nil_r.
    split; [done|]. intros m Hm. by apply elem_of_nil in Hm.
  - apply forM_cons_ok in Hrun as (fs1 & Hstep & Hrest).
    destruct (extract_member_staged ms tmp m fs fs1 Hst Hstep) as [Hst1 Hnode].
    destruct (IH (ms ++ [m]) fs1 fs' Hst1 Hrest) as [Hst' Hnodes].
    split; [by rewrite <- app_assoc in Hst'|].
    intros m' Hm'. apply elem_of_cons in Hm' as [->|Hm']; [|by apply Hnodes].
    assert (Hn1 : exists n1, fs1 !! (tmp ++ arcname (filename m)) = Some n1
                             /\ kind_of_member m n1).
    { unfold kind_of_member. destruct (member_is_dir m).
      - eauto.
      - destruct Hnode as (perm & Hp). eauto. }
    destruct Hn1 as (n1 & Hn1 & Hk1).
    destruct (keeps_kinds_forM todo (extract_member tmp)
                (extract_member_keeps_kinds tmp) fs1 _ _ Hn1) as (n' & Hn' & Hk').
    rewrite Hrest in Hn'. exists n'. split; [done|].
    by eapply kind_of_member_same.
Qed.

(** *** Moving a tree *)

Lemma strip_path_app (src q : list string) : strip_path src (src ++ q) = Some q.
Proof.
  induction src as [|a src IH]; simpl; [done|].
  by rewrite decide_True.
Qed.

Lemma strip_path_Some (src p q : list string) :
  strip_path src p = Some q -> p = src ++ q.
Proof.
  revert p. induction src as [|a src IH]; intros p; simpl.
  - by intros [= ->].
  - destruct p as [|b p]; [done|].
    destruct (decide (a = b)) as [->|]; [|done].
    intros H. by rewrite (IH _ H).
Qed.

Lemma lookup_subtree (src : list string) (fs : FS) (k : list string) :
  subtree src fs !! k = fs !! (src ++ k).
Proof.
  unfold subtree. destruct (fs !! (src ++ k)) as [n|] eqn:Hn.
  - apply elem_of_list_to_map_1'.
    + intros n' Hin. apply list_elem_of_omap in Hin as ([p n0] & Hin & Hsome).
      cbn [fst snd] in Hsome. apply elem_of_map_to_list in Hin.
      destruct (strip_path src p) as [q|] eqn:Hp; [|done].
      cbn in Hsome. inversion Hsome; subst.
      apply strip_path_Some in Hp. subst p. congruence.
    + apply list_elem_of_omap. exists (src ++ k, n).
      split; [by apply elem_of_map_to_list|]. cbn [fst snd].
      by rewrite strip_path_app.
  - apply not_elem_of_list_to_map_1. intros Hin.
    apply list_elem_of_fmap in Hin as ([q n'] & Hq & Hin). cbn in Hq. subst q.
    apply list_elem_of_omap in Hin as ([p n0] & Hin & Hsome).
    cbn [fst snd] in Hsome. apply elem_of_map_to_list in Hin.
    destruct (strip_path src p) as [q|] eqn:Hp; [|done].
    cbn in Hsome. inversion Hsome; subst.
    apply strip_path_Some in Hp. subst p. congruence.
Qed.

Lemma lookup_graft (dst : list string) (t : FS) (k : list string) :
  graft dst t !! (dst ++ k) = t !! k.
Proof. unfold graft. apply (lookup_kmap (app dst)). Qed.

Lemma makedirs_lookup_other (p : list string) (fs : FS) (q : list string) :
  ¬ q `prefix_of` p -> (makedirs p fs).2 !! q = fs !! q.
Proof.
  intros Hq. destruct (fs !! q) as [n|] eqn:Hold.
  - by apply makedirs_preserves.
  - destruct ((makedirs p fs).2 !! q) as [n|] eqn:Hnew; [|done].
    apply makedirs_from_new in Hnew as [H | (_ & _ & k & _ & Hk & ->)];
      [congruence|].
    by destruct Hq.
Qed.

Lemma not_prefix_longer (p k q : list string) :
  (length q < length p)%nat -> ¬ (p ++ k) `prefix_of` q.
Proof.
  intros Hlen Hpre. apply prefix_length in Hpre.
  rewrite length_app in Hpre. lia.
Qed.

(** The move of the standard branch: the tree below [addon] in the scratch
    directory becomes the tree at the target. *)
Lemma move_addon_tree (tmp target : list string) (fs2 fs3 : FS) :
  target <> [] ->
  (forall k, fs2 !! (target ++ k) = None) ->
  (forall k, outside tmp (target ++ k)) ->
  fs2 !! (tmp ++ ["addon"]) = Some Dir ->
  move (tmp ++ ["addon"]) target fs2 = (Ok tt, fs3) ->
  forall k, fs3 !! (target ++ k) = fs2 !! (tmp ++ "addon" :: k).
Proof.
  intros Hne Hfree Hout Hsrc Hrun k.
  pose proof (Hfree []) as Hfree0. rewrite app_nil_r in Hfree0.
  unfold move, isdir, exists_path in Hrun. rewrite Hfree0, Hsrc in Hrun.
  cbn [andb] in Hrun.
  assert (Hnp : ¬ (tmp ++ ["addon"]) `prefix_of` target).
  { intros Hpre. apply (Hout []). rewrite app_nil_r.
    etrans; [|exact Hpre]. by apply prefix_app_r. }
  rewrite bool_decide_eq_false_2 in Hrun by done.
  rewrite Hfree0 in Hrun.
  destruct (makedirs (dirname target) fs2) as [[[]|e] fsA] eqn:Hmk; [|done].
  inversion Hrun; subst fs3. clear Hrun.
  assert (HA : forall q, ¬ q `prefix_of` dirname target -> fsA !! q = fs2 !! q).
  { intros q Hq. pose proof (makedirs_lookup_other (dirname target) fs2 q Hq) as H.
    by rewrite Hmk in H. }
  assert (Hlen : (length (dirname target) < length target)%nat).
  { destruct (snoc_cases target) as [->|(pre & c & ->)]; [done|].
    rewrite dirname_snoc, length_app. simpl. lia. }
  replace (tmp ++ "addon" :: k) with ((tmp ++ ["addon"]) ++ k)
    by (by rewrite <- app_assoc).
  assert (Hsrcq : fsA !! ((tmp ++ ["addon"]) ++ k)
                  = fs2 !! ((tmp ++ ["addon"]) ++ k)).
  { apply HA. intros Hpre. apply Hnp.
    etrans; [|apply dirname_prefix]. etrans; [|exact Hpre].
    by apply prefix_app_r. }
  rewrite lookup_union, lookup_graft, lookup_subtree, Hsrcq.
  destruct (fs2 !! ((tmp ++ ["addon"]) ++ k)) as [n|];
    [by destruct (prune _ _ !! _)|].
  rewrite lookup_prune_outside by (apply outside_app, Hout).
  rewrite HA by (apply not_prefix_longer; done). rewrite Hfree. done.
Qed.

(** *** The loop of the rez branch *)

Lemma move_ok_inv (src dst : list string) (fs fs' : FS) :
  move src dst fs = (Ok tt, fs') ->
  isdir fs dst = false ->
  (exists bytes perm, fs !! src = Some (File bytes perm)
                      /\ fs' = <[dst := File bytes perm]> (delete src fs))
  \/ fs !! src = Some Dir.
Proof.
  intros Hrun Hdst. unfold move in Hrun. rewrite Hdst in Hrun.
  cbn [andb] in Hrun.
  destruct (fs !! src) as [[bytes perm|]|]; [|by right|done].
  left. exists bytes, perm. split; [done|].
  destruct (parent_error fs dst); [done|].
  destruct (fs !! dst) as [[b0 p0|]|]; by inversion Hrun.
Qed.

Lemma rehome_step (tmp target : list string) (fs2 fs fs' : FS)
    (src : list string) :
  tree_like fs2 -> fs2 !! tmp = Some Dir -> target <> [] ->
  (forall k, outside tmp (target ++ k)) ->
  (forall k, outside target (tmp ++ k)) ->
  src ∈ walk_files tmp fs2 ->
  rehomed tmp target fs2 fs ->
  rehome tmp target src fs = (Ok tt, fs') ->
  rehomed tmp target fs2 fs' /\ fs' !! target = Some Dir.
Proof.
  intros Htree Htmp Hne Hout1 Hout2 Hsrc [Ha Hb] Hrun.
  apply elem_of_walk_files in Hsrc as ([rel ->] & bytes & perm & Hfile).
  assert (Hrel : rel <> []).
  { intros ->. rewrite app_nil_r in Hfile. congruence. }
  unfold rehome in Hrun. rewrite drop_app_length in Hrun.
  rewrite (dirname_app target rel Hrel) in Hrun. unfold bindM in Hrun.
  destruct (makedirs (target ++ dirname rel) fs) as [[[]|e] fsA] eqn:Hmk; [|done].
  assert (Hnew : forall q n, fsA !! q = Some n ->
            fs !! q = Some n
            \/ (n = Dir /\ q `prefix_of` target ++ dirname rel)).
  { intros q n Hn.
    assert (Hn' : (makedirs (target ++ dirname rel) fs).2 !! q = Some n)
      by (by rewrite Hmk).
    apply makedirs_from_new in Hn' as [Hold | (-> & _ & k & _ & Hk & ->)];
      [by left | by right]. }
  assert (HaA : forall p n, tmp `prefix_of` p -> fsA !! p = Some n ->
                            fs2 !! p = Some n).
  { intros p n Hp Hn. apply Hnew in Hn as [Hold | [_ Hpre]]; [by apply Ha|].
    exfalso. apply (Hout1 (dirname rel)). by etrans. }
  assert (HbA : forall k n, k <> [] -> fsA !! (target ++ k) = Some n ->
                            fs2 !! (tmp ++ k) = Some n).
  { intros k n Hk Hn. apply Hnew in Hn as [Hold | [-> Hpre]]; [by apply Hb|].
    apply prefix_app_inv in Hpre.
    destruct (snoc_cases rel) as [->|(pre & c & ->)]; [done|].
    rewrite dirname_snoc in Hpre. destruct Hpre as [j ->].
    apply (tree_like_ancestor fs2 (tmp ++ k) (j ++ [c])); [done | by destruct j |].
    rewrite <- !app_assoc in *. by rewrite Hfile. }
  assert (HtA : fsA !! target = Some Dir).
  { apply (makedirs_from_made (target ++ dirname rel) [] fs fsA target Hmk Hne).
    by apply prefix_app_r. }
  assert (Hdst : isdir fsA (target ++ rel) = false).
  { unfold isdir. destruct (fsA !! (target ++ rel)) as [[b0 p0|]|] eqn:E; try done.
    apply HbA in E; [congruence | done]. }
  apply move_ok_inv in Hrun as [(b1 & p1 & Hs & ->) | Hs]; [| |exact Hdst].
  2:{ apply HaA in Hs; [congruence | by apply prefix_app_r]. }
  assert (Hnode : fs2 !! (tmp ++ rel) = Some (File b1 p1))
    by (apply HaA; [by apply prefix_app_r | done]).
  split; [split|].
  - intros p n Hp Hn.
    rewrite lookup_insert_ne in Hn
      by (intros <-; by apply (Hout1 rel)).
    apply lookup_delete_Some in Hn as [_ Hn]. by apply HaA.
  - intros k n Hk Hn. destruct (decide (k = rel)) as [->|Hkr].
    + rewrite lookup_insert_eq in Hn. by inversion Hn; subst.
    + rewrite lookup_insert_ne in Hn by (intros H; by apply app_inv_head in H).
      apply lookup_delete_Some in Hn as [_ Hn]. by apply HbA.
  - rewrite lookup_insert_ne.
    + rewrite lookup_delete_ne; [done|]. intros <-.
      apply (Hout1 []). rewrite app_nil_r. by apply prefix_app_r.
    + intros H. rewrite <- (app_nil_r target) in H at 2.
      apply app_inv_head in H. done.
Qed.

Lemma rehome_loop (tmp target : list string) (fs2 : FS) (srcs : list (list string)) :
  tree_like fs2 -> fs2 !! tmp = Some Dir -> target <> [] ->
  (forall k, outside tmp (target ++ k)) ->
  (forall k, outside target (tmp ++ k)) ->
  (forall src, src ∈ srcs -> src ∈ walk_files tmp fs2) ->
  forall fs fs',
    rehomed tmp target fs2 fs ->
    forM srcs (rehome tmp target) fs = (Ok tt, fs') ->
    rehomed tmp target fs2 fs'
    /\ (srcs <> [] \/ fs !! target = Some Dir -> fs' !! target = Some Dir).
Proof.
  intros Htree Htmp Hne Hout1 Hout2. induction srcs as [|src srcs IH];
    intros Hsrcs fs fs' Hinv Hrun.
  - simpl in Hrun. inversion Hrun; subst. split; [done|]. by intros [|].
  - apply forM_cons_ok in Hrun as (fs1 & Hstep & Hrest).
    destruct (rehome_step tmp target fs2 fs fs1 src Htree Htmp Hne Hout1 Hout2)
      as [Hinv1 Ht1]; [apply Hsrcs; by left | done | done |].
    assert (Hsrcs' : forall s, s ∈ srcs -> s ∈ walk_files tmp fs2)
      by (intros s Hs; apply Hsrcs; by right).
    destruct (IH Hsrcs' fs1 fs' Hinv1 Hrest) as [Hinv' Ht'].
    split; [done|]. intros _. apply Ht'. by right.
Qed.

(** ** Installing over an installed version *)

Lemma target_path_not_nil (addons_dir : list string) (zip_info : AddonZipInfo) :
  target_path addons_dir zip_info <> [].
Proof. unfold target_path. by destruct addons_dir. Qed.

Lemma scratch_apart_from_target (addons_dir : list string) (zip_info : AddonZipInfo)
    (c : string) :
  c <> name zip_info ->
  (forall k, outside (addons_dir ++ [c]) (target_path addons_dir zip_info ++ k))
  /\ (forall k, outside (target_path addons_dir zip_info) ((addons_dir ++ [c]) ++ k)).
Proof.
  intros Hc. unfold target_path. split; intros k [j Hj];
    rewrite <- !app_assoc in Hj; apply app_inv_head in Hj;
    simpl in Hj; inversion Hj; congruence.
Qed.

(** C4, amended.  Take a tree-shaped file system in which the pair is
    installed (its target directory exists), and an archive with content
    for its packaging kind: an [addon] directory for a standard package,
    a file for a rez package.  When [unpack_addon_sync] completes, the
    target is a directory and every node below it stems from the new
    archive: it sits at the path of a member (below [addon] for a
    standard package) and a file holds the data of the member stored
    under that path.  Nothing of the prior content is left. *)
Theorem reinstall_replaces_content (L : Libs) (addons_dir zip_path : list string)
    (zip_info : AddonZipInfo) (dir_names : list string) (fs fs' : FS)
    (bytes : string) (perm : Z) (members : list ZipMember) :
  tree_like fs ->
  fs !! zip_path = Some (File bytes perm) ->
  zip_read L bytes = Ok members ->
  carries_payload zip_info members ->
  fs !! target_path addons_dir zip_info = Some Dir ->
  unpack_addon_sync L addons_dir zip_path zip_info dir_names fs = (Ok tt, fs') ->
  fs' !! target_path addons_dir zip_info = Some Dir
  /\ forall k n, k <> [] ->
       fs' !! (target_path addons_dir zip_info ++ k) = Some n ->
       from_archive members (payload_root zip_info ++ k) n.
Proof.
  intros Htree Hzip Hread Hpay Htarget Hrun.
  pose proof (target_path_not_nil addons_dir zip_info) as Htne.
  unfold unpack_addon_sync in Hrun. unfold bindM at 1 in Hrun.
  destruct (makedirs addons_dir fs) as [[[]|e] fs1] eqn:Hmk; [|done].
  assert (Hroot0 : fs !! [] = Some Dir) by (by eapply tree_like_root).
  assert (Htree1 : tree_like fs1).
  { pose proof (makedirs_from_tree_like addons_dir [] fs Htree Hroot0) as H.
    unfold makedirs in Hmk. by rewrite Hmk in H. }
  assert (Hkeep1 : forall q n, fs !! q = Some n -> fs1 !! q = Some n).
  { intros q n Hq. pose proof (makedirs_preserves addons_dir fs q n I Hq) as H.
    by rewrite Hmk in H. }
  unfold with_temporary_directory, mkdtemp in Hrun.
  destruct (fs1 !! addons_dir) as [[b0 p0|]|] eqn:Hroot1; try done.
  destruct (pick_fresh fs1 addons_dir dir_names) as [c|] eqn:Hpick; [|done].
  apply pick_fresh_free in Hpick.
  assert (Hname : fs !! (addons_dir ++ [name zip_info]) = Some Dir).
  { apply (tree_like_ancestor fs _ [version zip_info]); [done | done |].
    rewrite <- app_assoc. exact (mk_is_Some _ _ Htarget). }
  assert (Hc : c <> name zip_info).
  { intros ->. apply Hkeep1 in Hname. congruence. }
  destruct (scratch_apart_from_target addons_dir zip_info c Hc) as [Hout1 Hout2].
  set (target := target_path addons_dir zip_info) in *.
  set (tmp := addons_dir ++ [c]) in *.
  set (fs1' := <[tmp := Dir]> fs1) in *.
  assert (Hst0 : staged [] tmp fs1').
  { split; [by apply tree_like_insert_dir|]. split; [apply lookup_insert_eq|].
    intros rel n Hrel Hn. unfold fs1' in Hn.
    rewrite lookup_insert_ne in Hn.
    - by rewrite (tree_like_absent_below fs1 tmp rel) in Hn.
    - intros H. rewrite <- (app_nil_r tmp) in H at 1. by apply app_inv_head in H. }
  assert (Hzip1 : fs1' !! zip_path = Some (File bytes perm)).
  { unfold fs1'. rewrite lookup_insert_ne; [by apply Hkeep1|].
    intros <-. apply Hkeep1 in Hzip. congruence. }
  assert (Ht1 : fs1' !! target = Some Dir).
  { unfold fs1'. rewrite lookup_insert_ne; [by apply Hkeep1|].
    intros Heq. apply (Hout1 []). rewrite app_nil_r. by rewrite Heq. }
  cbv [bindM getM liftR] in Hrun. unfold open_zip in Hrun.
  rewrite Hzip1, Hread in Hrun.
  destruct (forM members (extract_member tmp) fs1') as [[[]|e] fsS] eqn:Hext;
    [|done].
  destruct (extract_all_staged tmp members [] fs1' fsS Hst0 Hext)
    as [(HtreeS & HtmpS & HprovS) Hkinds].
  assert (HtS : fsS !! target = Some Dir).
  { pose proof (preserves_forM (outside tmp) members (extract_member tmp)
                  (fun m _ => extract_member_preserves tmp m) fs1' target Dir)
      as H.
    rewrite Hext in H. apply H; [|done].
    pose proof (Hout1 []) as H0. by rewrite app_nil_r in H0. }
  unfold isdir, rmtree in Hrun. rewrite HtS in Hrun.
  cbv beta iota in Hrun. rewrite ?HtS in Hrun.
  set (fs2 := prune target fsS) in *.
  assert (Htree2 : tree_like fs2) by (by apply tree_like_prune).
  assert (Hlook2 : forall k, fs2 !! (tmp ++ k) = fsS !! (tmp ++ k))
    by (intros k; apply lookup_prune_outside, Hout2).
  assert (Hfree2 : forall k, fs2 !! (target ++ k) = None)
    by (intros k; by apply lookup_prune_below, prefix_app_r).
  assert (Htmp2 : fs2 !! tmp = Some Dir).
  { pose proof (Hlook2 []) as H. rewrite app_nil_r in H. by rewrite H. }
  assert (Hout0 : outside tmp target).
  { pose proof (Hout1 []) as H0. by rewrite app_nil_r in H0. }
  destruct (is_rez zip_info) eqn:Hrez.
  - unfold carries_payload in Hpay. rewrite Hrez in Hpay.
    destruct Hpay as (m & Hm & Hmdir & Harc).
    destruct (forM (walk_files tmp fs2) (rehome tmp target) fs2)
      as [[[]|e] fsL] eqn:Hloop; [|done].
    destruct (rehome_loop tmp target fs2 (walk_files tmp fs2)
                Htree2 Htmp2 Htne Hout1 Hout2 (fun s H => H) fs2 fsL)
      as [[HaL HbL] HtL]; [|done|].
    { split; [done|]. intros k n _ Hn. by rewrite Hfree2 in Hn. }
    destruct (fsL !! tmp) as [[b1 p1|]|] eqn:HtmpL; try done.
    inversion Hrun; subst fs'. split.
    + rewrite !lookup_prune_outside by done. apply HtL. left.
      destruct (Hkinds m Hm) as (n & Hn & Hkind).
      unfold kind_of_member in Hkind. rewrite Hmdir in Hkind.
      destruct Hkind as (b & p & ->). rewrite <- Hlook2 in Hn.
      assert (Hin : tmp ++ arcname (filename m) ∈ walk_files tmp fs2).
      { apply elem_of_walk_files. split; [by apply prefix_app_r | eauto]. }
      intros Hnil. rewrite Hnil in Hin. by apply elem_of_nil in Hin.
    + intros k n Hk Hn. rewrite !lookup_prune_outside in Hn by apply Hout1.
      apply HbL in Hn; [|done]. rewrite Hlook2 in Hn.
      unfold payload_root. rewrite Hrez. by apply HprovS.
  - unfold carries_payload in Hpay. rewrite Hrez in Hpay.
    destruct Hpay as (m & j & Hm & Harc & Hj).
    assert (Haddon : fs2 !! (tmp ++ ["addon"]) = Some Dir).
    { rewrite Hlook2. destruct (Hkinds m Hm) as (n & Hn & Hkind).
      rewrite Harc in Hn. destruct j as [|x j].
      - destruct Hj as [|Hd]; [done|].
        unfold kind_of_member in Hkind. rewrite Hd in Hkind. by subst.
      - apply (tree_like_ancestor fsS (tmp ++ ["addon"]) (x :: j)); [done|done|].
        rewrite <- app_assoc. exact (mk_is_Some _ _ Hn). }
    destruct (move (tmp ++ ["addon"]) target fs2) as [[[]|e] fs3] eqn:Hmv;
      [|done].
    inversion Hrun; subst fs'.
    pose proof (move_addon_tree tmp target fs2 fs3 Htne Hfree2 Hout1 Haddon Hmv)
      as Hlk.
    split.
    + rewrite lookup_prune_outside by done.
      pose proof (Hlk []) as H0. rewrite app_nil_r in H0. by rewrite H0.
    + intros k n Hk Hn. rewrite lookup_prune_outside in Hn by apply Hout1.
      rewrite Hlk in Hn.
      replace (tmp ++ "addon" :: k) with (tmp ++ ["addon"] ++ k) in Hn by done.
      rewrite Hlook2 in Hn. unfold payload_root. rewrite Hrez.
      apply HprovS; [done | exact Hn].
Qed.

Lemma tree_like_b_sound (fs : FS) : tree_like_b fs = true -> tree_like fs.
Proof.
  unfold tree_like_b. rewrite forallb_forall. intros Hall p x [n Hn].
  apply elem_of_map_to_list, list_elem_of_In in Hn.
  specialize (Hall _ Hn). cbn [fst] in Hall.
  destruct (p ++ [x]) as [|y q] eqn:E; [by destruct p|].
  rewrite <- E, dirname_snoc in Hall. by apply bool_decide_eq_true_1 in Hall.
Qed.

(** C4 as stated fails: it speaks of every install, but what is left at
    the target depends on the archive.  When a standard archive stores
    [addon] as a regular file, the reinstallation completes, the installed
    directory is removed and the file is moved to its place: the target
    is a file, not a directory. *)
Lemma reinstall_can_leave_a_file :
  let fs : FS := <[ ["uploads"; "a.zip"] := File filed_archive 420 ]> installed_files in
  let target := target_path example_root tvpaint_info in
  let run := unpack_addon_sync example_libs example_root ["uploads"; "a.zip"]
               tvpaint_info ["tmpdir"] fs in
  tree_like fs
  /\ fs !! target = Some Dir
  /\ fs !! (target ++ ["old.py"]) = Some (File "old" 420)
  /\ run.1 = Ok tt
  /\ run.2 !! target = Some (File "hello" 420)
  /\ run.2 !! (target ++ ["old.py"]) = None.
Proof.
  split; [apply tree_like_b_sound; vm_compute; reflexivity|].
  vm_compute. repeat split; reflexivity.
Qed.

Lemma reinstall_replaces_content_witness :
  let target := target_path example_root tvpaint_info in
  let run := unpack_addon_sync example_libs example_root ["uploads"; "a.zip"]
               tvpaint_info ["tmpdir"] installed_files in
  tree_like installed_files
  /\ installed_files !! (target ++ ["old.py"]) = Some (File "old" 420)
  /\ run.1 = Ok tt
  /\ run.2 !! target = Some Dir
  /\ run.2 !! (target ++ ["old.py"]) = None
  /\ forall k n, k <> [] -> run.2 !! (target ++ k) = Some n ->
       exists m, m ∈ [mkMember "addon/a.py" "x=1" 2175008768;
                      mkMember "addon/" EmptyString 0]
                 /\ ("addon" :: k) `prefix_of` arcname (filename m).
Proof.
  intros target run.
  assert (Htree : tree_like installed_files)
    by (apply tree_like_b_sound; vm_compute; reflexivity).
  destruct run as [res fs'] eqn:Hrun.
  assert (Hres : res = Ok tt).
  { change res with (res, fs').1. rewrite <- Hrun. vm_compute. reflexivity. }
  subst res.
  assert (Hold : fs' !! (target ++ ["old.py"]) = None).
  { change fs' with (Ok tt, fs').2. rewrite <- Hrun. vm_compute. reflexivity. }
  destruct (reinstall_replaces_content example_libs example_root
              ["uploads"; "a.zip"] tvpaint_info ["tmpdir"] installed_files fs'
              tvpaint_archive 420 tvpaint_members)
    as [Hdir Hprov].
  - exact Htree.
  - vm_compute. reflexivity.
  - vm_compute. reflexivity.
  - exists (mkMember "addon/" EmptyString 0), []. split; [|split].
    + right. left.
    + vm_compute. reflexivity.
    + right. reflexivity.
  - vm_compute. reflexivity.
  - exact Hrun.
  - split; [exact Htree|]. split; [vm_compute; reflexivity|].
    split; [reflexivity|]. split; [exact Hdir|]. split; [exact Hold|].
    intros k n Hk Hn. destruct (Hprov k n Hk Hn) as [(m & Hm & Hpre) _].
    exists m. split; [|exact Hpre].
    apply elem_of_cons in Hm as [->|Hm].
    { exfalso. vm_compute in Hpre. destruct Hpre as [j Hj]. discriminate. }
    apply elem_of_cons in Hm as [->|Hm]; [right; left|].
    apply elem_of_cons in Hm as [->|Hm]; [left|].
    destruct (proj1 (elem_of_nil _) Hm).
Defined.

(** ** The scenarios of the specification, run on the model *)

Example package_py_is_read :
  get_addon_info_from_package_py (quoted "name = 'foo'
version = '1.2.3'")
  = Ok (mkAddonZipInfo "foo" "1.2.3" "1.0.3" None true).
Proof. vm_compute. reflexivity. Qed.

Example install_creates_version_directory :
  let run := install_addon_from_url example_libs "1.1.0" example_root
               (serve 200 tvpaint_archive) ["tmpzip"] ["tmpdir"]
               "job" "http://host/a.zip" example_world in
  run.1 = Ok tt
  /\ files run.2 !! ["addons"; "tvpaint"; "1.0.0"] = Some Dir
  /\ files run.2 !! ["addons"; "tvpaint"; "1.0.0"; "a.py"]
     = Some (File "x=1" 33188)
  /\ files run.2 !! ["addons"; "tmpzip"] = None
  /\ files run.2 !! ["addons"; "tmpdir"] = None
  /\ size (files run.2) = 5%nat.
Proof. vm_compute. repeat split; reflexivity. Qed.

Example install_rez_package :
  let body := quoted "PK;package.py|0|name = 'foo'
version = '1.0.0';client/a.py|0|x=1;server/|0|" in
  let run := install_addon_from_url example_libs "1.1.0" example_root
               (serve 200 body) ["tmpzip"] ["tmpdir"]
               "job" "http://host/a.zip" example_world in
  run.1 = Ok tt
  /\ files run.2 !! ["addons"; "foo"; "1.0.0"; "client"; "a.py"]
     = Some (File "x=1" 420)
  /\ files run.2 !! ["addons"; "foo"; "1.0.0"; "server"] = None
  /\ size (files run.2) = 7%nat.
Proof. vm_compute. repeat split; reflexivity. Qed.

(** * Further properties of the installer *)

(** ** [unpack_addon] *)

(** X1.  [unpack_addon] never raises, whatever [unpack_addon_sync] and
    the removal of the archive do.  Its events are the unpacking event,
    then the failed event exactly when [unpack_addon_sync] raised, then
    the finished event. *)
Theorem unpack_addon_always_returns (L : Libs) (addons_dir : list string)
    (event_id : string) (zip_path : list string) (zip_info : AddonZipInfo)
    (dir_names : list string) (w : World) :
  let run := unpack_addon L addons_dir event_id zip_path zip_info dir_names w in
  let sync := unpack_addon_sync L addons_dir zip_path zip_info dir_names (files w) in
  run.1 = Ok tt
  /\ events run.2
     = events w
       ++ unpacking_event event_id zip_info
       :: match sync.1 with
          | Ok _ => []
          | Raise e => [unpack_failed_event event_id e]
          end
       ++ [installed_event event_id zip_info].
Proof.
  intros run sync. subst run sync. unfold unpack_addon.
  cbv [bindM update_event try_except on_files retM]. cbn [files events].
  destruct (unpack_addon_sync L addons_dir zip_path zip_info dir_names (files w))
    as [[[]|e] fs']; cbn [fst snd files events];
    destruct (unlink zip_path fs') as [[[]|e'] fs'']; cbn [fst snd files events];
    (split; [reflexivity|]); by rewrite <- !app_assoc.
Qed.

(** ** What the file-system operations leave untouched *)

Lemma untouched_ret {A} (P : list string -> Prop) (a : A) : untouched P (retM a).
Proof. by intros fs q _. Qed.

Lemma untouched_get (P : list string -> Prop) : untouched P getM.
Proof. by intros fs q _. Qed.

Lemma untouched_liftR {A} (P : list string -> Prop) (r : result A) :
  untouched P (liftR r).
Proof. by intros fs q _. Qed.

Lemma untouched_weaken {A} (P Q : list string -> Prop) (m : M FS A) :
  (forall q, P q -> Q q) -> untouched Q m -> untouched P m.
Proof. intros HPQ Hm fs q HP. by apply Hm, HPQ. Qed.

Lemma untouched_bind_val {A B : Type} (P : list string -> Prop) (R : A -> Prop)
    (m : M FS A) (k : A -> M FS B) :
  untouched P m ->
  (forall fs a fs', m fs = (Ok a, fs') -> R a) ->
  (forall a, R a -> untouched P (k a)) ->
  untouched P (bindM m k).
Proof.
  intros Hm HR Hk fs q HP. unfold bindM.
  specialize (Hm fs q HP). specialize (HR fs).
  destruct (m fs) as [[a|e] fs1]; cbn [fst snd] in *; [|done].
  rewrite <- Hm. apply Hk; [by eapply HR | done].
Qed.

Lemma untouched_bind {A B : Type} (P : list string -> Prop) (m : M FS A)
    (k : A -> M FS B) :
  untouched P m -> (forall a, untouched P (k a)) -> untouched P (bindM m k).
Proof.
  intros Hm Hk. apply (untouched_bind_val P (fun _ => True)); auto.
Qed.

Lemma untouched_if {A} (P : list string -> Prop) (b : bool) (m1 m2 : M FS A) :
  untouched P m1 -> untouched P m2 -> untouched P (if b then m1 else m2).
Proof. by destruct b. Qed.

Lemma untouched_forM {A} (P : list string -> Prop) (xs : list A)
    (body : A -> M FS unit) :
  (forall x, x ∈ xs -> untouched P (body x)) -> untouched P (forM xs body).
Proof.
  induction xs as [|x xs IH]; intros Hbody; simpl; [apply untouched_ret|].
  apply untouched_bind; [apply Hbody; by left|].
  intros _. apply IH. intros y Hy. apply Hbody. by right.
Qed.

Lemma prefix_app_cases (q p k : list string) :
  q `prefix_of` p ++ k -> q `prefix_of` p \/ p `prefix_of` q.
Proof.
  intros Hq. apply (prefix_weak_total q p (p ++ k)); [done | by apply prefix_app_r].
Qed.

Lemma not_prefix_dirname_app (p k q : list string) :
  outside p q -> ¬ q `prefix_of` p -> ¬ q `prefix_of` dirname (p ++ k).
Proof.
  intros Hout Hnp Hpre.
  assert (Hq : q `prefix_of` p ++ k) by (etrans; [exact Hpre | apply dirname_prefix]).
  by apply prefix_app_cases in Hq as [|].
Qed.

Lemma makedirs_untouched (p : list string) :
  untouched (fun q => ¬ q `prefix_of` p) (makedirs p).
Proof. intros fs q Hq. by apply makedirs_lookup_other. Qed.

Lemma mkdir_untouched (p : list string) : untouched (fun q => q <> p) (mkdir p).
Proof.
  intros fs q Hne. unfold mkdir.
  destruct (fs !! p); [done|]. destruct (parent_error fs p); [done|].
  cbn [snd]. by rewrite lookup_insert_ne.
Qed.

Lemma write_file_untouched (p : list string) (bytes : string) (perm : Z) :
  untouched (fun q => q <> p) (write_file p bytes perm).
Proof.
  intros fs q Hne. unfold write_file.
  destruct (fs !! p) as [[b m|]|]; cbn [snd]; [by rewrite lookup_insert_ne | done |].
  destruct (parent_error fs p); cbn [snd]; [done | by rewrite lookup_insert_ne].
Qed.

Lemma chmod_untouched (p : list string) (mode : Z) :
  untouched (fun q => q <> p) (chmod p mode).
Proof.
  intros fs q Hne. unfold chmod.
  destruct (fs !! p) as [[b m|]|]; cbn [snd]; [by rewrite lookup_insert_ne | done | done].
Qed.

Lemma rmtree_untouched (p : list string) : untouched (outside p) (rmtree p).
Proof.
  intros fs q Hout. unfold rmtree.
  destruct (fs !! p) as [[b m|]|]; cbn [snd];
    [done | by rewrite lookup_prune_outside | done].
Qed.

Lemma move_untouched (src dst : list string) :
  untouched (fun q => outside src q /\ outside dst q /\ ¬ q `prefix_of` dst)
            (move src dst).
Proof.
  intros fs q (Hsrc & Hdst & Hnp). unfold move.
  set (real_dst := if isdir fs dst then dst ++ [basename src] else dst).
  assert (Hreal : outside real_dst q).
  { unfold real_dst. destruct (isdir fs dst); [by apply outside_app | done]. }
  assert (Hup : ¬ q `prefix_of` dirname real_dst).
  { unfold real_dst. destruct (isdir fs dst).
    - by rewrite dirname_snoc.
    - intros Hpre. apply Hnp. etrans; [exact Hpre | apply dirname_prefix]. }
  destruct (isdir fs dst && bool_decide (src = dst)); [done|].
  destruct (isdir fs dst && exists_path fs real_dst); [done|].
  destruct (fs !! src) as [[bytes perm|]|] eqn:Hs; [| |done].
  - destruct (parent_error fs real_dst); [done|].
    destruct (fs !! real_dst) as [[b m|]|]; cbn [snd]; try done;
      (rewrite lookup_insert_ne by (intros ->; by apply Hreal));
      by rewrite lookup_delete_ne by (intros ->; by apply Hsrc).
  - destruct (bool_decide (src `prefix_of` real_dst)); [done|].
    destruct (fs !! real_dst); [done|].
    pose proof (makedirs_lookup_other (dirname real_dst) fs q Hup) as Hmk.
    destruct (makedirs (dirname real_dst) fs) as [[[]|e] fs1]; cbn [snd] in *;
      [|exact Hmk].
    rewrite lookup_union_r by by apply lookup_graft_outside.
    by rewrite lookup_prune_outside.
Qed.

Lemma extract_untouched (m : ZipMember) (dest : list string) :
  untouched (fun q => outside dest q /\ ¬ q `prefix_of` dest) (extract m dest).
Proof.
  unfold extract.
  apply untouched_bind; [apply untouched_get|]. intros fs.
  apply untouched_bind.
  { apply untouched_if; [apply untouched_ret|].
    eapply untouched_weaken; [|apply makedirs_untouched].
    intros q [Hout Hnp]. by apply not_prefix_dirname_app. }
  intros _. apply untouched_if.
  - apply untouched_bind; [apply untouched_get|]. intros fs'.
    apply untouched_bind; [|intros; apply untouched_ret].
    apply untouched_if; [apply untouched_ret|].
    eapply untouched_weaken; [|apply mkdir_untouched].
    intros q [Hq _]. by apply outside_app_neq.
  - apply untouched_bind; [|intros; apply untouched_ret].
    eapply untouched_weaken; [|apply write_file_untouched].
    intros q [Hq _]. by apply outside_app_neq.
Qed.

Lemma extract_member_untouched (dest : list string) (m : ZipMember) :
  untouched (fun q => outside dest q /\ ¬ q `prefix_of` dest)
            (extract_member dest m).
Proof.
  unfold extract_member.
  eapply (untouched_bind_val _ (fun a => a = dest ++ arcname (filename m))).
  - apply extract_untouched.
  - intros fs a fs'. apply extract_returns.
  - intros a ->. apply untouched_if; [apply untouched_ret|].
    eapply untouched_weaken; [|apply chmod_untouched].
    intros q [Hq _]. by apply outside_app_neq.
Qed.

Lemma rehome_untouched (tmpdirname target_dir source_file : list string) :
  untouched (fun q => outside source_file q /\ outside target_dir q
                      /\ ¬ q `prefix_of` target_dir)
            (rehome tmpdirname target_dir source_file).
Proof.
  unfold rehome. apply untouched_bind.
  - eapply untouched_weaken; [|apply makedirs_untouched].
    intros q (_ & Hout & Hnp). by apply not_prefix_dirname_app.
  - intros _. eapply untouched_weaken; [|apply move_untouched].
    intros q (Hs & Ht & Hnp). split; [done|]. split; [by apply outside_app|].
    intros Hpre. by apply prefix_app_cases in Hpre as [|].
Qed.

(** [unpack_addon_sync] on a tree-shaped file system changes nothing
    except at the target directory, below it and above it, whether it
    returns or raises. *)
Lemma unpack_addon_sync_changes (L : Libs) (addons_dir zip_path : list string)
    (zip_info : AddonZipInfo) (dir_names : list string) (fs : FS)
    (q : list string) :
  tree_like fs ->
  outside (target_path addons_dir zip_info) q ->
  ¬ q `prefix_of` target_path addons_dir zip_info ->
  (unpack_addon_sync L addons_dir zip_path zip_info dir_names fs).2 !! q = fs !! q.
Proof.
  intros Htree Hout Hnp. unfold unpack_addon_sync, bindM at 1.
  assert (Hnroot : ¬ q `prefix_of` addons_dir).
  { intros Hpre. apply Hnp. etrans; [exact Hpre|]. by apply prefix_app_r. }
  pose proof (makedirs_lookup_other addons_dir fs q Hnroot) as Hq1.
  assert (Hkeep : forall p, (makedirs addons_dir fs).2 !! p = None -> fs !! p = None).
  { intros p Hp. destruct (fs !! p) as [n'|] eqn:E; [|done].
    by rewrite (makedirs_preserves addons_dir fs _ n' I E) in Hp. }
  destruct (makedirs addons_dir fs) as [[[]|e] fs1]; cbn [fst snd] in *; [|done].
  rewrite <- Hq1.
  unfold with_temporary_directory, mkdtemp.
  destruct (fs1 !! addons_dir) as [[b perm|]|]; cbn [snd]; try done.
  destruct (pick_fresh fs1 addons_dir dir_names) as [c|] eqn:Hpick;
    cbn [snd]; [|done].
  apply pick_fresh_free in Hpick.
  set (tmpdirname := addons_dir ++ [c]) in *.
  destruct (decide (tmpdirname `prefix_of` q)) as [[k ->]|Htmp].
  { match goal with
    | |- (let '(_, _) := ?body ?fs0 in _).2 !! _ = _ =>
        destruct (body fs0) as [r fs2]
    end.
    cbn [snd]. rewrite lookup_prune_below by (by apply prefix_app_r).
    rewrite Hq1. symmetry. apply tree_like_absent_below; [done|]. by apply Hkeep. }
  assert (Hntmp : ¬ q `prefix_of` tmpdirname).
  { intros Hpre. apply prefix_app_cases in Hpre as Hc.
    destruct Hc as [Hc|[j ->]]; [done|].
    apply prefix_app_inv in Hpre. destruct j as [|x j].
    - apply Hnroot. by rewrite app_nil_r.
    - apply prefix_cons_inv_1 in Hpre as Hx. apply prefix_cons_inv_2 in Hpre.
      apply prefix_nil_inv in Hpre. subst. by apply Htmp. }
  match goal with
  | |- (let '(_, _) := ?body ?fs0 in _).2 !! _ = _ =>
      assert (Hbody : (body fs0).2 !! q = fs0 !! q)
  end.
  2:{ match goal with
      | |- (let '(_, _) := ?body ?fs0 in _).2 !! _ = _ =>
          destruct (body fs0) as [r fs2]
      end.
      cbn [snd] in *. rewrite lookup_prune_outside by done. rewrite Hbody.
      apply lookup_insert_ne. intros Heq. apply Htmp. by rewrite Heq. }
  set (target := target_path addons_dir zip_info) in *.
  assert (Hun : untouched
            (fun q => outside tmpdirname q /\ ¬ q `prefix_of` tmpdirname
                      /\ outside target q /\ ¬ q `prefix_of` target)
            (fun fs0 =>
               (fs0' <~ getM ;;
                members <~ liftR (open_zip L fs0' zip_path) ;;
                forM members (extract_member tmpdirname) ;;;
                fs1' <~ getM ;;
                (if isdir fs1' target then rmtree target else retM tt) ;;;
                if is_rez zip_info
                then
                  fs2 <~ getM ;;
                  forM (walk_files tmpdirname fs2) (rehome tmpdirname target) ;;;
                  rmtree tmpdirname
                else
                  move (tmpdirname ++ ["addon"]) target) fs0)).
  { apply untouched_bind; [apply untouched_get|]. intros fs0.
    apply untouched_bind; [apply untouched_liftR|]. intros members.
    apply untouched_bind.
    { apply untouched_forM. intros m _.
      eapply untouched_weaken; [|apply extract_member_untouched].
      by intros ? (? & ? & _). }
    intros _. apply untouched_bind; [apply untouched_get|]. intros fs1'.
    apply untouched_bind.
    { apply untouched_if; [|apply untouched_ret].
      eapply untouched_weaken; [|apply rmtree_untouched]. by intros ? (_ & _ & ? & _). }
    intros _. apply untouched_if.
    - apply untouched_bind; [apply untouched_get|]. intros fs2.
      apply untouched_bind.
      + apply untouched_forM. intros src Hsrc.
        apply elem_of_walk_files in Hsrc as [Hpre _].
        eapply untouched_weaken; [|apply rehome_untouched].
        intros q' (H1 & _ & H2 & H3). split; [by eapply outside_trans | done].
      + intros _. eapply untouched_weaken; [|apply rmtree_untouched].
        by intros ? [].
    - eapply untouched_weaken; [|apply move_untouched].
      intros q' (H1 & _ & H2 & H3). split; [by apply outside_app | done]. }
  by apply Hun.
Qed.

(** ** Frame of an installation *)

(** X2.  Installing one version leaves every other version directory of
    every addon exactly as it was, content included, whether
    [unpack_addon_sync] returns or raises.  The names and versions are
    plain path components (not empty, neither [.] nor [..], without a
    separator), so that [os.path.join] appends them as they are: then no
    node below another name/version pair of the install root is changed,
    created or removed. *)
Theorem other_versions_untouched (L : Libs) (addons_dir zip_path : list string)
    (zip_info : AddonZipInfo) (dir_names : list string) (fs : FS)
    (other_name other_version : string) (k : list string) :
  tree_like fs ->
  plain_component (name zip_info) = true ->
  plain_component (version zip_info) = true ->
  plain_component other_name = true ->
  plain_component other_version = true ->
  (other_name, other_version) <> (name zip_info, version zip_info) ->
  (unpack_addon_sync L addons_dir zip_path zip_info dir_names fs).2
    !! (addons_dir ++ [other_name; other_version] ++ k)
  = fs !! (addons_dir ++ [other_name; other_version] ++ k).
Proof.
  intros Htree _ _ _ _ Hne. apply unpack_addon_sync_changes; [done| |].
  - intros [j Hj]. unfold target_path in Hj. rewrite <- app_assoc in Hj.
    apply app_inv_head in Hj. simpl in Hj. inversion Hj; subst. done.
  - intros [j Hj]. unfold target_path in Hj. rewrite <- app_assoc in Hj.
    apply app_inv_head in Hj. simpl in Hj. inversion Hj; subst. done.
Qed.

Lemma other_versions_untouched_witness :
  let run := unpack_addon_sync example_libs example_root ["uploads"; "a.zip"]
               (mkAddonZipInfo "tvpaint" "1.0.1" "1.0.0" (Some "1.2.0") false)
               ["tmpdir"] installed_files in
  run.1 = Ok tt
  /\ run.2 !! ["addons"; "tvpaint"; "1.0.1"; "a.py"] = Some (File "x=1" 33188)
  /\ run.2 !! (example_root ++ ["tvpaint"; "1.0.0"] ++ ["old.py"])
     = Some (File "old" 420).
Proof.
  split; [vm_compute; reflexivity|]. split; [vm_compute; reflexivity|].
  rewrite (other_versions_untouched example_libs example_root ["uploads"; "a.zip"]
             (mkAddonZipInfo "tvpaint" "1.0.1" "1.0.0" (Some "1.2.0") false)
             ["tmpdir"] installed_files "tvpaint" "1.0.0" ["old.py"]).
  - vm_compute. reflexivity.
  - apply tree_like_b_sound. vm_compute. reflexivity.
  - vm_compute. reflexivity.
  - vm_compute. reflexivity.
  - vm_compute. reflexivity.
  - vm_compute. reflexivity.
  - intros H. inversion H.
Defined.





(** ** Descriptors that [get_addon_zip_info] returns *)

(** A descriptor the loop produced was read by one of the listed parsers
    from an entry of the archive. *)
Lemma parse_loop_some (members : list ZipMember)
    (parsers : list (string * (string -> result AddonZipInfo)))
    (zip_info : AddonZipInfo) :
  (parse_loop members parsers).2 = Ok (Some zip_info) ->
  exists nm parser manifest,
    (nm, parser) ∈ parsers /\ nm ∈ namelist members
    /\ read_text members nm = Ok manifest /\ parser manifest = Ok zip_info.
Proof.
  induction parsers as [|[nm0 p0] parsers IH]; simpl; [discriminate|].
  case_bool_decide as Hin.
  - cbn [snd]. destruct (read_text members nm0) as [manifest|] eqn:Hread;
      [|discriminate].
    cbn [mbind result_bind].
    destruct (p0 manifest) as [zi|] eqn:Hp; [|discriminate].
    cbn [mbind result_bind mret result_ret]. intros [= ->].
    exists nm0, p0, manifest. split; [by left | done].
  - intros H. destruct (IH H) as (nm & parser & manifest & Hel & Hrest).
    exists nm, parser, manifest. split; [by right | done].
Qed.

Lemma manifest_bounds (L : Libs) (manifest_data : string) (d : AddonZipInfo) :
  get_addon_info_from_manifest L manifest_data = Ok d -> standard_bounds d.
Proof.
  unfold get_addon_info_from_manifest.
  destruct (json_loads L manifest_data) as [doc|]; [|discriminate]. simpl.
  destruct (py_get doc "addon_name") as [a|]; [|discriminate]. simpl.
  destruct (truthy a); simpl; [|discriminate].
  destruct (py_get doc "addon_version") as [b|]; [|discriminate]. simpl.
  destruct (truthy b); simpl; [|discriminate].
  destruct (py_get doc "name") as [n|]; [|discriminate]. simpl.
  destruct (py_get doc "version") as [v|]; [|discriminate]. simpl.
  unfold make_zip_info.
  destruct (str_validator n); [|discriminate].
  destruct (str_validator v); [|discriminate].
  by intros [= <-].
Qed.

Lemma package_yaml_bounds (L : Libs) (manifest_data : string) (d : AddonZipInfo) :
  get_addon_info_from_package_yaml L manifest_data = Ok d -> rez_bounds d.
Proof.
  intros H. pose proof (package_yaml_nonempty L manifest_data d H) as [Hn Hv].
  revert H. unfold get_addon_info_from_package_yaml.
  destruct (yaml_safe_load L manifest_data) as [doc|]; [|discriminate]. simpl.
  destruct (py_get doc "name") as [a|]; [|discriminate]. simpl.
  destruct (truthy a); simpl; [|discriminate].
  destruct (py_get doc "version") as [b|]; [|discriminate]. simpl.
  destruct (truthy b); simpl; [|discriminate].
  unfold make_zip_info.
  destruct (str_validator a); [|discriminate].
  destruct (str_validator b); [|discriminate].
  intros [= <-]. by repeat split.
Qed.

Lemma package_py_bounds (manifest_data : string) (d : AddonZipInfo) :
  get_addon_info_from_package_py manifest_data = Ok d -> rez_bounds d.
Proof.
  intros H. pose proof (package_py_nonempty manifest_data d H) as [Hn Hv].
  revert H. unfold get_addon_info_from_package_py.
  destruct (re_search_assignment (chars "name") (chars manifest_data)) as [n|];
    [|discriminate].
  destruct (re_search_assignment (chars "version") (chars manifest_data)) as [v|];
    [|discriminate].
  simpl. destruct (nonempty (text n) && nonempty (text v)); [|discriminate].
  intros [= <-]. by repeat split.
Qed.

(** X5.  Every descriptor [get_addon_zip_info] returns has passed the
    version check and has the bounds its format fixes: one read from
    [manifest.json] is not a rez package and admits the platform versions
    from 1.0.0 up to, not including, 1.2.0; one read from a package file
    is a rez package with a non-empty name and version and admits the
    platform versions from 1.0.3 on. *)
Theorem accepted_descriptor_bounds (L : Libs) (ayon_version : string) (fs : FS)
    (p : list string) (d : AddonZipInfo) :
  get_addon_zip_info L ayon_version fs p = Ok d ->
  in_range ayon_version d
  /\ ((standard_bounds d /\ version_le "1.0.0" ayon_version
       /\ version_lt ayon_version "1.2.0")
      \/ (rez_bounds d /\ version_le "1.0.3" ayon_version)).
Proof.
  unfold get_addon_zip_info.
  destruct (open_zip L fs p) as [members|]; [|discriminate].
  cbn [mbind result_bind].
  destruct (parse_loop members (PARSERS L)).2 as [[zi|]|] eqn:Hloop;
    cbn [mbind result_bind]; try discriminate.
  intros Hcheck.
  assert (Hbounds : standard_bounds zi \/ rez_bounds zi).
  { apply parse_loop_some in Hloop as (nm & parser & manifest & Hel & _ & _ & Hp).
    unfold PARSERS in Hel.
    apply elem_of_cons in Hel as [[= -> ->]|Hel];
      [left; by eapply manifest_bounds|].
    apply elem_of_cons in Hel as [[= -> ->]|Hel];
      [right; by eapply package_yaml_bounds|].
    apply elem_of_cons in Hel as [[= -> ->]|Hel];
      [right; by eapply package_yaml_bounds|].
    apply elem_of_cons in Hel as [[= -> ->]|Hel];
      [right; by eapply package_py_bounds|].
    by apply elem_of_nil in Hel. }
  assert (Hp : is_Some (parse_version ayon_version)).
  { destruct (parse_version ayon_version) as [v|] eqn:Hv; [by eexists|].
    unfold check_ayon_version, semver_compare in Hcheck.
    rewrite Hv in Hcheck. discriminate. }
  assert (Hwf : well_formed_bounds zi).
  { unfold well_formed_bounds.
    destruct Hbounds as [(_ & -> & ->) | (_ & -> & -> & _)];
      repeat split; eexists; reflexivity. }
  destruct (check_ayon_version_cases ayon_version zi Hp Hwf)
    as [[Hin Hok] | [_ Hbad]]; [|congruence].
  rewrite Hok in Hcheck. inversion Hcheck; subst d. split; [exact Hin|].
  destruct Hin as [Hmin Hmax].
  destruct Hbounds as [Hs | Hr].
  - left. split; [exact Hs|]. destruct Hs as (_ & Hlo & Hhi).
    rewrite Hlo in Hmin. rewrite Hhi in Hmax. done.
  - right. split; [exact Hr|]. destruct Hr as (_ & Hlo & _).
    by rewrite Hlo in Hmin.
Qed.

Lemma accepted_descriptor_bounds_witness :
  let fs : FS := {[ ["uploads"; "a.zip"] := File tvpaint_archive 420 ]} in
  get_addon_zip_info example_libs "1.1.0" fs ["uploads"; "a.zip"] = Ok tvpaint_info
  /\ in_range "1.1.0" tvpaint_info
  /\ version_lt "1.1.0" "1.2.0".
Proof.
  assert (H : get_addon_zip_info example_libs "1.1.0"
                {[ ["uploads"; "a.zip"] := File tvpaint_archive 420 ]}
                ["uploads"; "a.zip"] = Ok tvpaint_info)
    by (vm_compute; reflexivity).
  split; [exact H|].
  destruct (accepted_descriptor_bounds example_libs "1.1.0" _ _ _ H)
    as [Hin [(_ & _ & Hlt) | ((Hrez & _) & _)]].
  - split; [exact Hin | exact Hlt].
  - discriminate Hrez.
Defined.

(** X6.  An archive that holds none of the four entries [manifest.json],
    [package.yaml], [package.yml] and [package.py] at its top level is
    refused as an unsupported format, whatever else it holds and whatever
    the platform version is. *)
Theorem archive_without_manifest_refused (L : Libs) (ayon_version : string)
    (fs : FS) (p : list string) (members : list ZipMember) :
  open_zip L fs p = Ok members ->
  "manifest.json" ∉ namelist members ->
  "package.yaml" ∉ namelist members ->
  "package.yml" ∉ namelist members ->
  "package.py" ∉ namelist members ->
  get_addon_zip_info L ayon_version fs p
  = Raise (UnsupportedAddonException "Unsupported addon format").
Proof.
  intros Hopen H1 H2 H3 H4. unfold get_addon_zip_info. rewrite Hopen.
  cbn [mbind result_bind]. rewrite (parse_loop_none members (PARSERS L)); [done|].
  intros e He. unfold PARSERS in He.
  repeat (apply elem_of_cons in He as [->|He]; [done|]).
  by apply elem_of_nil in He.
Qed.

Lemma archive_without_manifest_refused_witness :
  let fs : FS := {[ ["uploads"; "a.zip"] :=
                     File "PK;readme.txt|0|hello;sub/manifest.json|0|{}" 420 ]} in
  get_addon_zip_info example_libs "1.1.0" fs ["uploads"; "a.zip"]
  = Raise (UnsupportedAddonException "Unsupported addon format").
Proof.
  apply (archive_without_manifest_refused example_libs "1.1.0" _ _
           [mkMember "readme.txt" "hello" 0;
            mkMember "sub/manifest.json" "{}" 0]).
  - vm_compute. reflexivity.
  - intros H. by repeat (apply elem_of_cons in H as [H|H]; [discriminate H|]);
      apply elem_of_nil in H.
  - intros H. by repeat (apply elem_of_cons in H as [H|H]; [discriminate H|]);
      apply elem_of_nil in H.
  - intros H. by repeat (apply elem_of_cons in H as [H|H]; [discriminate H|]);
      apply elem_of_nil in H.
  - intros H. by repeat (apply elem_of_cons in H as [H|H]; [discriminate H|]);
      apply elem_of_nil in H.
Defined.

(** ** Modes of extracted files *)

(** A file member that is extracted leaves a file with the member's
    data; its mode is the stored one when that is not zero. *)
Lemma extract_file_node (dest : list string) (m : ZipMember) (fs fs' : FS) :
  extract_member dest m fs = (Ok tt, fs') ->
  member_is_dir m = false ->
  fs' !! (dest ++ arcname (filename m))
  = Some (File (data m)
            (if original_mode m =? 0
             then match fs !! (dest ++ arcname (filename m)) with
                  | Some (File _ perm) => perm
                  | _ => default_perm
                  end
             else original_mode m)).
Proof.
  unfold extract_member, bindM, original_mode. intros Hrun Hdir.
  set (tp := dest ++ arcname (filename m)) in *.
  destruct (extract m dest fs) as [[a|e] fsB] eqn:Hex; [|done].
  pose proof (extract_returns _ _ _ _ _ Hex) as ->. fold tp in Hrun.
  apply extract_ok in Hex as (fsA & HA & HB). cbv zeta in *. fold tp in HA, HB.
  rewrite Hdir in HB.
  assert (Hsame : fsA !! tp = fs !! tp).
  { destruct HA as [->|Hmk]; [done|].
    destruct (snoc_cases tp) as [Hnil|(pre & c & Hsnoc)].
    - rewrite Hnil in Hmk. by inversion Hmk.
    - pose proof (makedirs_lookup_other (dirname tp) fs tp) as H.
      rewrite Hmk in H. apply H. rewrite Hsnoc, dirname_snoc.
      intros Hpre. apply prefix_length in Hpre. rewrite length_app in Hpre.
      simpl in Hpre. lia. }
  assert (HfsB : fsB !! tp
                 = Some (File (data m)
                           match fs !! tp with
                           | Some (File _ perm) => perm
                           | _ => default_perm
                           end)).
  { unfold write_file in HB. rewrite Hsame in HB.
    destruct (fs !! tp) as [[b0 p0|]|].
    - inversion HB; subst. apply lookup_insert_eq.
    - discriminate.
    - destruct (parent_error fsA tp); [discriminate|].
      inversion HB; subst. apply lookup_insert_eq. }
  destruct (Z.shiftr (external_attr m) 16 =? 0).
  - by inversion Hrun; subst.
  - unfold chmod in Hrun. rewrite HfsB in Hrun. inversion Hrun; subst.
    apply lookup_insert_eq.
Qed.

(** X7.  A member that is extracted leaves a node of its kind at its
    path below the destination: a directory for a directory member, and
    for a file member a file with the member's data.  The permission bits
    of the file (the low nine bits of its mode) are those of the mode
    stored in the archive when that mode is not zero; when it is zero and
    a file was there before, they are those of that file.  Nothing is
    said of the file-type bits of the stored mode, which [os.chmod] does
    not keep, nor of the mode of a new file when the stored mode is
    zero, which depends on the process. *)
Theorem extract_member_sets_mode (dest : list string) (m : ZipMember)
    (fs fs' : FS) :
  extract_member dest m fs = (Ok tt, fs') ->
  if member_is_dir m
  then fs' !! (dest ++ arcname (filename m)) = Some Dir
  else exists perm,
      fs' !! (dest ++ arcname (filename m)) = Some (File (data m) perm)
      /\ (original_mode m <> 0 ->
          permission_bits perm = permission_bits (original_mode m))
      /\ (original_mode m = 0 ->
          forall b p, fs !! (dest ++ arcname (filename m)) = Some (File b p) ->
                      permission_bits perm = permission_bits p).
Proof.
  intros Hrun. destruct (member_is_dir m) eqn:Hdir.
  2:{ pose proof (extract_file_node dest m fs fs' Hrun Hdir) as Hnode.
      eexists. split; [exact Hnode|]. split.
      - intros Hnz. apply Z.eqb_neq in Hnz. by rewrite Hnz.
      - intros Hz b p Hold. apply Z.eqb_eq in Hz. by rewrite Hz, Hold. }
  apply extract_member_ok in Hrun as (fsB & Hex & Hch). cbv zeta in *.
  apply extract_ok in Hex as (fsA & _ & HB). cbv zeta in HB. rewrite Hdir in HB.
  assert (HfsB : fsB !! (dest ++ arcname (filename m)) = Some Dir).
  { destruct HB as [[-> H]|Hmk]; [done|].
    apply mkdir_ok in Hmk as (-> & _ & _). apply lookup_insert_eq. }
  destruct Hch as [->|Hch]; [done|].
  unfold chmod in Hch. rewrite HfsB in Hch. by inversion Hch; subst.
Qed.

Lemma extract_member_sets_mode_witness :
  let m := mkMember "a.py" "x=1" 2175008768 in
  let fs : FS := {[ [] := Dir; ["tmp"] := Dir ]} in
  (extract_member ["tmp"] m fs).1 = Ok tt
  /\ exists perm,
       (extract_member ["tmp"] m fs).2 !! ["tmp"; "a.py"] = Some (File "x=1" perm)
       /\ permission_bits perm = 420.
Proof.
  split; [vm_compute; reflexivity|].
  destruct (extract_member ["tmp"] (mkMember "a.py" "x=1" 2175008768)
              {[ [] := Dir; ["tmp"] := Dir ]}) as [res fs'] eqn:Hrun.
  assert (Hres : res = Ok tt).
  { change res with (res, fs').1. rewrite <- Hrun. vm_compute. reflexivity. }
  subst res.
  pose proof (extract_member_sets_mode ["tmp"] (mkMember "a.py" "x=1" 2175008768)
                {[ [] := Dir; ["tmp"] := Dir ]} fs' Hrun) as H.
  change (member_is_dir (mkMember "a.py" "x=1" 2175008768)) with false in H.
  destruct H as (perm & Hnode & Hmode & _).
  exists perm. split; [exact Hnode|].
  rewrite Hmode; [reflexivity | discriminate].
Defined.

(** ** The pattern search of [get_addon_info_from_package_py] *)

Lemma strip_prefix_Some (p l r : list ascii) :
  strip_prefix p l = Some r -> l = p ++ r.
Proof.
  revert l. induction p as [|a p IH]; intros l; simpl; [by intros [= ->]|].
  destruct l as [|b l]; [discriminate|].
  destruct (Ascii.eqb a b) eqn:E; [|discriminate].
  apply Ascii.eqb_eq in E as ->. intros H. by rewrite (IH l H).
Qed.

Lemma strip_prefix_app (p r : list ascii) : strip_prefix p (p ++ r) = Some r.
Proof.
  induction p as [|a p IH]; simpl; [done|]. by rewrite Ascii.eqb_refl.
Qed.

Lemma skip_spaces_split (l : list ascii) :
  exists ws, all_spaces ws /\ l = ws ++ skip_spaces l.
Proof.
  induction l as [|c l (ws & Hws & Hl)]; [by exists []|]. simpl.
  destruct (is_space c) eqn:E.
  - exists (c :: ws). split; [|simpl; by f_equal].
    unfold all_spaces. simpl. by rewrite E.
  - by exists [].
Qed.

Lemma skip_spaces_app (ws : list ascii) (c : ascii) (l : list ascii) :
  all_spaces ws -> is_space c = false -> skip_spaces (ws ++ c :: l) = c :: l.
Proof.
  unfold all_spaces. intros Hws Hc.
  induction ws as [|w ws IH]; simpl in *; [by rewrite Hc|].
  apply andb_true_iff in Hws as [Hw Hws]. rewrite Hw. by apply IH.
Qed.

Lemma span_unquoted_split (l g r : list ascii) :
  span_unquoted l = (g, r) ->
  l = g ++ r /\ (dquote ∉ g) /\ (forall q r', r = q :: r' -> q = dquote).
Proof.
  revert g r. induction l as [|c l IH]; intros g r; simpl.
  - intros [= <- <-]. split; [done|]. split; [apply not_elem_of_nil | done].
  - destruct (Ascii.eqb c dquote) eqn:E.
    + intros [= <- <-]. split; [done|]. split; [apply not_elem_of_nil|].
      intros q r' [= <- _]. by apply Ascii.eqb_eq.
    + destruct (span_unquoted l) as [g0 r0]. intros [= <- <-].
      destruct (IH g0 r0 eq_refl) as (-> & Hg & Hr).
      split; [done|]. split; [|done].
      apply not_elem_of_cons. split; [|done].
      intros <-. by rewrite Ascii.eqb_refl in E.
Qed.

Lemma span_unquoted_app (g rest : list ascii) :
  dquote ∉ g -> span_unquoted (g ++ dquote :: rest) = (g, dquote :: rest).
Proof.
  induction g as [|c g IH]; intros Hg; simpl.
  - done.
  - apply not_elem_of_cons in Hg as [Hc Hg].
    destruct (Ascii.eqb c dquote) eqn:E.
    + apply Ascii.eqb_eq in E. congruence.
    + by rewrite IH.
Qed.

(** A match at the head of the text has the shape of the pattern. *)
Lemma match_assignment_sound (key l g : list ascii) :
  match_assignment key l = Some g ->
  g <> [] /\ (dquote ∉ g)
  /\ exists ws1 ws2 rest,
       all_spaces ws1 /\ all_spaces ws2 /\ l = assignment_text key ws1 ws2 g rest.
Proof.
  unfold match_assignment.
  destruct (strip_prefix key l) as [r1|] eqn:H1; [|discriminate].
  apply strip_prefix_Some in H1 as ->.
  destruct (skip_spaces_split r1) as (ws1 & Hws1 & Hr1).
  destruct (skip_spaces r1) as [|eq r2]; [discriminate|].
  destruct (Ascii.eqb eq "=") eqn:Heq; [|discriminate].
  apply Ascii.eqb_eq in Heq as ->.
  destruct (skip_spaces_split r2) as (ws2 & Hws2 & Hr2).
  destruct (skip_spaces r2) as [|q r3]; [discriminate|].
  destruct (Ascii.eqb q dquote) eqn:Hq; [|discriminate].
  apply Ascii.eqb_eq in Hq as ->.
  destruct (span_unquoted r3) as [g0 r4] eqn:Hspan.
  apply span_unquoted_split in Hspan as (-> & Hg & Hr).
  destruct g0 as [|c g0]; [discriminate|].
  destruct r4 as [|q' r5]; [discriminate|].
  intros [= <-]. rewrite (Hr q' r5 eq_refl) in *.
  split; [done|]. split; [done|].
  exists ws1, ws2, r5. split; [done|]. split; [done|].
  unfold assignment_text. by rewrite Hr1, Hr2.
Qed.

(** Conversely, a text of that shape matches at its head. *)
Lemma match_assignment_complete (key ws1 ws2 g rest : list ascii) :
  all_spaces ws1 -> all_spaces ws2 -> g <> [] -> dquote ∉ g ->
  match_assignment key (assignment_text key ws1 ws2 g rest) = Some g.
Proof.
  intros Hws1 Hws2 Hne Hg. unfold match_assignment, assignment_text.
  rewrite strip_prefix_app.
  rewrite (skip_spaces_app ws1 "=" _ Hws1 eq_refl).
  change (Ascii.eqb "=" "=") with true. cbv iota.
  rewrite (skip_spaces_app ws2 dquote _ Hws2 eq_refl).
  rewrite Ascii.eqb_refl, (span_unquoted_app g rest Hg).
  by destruct g.
Qed.

Lemma re_search_assignment_sound (key l g : list ascii) :
  re_search_assignment key l = Some g ->
  g <> [] /\ (dquote ∉ g) /\ assigned_in key g l.
Proof.
  induction l as [|c l IH]; simpl.
  - destruct (match_assignment key []) as [g0|] eqn:Hm; [|discriminate].
    intros [= ->]. apply match_assignment_sound in Hm
      as (Hne & Hg & ws1 & ws2 & rest & H1 & H2 & Hl).
    split; [done|]. split; [done|]. by exists [], ws1, ws2, rest.
  - destruct (match_assignment key (c :: l)) as [g0|] eqn:Hm.
    + intros [= ->]. apply match_assignment_sound in Hm
        as (Hne & Hg & ws1 & ws2 & rest & H1 & H2 & Hl).
      split; [done|]. split; [done|]. by exists [], ws1, ws2, rest.
    + intros H. destruct (IH H) as (Hne & Hg & pre & ws1 & ws2 & rest & H1 & H2 & ->).
      split; [done|]. split; [done|]. by exists (c :: pre), ws1, ws2, rest.
Qed.

Lemma chars_text (l : list ascii) : chars (text l) = l.
Proof. apply list_ascii_of_string_of_list_ascii. Qed.

(** X8.  For a [package.py] of ASCII text, what
    [get_addon_info_from_package_py] returns stands in the file: the name
    is a literal between double quotes that follows the word name,
    optional white space, an equals sign and optional white space;
    likewise the version after the word version.  Neither holds a double
    quote.  White space is what [\s] matches in ASCII; the other
    characters that [\s] matches in a Python string are outside this
    statement. *)
Theorem package_py_reads_quoted_literals (manifest_data : string)
    (d : AddonZipInfo) :
  ascii_text manifest_data ->
  get_addon_info_from_package_py manifest_data = Ok d ->
  assigned_in (chars "name") (chars (name d)) (chars manifest_data)
  /\ assigned_in (chars "version") (chars (version d)) (chars manifest_data)
  /\ (dquote ∉ chars (name d)) /\ (dquote ∉ chars (version d)).
Proof.
  intros _. unfold get_addon_info_from_package_py.
  destruct (re_search_assignment (chars "name") (chars manifest_data))
    as [n|] eqn:Hn; [|discriminate].
  destruct (re_search_assignment (chars "version") (chars manifest_data))
    as [v|] eqn:Hv; [|discriminate].
  simpl. destruct (nonempty (text n) && nonempty (text v)); [|discriminate].
  intros [= <-]. cbn [name version]. rewrite !chars_text.
  apply re_search_assignment_sound in Hn as (_ & Hqn & Han).
  apply re_search_assignment_sound in Hv as (_ & Hqv & Hav).
  done.
Qed.

Lemma package_py_reads_quoted_literals_witness :
  let manifest_data := quoted "# package
name   =   'foo'
version='1.2.3'" in
  ascii_text manifest_data
  /\ get_addon_info_from_package_py manifest_data
     = Ok (mkAddonZipInfo "foo" "1.2.3" "1.0.3" None true)
  /\ assigned_in (chars "name") (chars "foo") (chars manifest_data)
  /\ (dquote ∉ chars "foo").
Proof.
  assert (H : get_addon_info_from_package_py (quoted "# package
name   =   'foo'
version='1.2.3'") = Ok (mkAddonZipInfo "foo" "1.2.3" "1.0.3" None true))
    by (vm_compute; reflexivity).
  assert (Ha : ascii_text (quoted "# package
name   =   'foo'
version='1.2.3'")) by (vm_compute; reflexivity).
  split; [exact Ha|]. split; [exact H|].
  destruct (package_py_reads_quoted_literals _ _ Ha H) as (Hn & _ & Hq & _).
  split; [exact Hn | exact Hq].
Defined.

(** *** Reading back a rendered [package.py] *)

Lemma re_search_head (key l g : list ascii) :
  match_assignment key l = Some g -> re_search_assignment key l = Some g.
Proof. intros H. destruct l; cbn [re_search_assignment]; by rewrite H. Qed.

Lemma re_search_step (key : list ascii) (c : ascii) (l : list ascii) :
  match_assignment key (c :: l) = None ->
  re_search_assignment key (c :: l) = re_search_assignment key l.
Proof. intros H. cbn [re_search_assignment]. by rewrite H. Qed.

Lemma match_assignment_first (key0 : ascii) (key' : list ascii) (c : ascii)
    (l : list ascii) :
  c <> key0 -> match_assignment (key0 :: key') (c :: l) = None.
Proof.
  intros Hc. unfold match_assignment. cbn [strip_prefix].
  destruct (Ascii.eqb key0 c) eqn:E; [|done].
  apply Ascii.eqb_eq in E. congruence.
Qed.

Lemma re_search_skip_chars (key0 : ascii) (key' A B : list ascii) :
  Forall (fun c => c <> key0) A ->
  re_search_assignment (key0 :: key') (A ++ B)
  = re_search_assignment (key0 :: key') B.
Proof.
  induction 1 as [|c A Hc _ IH]; [done|].
  rewrite <- app_comm_cons, re_search_step; [done|].
  by apply match_assignment_first.
Qed.

Lemma re_search_skip_suffix (key A B : list ascii) :
  (forall A1 A2, A = A1 ++ A2 -> match_assignment key (A2 ++ B) = None) ->
  re_search_assignment key (A ++ B) = re_search_assignment key B.
Proof.
  induction A as [|c A IH]; intros Hno; [done|].
  rewrite <- app_comm_cons, re_search_step.
  - apply IH. intros A1 A2 ->. by apply (Hno (c :: A1) A2).
  - rewrite app_comm_cons. by apply (Hno [] (c :: A)).
Qed.

Lemma strip_prefix_app_stop (p s : list ascii) (d : ascii) (X r : list ascii) :
  d ∉ p -> strip_prefix p (s ++ d :: X) = Some r ->
  exists s', s = p ++ s' /\ r = s' ++ d :: X.
Proof.
  revert s. induction p as [|a p IH]; intros s Hd; simpl.
  - intros [= <-]. by exists s.
  - apply not_elem_of_cons in Hd as [Hda Hd].
    destruct s as [|b s]; simpl.
    + destruct (Ascii.eqb a d) eqn:E; [|discriminate].
      apply Ascii.eqb_eq in E. congruence.
    + destruct (Ascii.eqb a b) eqn:E; [|discriminate].
      apply Ascii.eqb_eq in E as ->. intros H.
      destruct (IH s Hd H) as (s' & -> & ->). by exists s'.
Qed.

Lemma skip_spaces_head (s X : list ascii) :
  "="%char ∉ s ->
  match skip_spaces (s ++ dquote :: X) with
  | c :: _ => c <> "="%char
  | [] => True
  end.
Proof.
  induction s as [|c s IH]; intros Hs; simpl; [discriminate|].
  apply not_elem_of_cons in Hs as [Hc Hs].
  destruct (is_space c); [by apply IH | congruence].
Qed.

(** Inside a quoted literal that holds no equals sign the pattern does
    not match. *)
Lemma no_match_in_literal (key s X : list ascii) :
  dquote ∉ key -> "="%char ∉ s ->
  match_assignment key (s ++ dquote :: X) = None.
Proof.
  intros Hkey Hs. unfold match_assignment.
  destruct (strip_prefix key (s ++ dquote :: X)) as [r1|] eqn:H1; [|done].
  apply strip_prefix_app_stop in H1 as (s' & -> & ->); [|done].
  assert (Hs' : "="%char ∉ s').
  { intros H. apply Hs. apply elem_of_app. by right. }
  pose proof (skip_spaces_head s' X Hs') as Hhead.
  destruct (skip_spaces (s' ++ dquote :: X)) as [|c r2]; [done|].
  destruct (Ascii.eqb c "=") eqn:E; [|done].
  apply Ascii.eqb_eq in E. congruence.
Qed.

Lemma nonempty_text (l : list ascii) : l <> [] -> nonempty (text l) = true.
Proof. by destruct l. Qed.

(** X9.  A [package.py] made of a name line and a version line, each
    with its value between double quotes, is read back as that name and
    that version, provided the values are not empty and hold no double
    quote and the name holds no equals sign. *)
Theorem package_py_reads_rendered (n v : list ascii) :
  n <> [] -> v <> [] -> dquote ∉ n -> dquote ∉ v -> "="%char ∉ n ->
  get_addon_info_from_package_py (text (package_py_text n v))
  = Ok (mkAddonZipInfo (text n) (text v) "1.0.3" None true).
Proof.
  intros Hn Hv Hqn Hqv Heq.
  assert (Hsp : all_spaces [" "%char]) by reflexivity.
  assert (Hname : re_search_assignment (chars "name") (package_py_text n v)
                  = Some n).
  { apply re_search_head. unfold package_py_text.
    by apply match_assignment_complete. }
  assert (Hversion : re_search_assignment (chars "version") (package_py_text n v)
                     = Some v).
  { unfold package_py_text.
    set (S := assignment_text (chars "version") [" "%char] [" "%char] v
                [ascii_of_nat 10]).
    change (assignment_text (chars "name") [" "%char] [" "%char] n
              (ascii_of_nat 10 :: S))
      with (chars "name = " ++ [dquote] ++ n ++ dquote :: [ascii_of_nat 10] ++ S).
    change (chars "version") with ("v"%char :: chars "ersion") at 1.
    rewrite re_search_skip_chars by (repeat constructor; discriminate).
    rewrite re_search_skip_chars by (repeat constructor; discriminate).
    rewrite re_search_skip_suffix.
    - change (dquote :: [ascii_of_nat 10] ++ S)
        with ([dquote; ascii_of_nat 10] ++ S).
      rewrite re_search_skip_chars by (repeat constructor; discriminate).
      apply re_search_head. by apply match_assignment_complete.
    - intros A1 A2 ->. apply no_match_in_literal.
      + intros H. by repeat (apply elem_of_cons in H as [H|H]; [discriminate H|]);
          apply elem_of_nil in H.
      + intros H. apply Heq. apply elem_of_app. by right. }
  unfold get_addon_info_from_package_py. rewrite chars_text, Hname, Hversion.
  cbn [fmap option_fmap option_map].
  by rewrite (nonempty_text n Hn), (nonempty_text v Hv).
Qed.

Lemma package_py_reads_rendered_witness :
  text (package_py_text (chars "foo") (chars "1.2.3"))
  = quoted "name = 'foo'
version = '1.2.3'
"
  /\ get_addon_info_from_package_py
       (text (package_py_text (chars "foo") (chars "1.2.3")))
     = Ok (mkAddonZipInfo "foo" "1.2.3" "1.0.3" None true).
Proof.
  split; [vm_compute; reflexivity|].
  apply (package_py_reads_rendered (chars "foo") (chars "1.2.3")).
  - discriminate.
  - discriminate.
  - intros H. by repeat (apply elem_of_cons in H as [H|H]; [discriminate H|]);
      apply elem_of_nil in H.
  - intros H. by repeat (apply elem_of_cons in H as [H|H]; [discriminate H|]);
      apply elem_of_nil in H.
  - intros H. by repeat (apply elem_of_cons in H as [H|H]; [discriminate H|]);
      apply elem_of_nil in H.
Defined.

(** ** Events of [install_addon_from_url] *)

Lemma install_without_scratch_run (L : Libs) (ayon_version : string)
    (addons_dir : list string) (http_get : string -> Fetch)
    (file_names dir_names : list string) (event_id url : string) (w : World) :
  (files w !! addons_dir <> Some Dir
   \/ pick_fresh (files w) addons_dir file_names = None) ->
  exists e,
    install_addon_from_url L ayon_version addons_dir http_get file_names
      dir_names event_id url w
    = (Raise e, mkWorld (files w) (events w ++ [downloading_event event_id url])).
Proof.
  intros Hno. unfold install_addon_from_url.
  cbv [bindM update_event with_named_temporary_file on_files mkstemp].
  cbn [files events].
  destruct (files w !! addons_dir) as [[b perm|]|]; try (by eexists).
  destruct Hno as [Hno|Hno]; [done|]. rewrite Hno. by eexists.
Qed.

Lemma progress_only_not_finished (event_id : string) (evs : list Event) :
  Forall (progress_only event_id) evs -> Forall not_finished evs.
Proof.
  intros H. eapply Forall_impl; [exact H|].
  intros e (_ & Hs & _). unfold not_finished. by rewrite Hs.
Qed.

(** X10.  The events of one call of [install_addon_from_url], whatever
    happens: the downloading event comes first; no event has the status
    failed; when the call returns, the events end with the installing
    event (progress 50, with the descriptor and the URL as summary) and
    the finished event of the same descriptor, after progress reports
    only; when the call raises, no event has the status finished. *)
Theorem install_from_url_events (L : Libs) (ayon_version : string)
    (addons_dir : list string) (http_get : string -> Fetch)
    (file_names dir_names : list string) (event_id url : string) (w : World) :
  let run := install_addon_from_url L ayon_version addons_dir http_get
               file_names dir_names event_id url w in
  exists evs,
    events run.2 = events w ++ downloading_event event_id url :: evs
    /\ Forall not_failed evs
    /\ match run.1 with
       | Ok _ =>
           exists pr zip_info,
             evs = pr ++ [installing_event event_id url zip_info;
                          installed_event event_id zip_info]
             /\ Forall (progress_only event_id) pr
       | Raise _ => Forall not_finished evs
       end.
Proof.
  intros run.
  assert (Hnone : files w !! addons_dir <> Some Dir
                  \/ pick_fresh (files w) addons_dir file_names = None ->
                  exists evs,
                    events run.2 = events w ++ downloading_event event_id url :: evs
                    /\ Forall not_failed evs
                    /\ match run.1 with
                       | Ok _ =>
                           exists pr zip_info,
                             evs = pr ++ [installing_event event_id url zip_info;
                                          installed_event event_id zip_info]
                             /\ Forall (progress_only event_id) pr
                       | Raise _ => Forall not_finished evs
                       end).
  { intros H.
    destruct (install_without_scratch_run L ayon_version addons_dir http_get
                file_names dir_names event_id url w H) as [e He].
    subst run. rewrite He. exists []. cbn [fst snd events].
    split; [reflexivity|]. split; constructor. }
  destruct (files w !! addons_dir) as [[b perm|]|] eqn:Hroot;
    try (apply Hnone; left; congruence).
  destruct (pick_fresh (files w) addons_dir file_names) as [c|] eqn:Hfresh;
    [|apply Hnone; by right].
  clear Hnone.
  destruct (http_get url) as [e|r] eqn:Hget.
  { subst run.
    rewrite (install_connect_failed L ayon_version addons_dir http_get
               file_names dir_names event_id url w c Hroot Hfresh e Hget).
    exists []. cbn [fst snd events].
    split; [reflexivity|]. split; constructor. }
  destruct (install_after_download L ayon_version addons_dir http_get file_names
              dir_names event_id url w c Hroot Hfresh r Hget)
    as (evs & Hevs & Hrun).
  cbv zeta in Hrun. fold run in Hrun.
  pose proof (progress_only_not_failed _ _ Hevs) as Hnf.
  pose proof (progress_only_not_finished _ _ Hevs) as Hnfin.
  destruct (stream_error r).
  { rewrite Hrun. exists evs. cbn [fst snd events].
    split; [reflexivity|]. split; assumption. }
  destruct (get_addon_zip_info L ayon_version _ _) as [zip_info|e].
  2:{ rewrite Hrun. exists evs. cbn [fst snd events].
      split; [reflexivity|]. split; assumption. }
  fold (installing_event event_id url zip_info) in Hrun.
  fold (installed_event event_id zip_info) in Hrun.
  assert (Hing : not_failed (installing_event event_id url zip_info)
                 /\ not_finished (installing_event event_id url zip_info)
                 /\ not_failed (installed_event event_id zip_info))
    by (by repeat split).
  destruct Hing as (Hi1 & Hi2 & Hi3).
  destruct (unpack_addon_sync L addons_dir _ zip_info dir_names _) as [res fs2].
  destruct (unlink _ fs2) as [res3 fs3].
  destruct res as [[]|e]; destruct res3 as [[]|e3]; rewrite Hrun;
    cbn [fst snd events]; rewrite <- app_assoc, <- app_comm_cons.
  - eexists. split; [reflexivity|]. split.
    + apply Forall_app. split; [done|]. by repeat constructor.
    + by exists evs, zip_info.
  - eexists. split; [reflexivity|]. split.
    + apply Forall_app. split; [done|]. by repeat constructor.
    + apply Forall_app. split; [done|]. by repeat constructor.
  - eexists. split; [reflexivity|]. split.
    + apply Forall_app. split; [done|]. by repeat constructor.
    + apply Forall_app. split; [done|]. by repeat constructor.
  - eexists. split; [reflexivity|]. split.
    + apply Forall_app. split; [done|]. by repeat constructor.
    + apply Forall_app. split; [done|]. by repeat constructor.
Qed.

(** ** Progress reports of the download *)

Lemma download_loop_silent (event_id : string) (zip_path : list string)
    (cs : list Chunk) :
  forall (i last_time : Z) (w : World),
    events (download_loop event_id zip_path 0 cs i last_time w).2 = events w.
Proof.
  induction cs as [|c cs IH]; intros i last_time w; [done|].
  cbn [download_loop]. unfold bindM at 1, on_files.
  destruct (append_file zip_path (chunk_bytes c) (files w)) as [[[]|e] fs1];
    [|done].
  change (negb (0 =? 0) && (chunk_clock c - last_time >? 1000)) with false.
  cbv iota. by rewrite IH.
Qed.

(** X11.  Without a content length (the header is missing or zero) the
    download records no progress event, however many chunks arrive and
    however long they take, and also when the stream breaks. *)
Theorem download_without_length_is_silent (event_id : string)
    (zip_path : list string) (r : Response) (w : World) :
  default 0 (content_length r) = 0 ->
  events (download event_id zip_path (Connected r) w).2 = events w.
Proof.
  intros Hsize. unfold download. rewrite Hsize.
  unfold bindM at 1, on_files.
  destruct (write_file zip_path EmptyString private_perm (files w))
    as [[[]|e] fs1]; [|done].
  unfold bindM.
  pose proof (download_loop_silent event_id zip_path (chunks r) 0 0
                (mkWorld fs1 (events w))) as Hloop.
  destruct (download_loop event_id zip_path 0 (chunks r) 0 0
              (mkWorld fs1 (events w))) as [[[]|e] w2]; cbn [snd] in *; [|done].
  by destruct (stream_error r).
Qed.

Lemma download_without_length_is_silent_witness :
  let r := mkResponse 200 None
             [mkChunk "PK" 5000; mkChunk ";a|0|b" 9000] None in
  let run := download "job" ["addons"; "tmpzip"] (Connected r)
               (mkWorld {[ [] := Dir; ["addons"] := Dir ]} []) in
  run.1 = Ok tt
  /\ files run.2 !! ["addons"; "tmpzip"] = Some (File "PK;a|0|b" 384)
  /\ events run.2 = [].
Proof.
  split; [vm_compute; reflexivity|]. split; [vm_compute; reflexivity|].
  exact (download_without_length_is_silent "job" ["addons"; "tmpzip"]
           (mkResponse 200 None [mkChunk "PK" 5000; mkChunk ";a|0|b" 9000] None)
           (mkWorld {[ [] := Dir; ["addons"] := Dir ]} []) eq_refl).
Defined.

(** ** A failed installation *)

Lemma move_raise_below (src dst : list string) (fs fs' : FS) (e : exn) :
  move src dst fs = (Raise e, fs') -> isdir fs dst = false ->
  forall k, fs' !! (dst ++ k) = fs !! (dst ++ k).
Proof.
  intros Hrun Hdst k. unfold move in Hrun. rewrite Hdst in Hrun.
  cbn [andb] in Hrun.
  destruct (fs !! src) as [[bytes perm|]|]; [| |by inversion Hrun].
  - destruct (parent_error fs dst); [by inversion Hrun|].
    destruct (fs !! dst) as [[b0 p0|]|]; by inversion Hrun.
  - destruct (bool_decide (src `prefix_of` dst)); [by inversion Hrun|].
    destruct (fs !! dst); [by inversion Hrun|].
    destruct (makedirs (dirname dst) fs) as [[[]|e'] fsA] eqn:Hmk; [done|].
    inversion Hrun; subst.
    pose proof (makedirs_lookup_other (dirname dst) fs (dst ++ k)) as H.
    rewrite Hmk in H. apply H.
    destruct (snoc_cases dst) as [->|(pre & c & ->)].
    + by inversion Hmk.
    + rewrite dirname_snoc. intros Hpre. apply prefix_length in Hpre.
      rewrite !length_app in Hpre. simpl in Hpre. lia.
Qed.

Lemma target_not_prefix_of_root (addons_dir : list string) (zip_info : AddonZipInfo)
    (k : list string) (c : list string) :
  (length c <= 1)%nat ->
  ¬ (target_path addons_dir zip_info ++ k) `prefix_of` addons_dir ++ c.
Proof.
  intros Hc Hpre. apply prefix_length in Hpre. unfold target_path in Hpre.
  rewrite !length_app in Hpre. simpl in Hpre. lia.
Qed.

(** X12.  Take a package that is not a rez package, with a plain name
    and version, and an install root in which the directory of the
    addon, the parent of the target, exists: then [shutil.move] puts the
    content in place by one rename.  When [unpack_addon_sync] raises
    there, the content at the target directory is either as it was
    before the call or gone altogether: the failed installation leaves
    no partly written version behind, but it can remove the version that
    was installed (when the move into place fails after the old
    directory was deleted).  A first installation of an addon, where the
    parent is missing and [shutil.move] copies file by file, is outside
    this statement, and so are failures for want of permission, which
    the file system of this development does not have. *)
Theorem failed_install_all_or_nothing (L : Libs) (addons_dir zip_path : list string)
    (zip_info : AddonZipInfo) (dir_names : list string) (fs fs' : FS) (e : exn) :
  tree_like fs ->
  plain_component (name zip_info) = true ->
  plain_component (version zip_info) = true ->
  fs !! (addons_dir ++ [name zip_info]) = Some Dir ->
  is_rez zip_info = false ->
  unpack_addon_sync L addons_dir zip_path zip_info dir_names fs = (Raise e, fs') ->
  (forall k, fs' !! (target_path addons_dir zip_info ++ k)
             = fs !! (target_path addons_dir zip_info ++ k))
  \/ (forall k, fs' !! (target_path addons_dir zip_info ++ k) = None).
Proof.
  intros Htree _ _ _ Hrez Hrun.
  unfold unpack_addon_sync in Hrun. unfold bindM at 1 in Hrun.
  set (target := target_path addons_dir zip_info) in *.
  assert (Hmk_un : forall k, (makedirs addons_dir fs).2 !! (target ++ k)
                             = fs !! (target ++ k)).
  { intros k. apply makedirs_lookup_other.
    pose proof (target_not_prefix_of_root addons_dir zip_info k []) as H.
    rewrite app_nil_r in H. apply H. simpl. lia. }
  assert (Hkeep : forall p, (makedirs addons_dir fs).2 !! p = None -> fs !! p = None).
  { intros p Hp. destruct (fs !! p) as [n'|] eqn:E; [|done].
    by rewrite (makedirs_preserves addons_dir fs _ n' I E) in Hp. }
  destruct (makedirs addons_dir fs) as [[[]|e0] fs1]; cbn [fst snd] in *.
  2:{ left. by inversion Hrun; subst. }
  unfold with_temporary_directory, mkdtemp in Hrun.
  destruct (fs1 !! addons_dir) as [[b perm|]|];
    try (left; by inversion Hrun; subst).
  destruct (pick_fresh fs1 addons_dir dir_names) as [c|] eqn:Hpick;
    [|left; by inversion Hrun; subst].
  apply pick_fresh_free in Hpick.
  set (tmp := addons_dir ++ [c]) in *.
  set (fs1' := <[tmp := Dir]> fs1) in *.
  destruct (decide (c = name zip_info)) as [Hc|Hc].
  { left. intros k.
    match type of Hrun with
    | (let '(_, _) := ?body in _) = _ => destruct body as [r fs2]
    end.
    inversion Hrun; subst fs'.
    assert (Hpre : tmp `prefix_of` target ++ k).
    { exists (version zip_info :: k). unfold tmp, target, target_path.
      rewrite Hc, <- !app_assoc. done. }
    rewrite lookup_prune_below by done. symmetry.
    destruct Hpre as [j ->].
    apply tree_like_absent_below; [done|]. by apply Hkeep. }
  destruct (scratch_apart_from_target addons_dir zip_info c Hc) as [Hout1 Hout2].
  fold target in Hout1, Hout2. fold tmp in Hout1, Hout2.
  assert (H1 : forall k, fs1' !! (target ++ k) = fs !! (target ++ k)).
  { intros k. unfold fs1'. rewrite lookup_insert_ne; [apply Hmk_un|].
    intros Heq. apply (Hout1 k). by rewrite <- Heq. }
  cbv [bindM getM liftR] in Hrun.
  destruct (open_zip L fs1' zip_path) as [members|e1].
  2:{ left. intros k. inversion Hrun; subst fs'.
      rewrite lookup_prune_outside by apply Hout1. apply H1. }
  assert (HS : forall k, (forM members (extract_member tmp) fs1').2 !! (target ++ k)
                         = fs !! (target ++ k)).
  { intros k. rewrite <- H1.
    apply (untouched_forM (fun q => outside tmp q /\ ¬ q `prefix_of` tmp)).
    - intros m _. apply extract_member_untouched.
    - split; [apply Hout1|]. by apply target_not_prefix_of_root. }
  destruct (forM members (extract_member tmp) fs1') as [[[]|e2] fsS];
    cbn [snd] in HS.
  2:{ left. intros k. inversion Hrun; subst fs'.
      rewrite lookup_prune_outside by apply Hout1. apply HS. }
  rewrite Hrez in Hrun.
  destruct (isdir fsS target) eqn:Hd.
  - unfold isdir in Hd. unfold rmtree in Hrun.
    destruct (fsS !! target) as [[b0 p0|]|]; try discriminate.
    set (fs2 := prune target fsS) in *.
    assert (Hfree : forall k, fs2 !! (target ++ k) = None)
      by (intros k; by apply lookup_prune_below, prefix_app_r).
    assert (Hnd : isdir fs2 target = false).
    { unfold isdir. pose proof (Hfree []) as H. rewrite app_nil_r in H.
      by rewrite H. }
    destruct (move (tmp ++ ["addon"]) target fs2) as [[[]|e3] fs3] eqn:Hmv;
      [discriminate|].
    right. intros k. inversion Hrun; subst fs'.
    rewrite lookup_prune_outside by apply Hout1.
    rewrite (move_raise_below _ _ _ _ _ Hmv Hnd). apply Hfree.
  - unfold retM in Hrun.
    destruct (move (tmp ++ ["addon"]) target fsS) as [[[]|e3] fs3] eqn:Hmv;
      [discriminate|].
    left. intros k. inversion Hrun; subst fs'.
    rewrite lookup_prune_outside by apply Hout1.
    rewrite (move_raise_below _ _ _ _ _ Hmv Hd). apply HS.
Qed.

Lemma failed_install_all_or_nothing_witness :
  let fs : FS := <[ ["uploads"; "a.zip"] := File hollow_archive 420 ]> installed_files in
  let target := target_path example_root tvpaint_info in
  let run := unpack_addon_sync example_libs example_root ["uploads"; "a.zip"]
               tvpaint_info ["tmpdir"] fs in
  run.1 = Raise FileNotFoundError
  /\ fs !! (example_root ++ [name tvpaint_info]) = Some Dir
  /\ fs !! (target ++ ["old.py"]) = Some (File "old" 420)
  /\ forall k, run.2 !! (target ++ k) = None.
Proof.
  intros fs target run.
  destruct run as [res fs'] eqn:Hrun.
  assert (Hres : res = Raise FileNotFoundError).
  { change res with (res, fs').1. rewrite <- Hrun. vm_compute. reflexivity. }
  subst res.
  assert (Hgone : fs' !! target = None).
  { change fs' with (Raise FileNotFoundError : result unit, fs').2.
    rewrite <- Hrun. vm_compute. reflexivity. }
  split; [reflexivity|]. split; [vm_compute; reflexivity|].
  split; [vm_compute; reflexivity|].
  destruct (failed_install_all_or_nothing example_libs example_root
              ["uploads"; "a.zip"] tvpaint_info ["tmpdir"] fs fs'
              FileNotFoundError) as [Hsame | Hnone].
  - apply tree_like_b_sound. vm_compute. reflexivity.
  - vm_compute. reflexivity.
  - vm_compute. reflexivity.
  - vm_compute. reflexivity.
  - reflexivity.
  - exact Hrun.
  - exfalso. pose proof (Hsame []) as H. unfold target in Hgone.
    rewrite app_nil_r, Hgone in H.
    vm_compute in H. discriminate H.
  - exact Hnone.
Defined.

(** ** What a completed installation holds *)

Lemma pick_fresh_elem (fs : FS) (dir : list string) (candidates : list string)
    (c : string) :
  pick_fresh fs dir candidates = Some c -> c ∈ candidates.
Proof.
  induction candidates as [|x xs IH]; simpl; [discriminate|].
  destruct (fs !! (dir ++ [x])).
  - intros H. right. by apply IH.
  - intros [= <-]. by left.
Qed.

(** What a completed run of the standard branch went through: the
    members were staged in a scratch directory, from which [addon] was
    moved to a target that was not a directory at that point. *)
Lemma standard_install_inv (L : Libs) (addons_dir zip_path : list string)
    (zip_info : AddonZipInfo) (dir_names : list string) (fs fs' : FS)
    (bytes : string) (perm : Z) (members : list ZipMember) :
  tree_like fs ->
  zip_path <> [] ->
  fs !! zip_path = Some (File bytes perm) ->
  zip_read L bytes = Ok members ->
  is_rez zip_info = false ->
  name zip_info ∉ dir_names ->
  unpack_addon_sync L addons_dir zip_path zip_info dir_names fs = (Ok tt, fs') ->
  exists (tmp : list string) (fs2 fs3 : FS),
    let target := target_path addons_dir zip_info in
    tree_like fs2
    /\ provenance members tmp fs2
    /\ (forall m, m ∈ members ->
          exists n, fs2 !! (tmp ++ arcname (filename m)) = Some n
                    /\ kind_of_member m n)
    /\ isdir fs2 target = false
    /\ extracted members tmp fs2
    /\ (forall k, outside tmp (target ++ k))
    /\ move (tmp ++ ["addon"]) target fs2 = (Ok tt, fs3)
    /\ (forall k, fs' !! (target ++ k) = fs3 !! (target ++ k)).
Proof.
  intros Htree Hzne Hzip Hread Hrez Hnames Hrun.
  unfold unpack_addon_sync in Hrun. unfold bindM at 1 in Hrun.
  destruct (makedirs addons_dir fs) as [[[]|e] fs1] eqn:Hmk; [|done].
  assert (Hroot0 : fs !! [] = Some Dir).
  { apply (tree_like_ancestor fs [] zip_path); [done | done |].
    exact (mk_is_Some _ _ Hzip). }
  assert (Htree1 : tree_like fs1).
  { pose proof (makedirs_from_tree_like addons_dir [] fs Htree Hroot0) as H.
    unfold makedirs in Hmk. by rewrite Hmk in H. }
  assert (Hkeep1 : forall q n, fs !! q = Some n -> fs1 !! q = Some n).
  { intros q n Hq. pose proof (makedirs_preserves addons_dir fs q n I Hq) as H.
    by rewrite Hmk in H. }
  unfold with_temporary_directory, mkdtemp in Hrun.
  destruct (fs1 !! addons_dir) as [[b0 p0|]|] eqn:Hroot1; try done.
  destruct (pick_fresh fs1 addons_dir dir_names) as [c|] eqn:Hpick; [|done].
  assert (Hc : c <> name zip_info).
  { intros ->. by apply pick_fresh_elem in Hpick. }
  apply pick_fresh_free in Hpick.
  destruct (scratch_apart_from_target addons_dir zip_info c Hc) as [Hout1 Hout2].
  set (target := target_path addons_dir zip_info) in *.
  set (tmp := addons_dir ++ [c]) in *.
  set (fs1' := <[tmp := Dir]> fs1) in *.
  assert (Hst0 : staged [] tmp fs1').
  { split; [by apply tree_like_insert_dir|]. split; [apply lookup_insert_eq|].
    intros rel n Hrel Hn. unfold fs1' in Hn.
    rewrite lookup_insert_ne in Hn.
    - by rewrite (tree_like_absent_below fs1 tmp rel) in Hn.
    - intros H. rewrite <- (app_nil_r tmp) in H at 1. by apply app_inv_head in H. }
  assert (Hzip1 : fs1' !! zip_path = Some (File bytes perm)).
  { unfold fs1'. rewrite lookup_insert_ne; [by apply Hkeep1|].
    intros <-. apply Hkeep1 in Hzip. congruence. }
  cbv [bindM getM liftR] in Hrun. unfold open_zip in Hrun.
  rewrite Hzip1, Hread in Hrun.
  destruct (forM members (extract_member tmp) fs1') as [[[]|e] fsS] eqn:Hext;
    [|done].
  destruct (extract_all_staged tmp members [] fs1' fsS Hst0 Hext)
    as [(HtreeS & HtmpS & HprovS) Hkinds].
  rewrite Hrez in Hrun.
  assert (Hmove : exists fs2 fs3,
            tree_like fs2
            /\ (forall j, fs2 !! (tmp ++ j) = fsS !! (tmp ++ j))
            /\ isdir fs2 target = false
            /\ move (tmp ++ ["addon"]) target fs2 = (Ok tt, fs3)
            /\ fs' = prune tmp fs3).
  { destruct (isdir fsS target) eqn:Hd.
    - unfold isdir in Hd. unfold rmtree in Hrun.
      destruct (fsS !! target) as [[b1 p1|]|]; try discriminate.
      destruct (move (tmp ++ ["addon"]) target (prune target fsS))
        as [[[]|e3] fs3] eqn:Hmv; [|discriminate].
      exists (prune target fsS), fs3.
      split; [by apply tree_like_prune|].
      split; [intros j; apply lookup_prune_outside, Hout2|].
      split; [|split; [done | by inversion Hrun]].
      unfold isdir. by rewrite lookup_prune_below.
    - unfold retM in Hrun.
      destruct (move (tmp ++ ["addon"]) target fsS) as [[[]|e3] fs3] eqn:Hmv;
        [|discriminate].
      exists fsS, fs3. repeat split; try done. by inversion Hrun. }
  destruct Hmove as (fs2 & fs3 & Htree2 & Hlook2 & Hnd & Hmv & ->).
  exists tmp, fs2, fs3. cbv zeta.
  split; [done|]. split.
  { intros rel n Hrel Hn. rewrite Hlook2 in Hn. by apply HprovS. }
  split.
  { intros m Hm. destruct (Hkinds m Hm) as (n & Hn & Hk).
    exists n. by rewrite Hlook2. }
  split; [done|]. split; [by exists fs1', fsS|].
  split; [done|]. split; [done|].
  intros k. by rewrite lookup_prune_outside by apply Hout1.
Qed.

(** The move of the standard branch, read at one path: what ends up
    below the target is what was below [addon] in the scratch
    directory. *)
Lemma move_addon_lookup (tmp target : list string) (fs2 fs3 : FS)
    (k : list string) :
  target <> [] ->
  tree_like fs2 ->
  isdir fs2 target = false ->
  (forall j, outside tmp (target ++ j)) ->
  move (tmp ++ ["addon"]) target fs2 = (Ok tt, fs3) ->
  fs3 !! (target ++ k) = fs2 !! (tmp ++ "addon" :: k).
Proof.
  intros Htne Htree2 Hnd Hout1 Hmv.
  assert (Hbelow : forall x j, fs2 !! (target ++ x :: j) = None).
  { intros x j. destruct (fs2 !! (target ++ x :: j)) as [n|] eqn:E; [|done].
    exfalso. unfold isdir in Hnd.
    rewrite (tree_like_ancestor fs2 target (x :: j) Htree2) in Hnd;
      [discriminate | done | by rewrite E]. }
  destruct (move_ok_inv _ _ _ _ Hmv Hnd) as [(b1 & p1 & Hsrc & ->) | Hsrc].
  - destruct k as [|x k].
    + by rewrite app_nil_r, lookup_insert_eq.
    + rewrite lookup_insert_ne
        by (intros H; rewrite <- (app_nil_r target) in H at 1;
            by apply app_inv_head in H).
      rewrite lookup_delete_ne
        by (intros H; apply (Hout1 (x :: k)); rewrite <- H; by apply prefix_app_r).
      rewrite Hbelow. symmetry.
      destruct (fs2 !! (tmp ++ "addon" :: x :: k)) as [n|] eqn:E; [|done].
      exfalso.
      assert (fs2 !! (tmp ++ ["addon"]) = Some Dir); [|congruence].
      apply (tree_like_ancestor fs2 (tmp ++ ["addon"]) (x :: k)); [done | done |].
      rewrite <- app_assoc. exact (mk_is_Some _ _ E).
  - assert (Hfree2 : forall j, fs2 !! (target ++ j) = None).
    { intros j. apply tree_like_absent_below; [done|].
      pose proof Hmv as Hmv'. unfold move in Hmv'. rewrite Hnd in Hmv'.
      cbn [andb] in Hmv'. rewrite Hsrc in Hmv'.
      destruct (bool_decide (tmp ++ ["addon"] `prefix_of` target)); [done|].
      by destruct (fs2 !! target). }
    exact (move_addon_tree tmp target fs2 fs3 Htne Hfree2 Hout1 Hsrc Hmv k).
Qed.

(** A file member stored below [addon] is, after the standard branch
    completed, a file with the member's data at the same relative path
    below the target directory. *)
Lemma standard_places (L : Libs) (addons_dir zip_path : list string)
    (zip_info : AddonZipInfo) (dir_names : list string) (fs fs' : FS)
    (bytes : string) (perm : Z) (members : list ZipMember) (m : ZipMember)
    (k : list string) :
  tree_like fs ->
  zip_path <> [] ->
  fs !! zip_path = Some (File bytes perm) ->
  zip_read L bytes = Ok members ->
  is_rez zip_info = false ->
  name zip_info ∉ dir_names ->
  unpack_addon_sync L addons_dir zip_path zip_info dir_names fs = (Ok tt, fs') ->
  m ∈ members -> member_is_dir m = false ->
  arcname (filename m) = "addon" :: k ->
  (forall m', m' ∈ members -> arcname (filename m') = "addon" :: k ->
              data m' = data m) ->
  exists mode,
    fs' !! (target_path addons_dir zip_info ++ k) = Some (File (data m) mode).
Proof.
  intros Htree Hzne Hzip Hread Hrez Hnames Hrun Hm Hmdir Harc Huniq.
  destruct (standard_install_inv L addons_dir zip_path zip_info dir_names fs fs'
              bytes perm members Htree Hzne Hzip Hread Hrez Hnames Hrun)
    as (tmp & fs2 & fs3 & Htree2 & Hprov & Hkinds & Hnd & _ & Hout1 & Hmv & Hlast).
  destruct (Hkinds m Hm) as (n & Hn & Hkind). rewrite Harc in Hn.
  unfold kind_of_member in Hkind. rewrite Hmdir in Hkind.
  destruct Hkind as (b & p & ->).
  destruct (Hprov ("addon" :: k) (File b p)) as [_ Hfile]; [done | done |].
  destruct (Hfile b p eq_refl) as (m' & Hm' & _ & Harc' & Hdata).
  exists p. rewrite Hlast.
  rewrite (move_addon_lookup tmp _ fs2 fs3 k
             (target_path_not_nil addons_dir zip_info) Htree2 Hnd Hout1 Hmv).
  rewrite Hn. by rewrite <- Hdata, (Huniq m' Hm' Harc').
Qed.

(** X13.  A completed installation of a package that is not a rez
    package holds nothing but content of the archive, on a first
    installation as on a later one: every node at or below the target
    directory stems from the archive, at the same relative path below
    [addon], and a file holds the data of a file member stored under that
    path. *)
Theorem standard_install_only_archive (L : Libs)
    (addons_dir zip_path : list string) (zip_info : AddonZipInfo)
    (dir_names : list string) (fs fs' : FS) (bytes : string) (perm : Z)
    (members : list ZipMember) (k : list string) (n : node) :
  tree_like fs ->
  zip_path <> [] ->
  fs !! zip_path = Some (File bytes perm) ->
  zip_read L bytes = Ok members ->
  is_rez zip_info = false ->
  name zip_info ∉ dir_names ->
  unpack_addon_sync L addons_dir zip_path zip_info dir_names fs = (Ok tt, fs') ->
  fs' !! (target_path addons_dir zip_info ++ k) = Some n ->
  from_archive members ("addon" :: k) n.
Proof.
  intros Htree Hzne Hzip Hread Hrez Hnames Hrun Hn.
  destruct (standard_install_inv L addons_dir zip_path zip_info dir_names fs fs'
              bytes perm members Htree Hzne Hzip Hread Hrez Hnames Hrun)
    as (tmp & fs2 & fs3 & Htree2 & Hprov & _ & Hnd & _ & Hout1 & Hmv & Hlast).
  rewrite Hlast in Hn.
  rewrite (move_addon_lookup tmp _ fs2 fs3 k
             (target_path_not_nil addons_dir zip_info) Htree2 Hnd Hout1 Hmv) in Hn.
  by apply Hprov.
Qed.

Lemma standard_install_only_archive_witness :
  let run := unpack_addon_sync example_libs example_root ["uploads"; "a.zip"]
               tvpaint_info ["tmpdir"] (files (uploaded_world tvpaint_archive)) in
  run.1 = Ok tt
  /\ from_archive tvpaint_members ["addon"; "a.py"] (File "x=1" 33188).
Proof.
  intros run. destruct run as [res fs'] eqn:Hrun.
  assert (Hres : res = Ok tt).
  { change res with (res, fs').1. rewrite <- Hrun. vm_compute. reflexivity. }
  subst res. split; [reflexivity|].
  apply (standard_install_only_archive example_libs example_root
           ["uploads"; "a.zip"] tvpaint_info ["tmpdir"]
           (files (uploaded_world tvpaint_archive)) fs' tvpaint_archive 420
           tvpaint_members ["a.py"] (File "x=1" 33188)).
  - apply tree_like_b_sound. vm_compute. reflexivity.
  - discriminate.
  - vm_compute. reflexivity.
  - vm_compute. reflexivity.
  - reflexivity.
  - intros H. apply elem_of_cons in H as [H|H]; [discriminate H|].
    destruct (proj1 (elem_of_nil _) H).
  - exact Hrun.
  - change fs' with (Ok tt : result unit, fs').2. rewrite <- Hrun.
    vm_compute. reflexivity.
Defined.

(** ** The rez branch *)

(** What one completed iteration of the rez loop did. *)
Lemma rehome_ok_inv (tmp target : list string) (fs2 fs fs' : FS)
    (rel : list string) :
  (forall k, outside tmp (target ++ k)) ->
  rel <> [] ->
  rehomed tmp target fs2 fs ->
  (exists bytes perm, fs2 !! (tmp ++ rel) = Some (File bytes perm)) ->
  rehome tmp target (tmp ++ rel) fs = (Ok tt, fs') ->
  exists fsA bytes perm,
    makedirs (target ++ dirname rel) fs = (Ok tt, fsA)
    /\ fs2 !! (tmp ++ rel) = Some (File bytes perm)
    /\ fs' = <[target ++ rel := File bytes perm]> (delete (tmp ++ rel) fsA).
Proof.
  intros Hout1 Hrel [Ha Hb] (bytes & perm & Hfile) Hrun.
  unfold rehome in Hrun. rewrite drop_app_length in Hrun.
  rewrite (dirname_app target rel Hrel) in Hrun. unfold bindM in Hrun.
  destruct (makedirs (target ++ dirname rel) fs) as [[[]|e] fsA] eqn:Hmk; [|done].
  assert (Hnew : forall q n, fsA !! q = Some n ->
            fs !! q = Some n
            \/ (n = Dir /\ q `prefix_of` target ++ dirname rel)).
  { intros q n Hn.
    assert (Hn' : (makedirs (target ++ dirname rel) fs).2 !! q = Some n)
      by (by rewrite Hmk).
    apply makedirs_from_new in Hn' as [Hold | (-> & _ & k & _ & Hk & ->)];
      [by left | by right]. }
  assert (HaA : forall p n, tmp `prefix_of` p -> fsA !! p = Some n ->
                            fs2 !! p = Some n).
  { intros p n Hp Hn. apply Hnew in Hn as [Hold | [_ Hpre]]; [by apply Ha|].
    exfalso. apply (Hout1 (dirname rel)). by etrans. }
  assert (Hdst : isdir fsA (target ++ rel) = false).
  { unfold isdir. destruct (fsA !! (target ++ rel)) as [[b0 p0|]|] eqn:E; try done.
    apply Hnew in E as [Hold | [_ Hpre]].
    - apply Hb in Hold; [congruence | done].
    - apply prefix_app_inv in Hpre. exfalso.
      destruct (snoc_cases rel) as [->|(pre & c & ->)]; [done|].
      rewrite dirname_snoc in Hpre. apply prefix_length in Hpre.
      rewrite length_app in Hpre. simpl in Hpre. lia. }
  apply move_ok_inv in Hrun as [(b1 & p1 & Hs & ->) | Hs]; [| |exact Hdst].
  2:{ apply HaA in Hs; [congruence | by apply prefix_app_r]. }
  exists fsA, b1, p1. split; [done|]. split; [|done].
  apply HaA; [by apply prefix_app_r | done].
Qed.

Lemma rehome_step_places (tmp target : list string) (fs2 fs fs' : FS)
    (src : list string) (moved : list (list string)) :
  tree_like fs2 -> fs2 !! tmp = Some Dir -> target <> [] ->
  (forall k, outside tmp (target ++ k)) ->
  (forall k, outside target (tmp ++ k)) ->
  src ∈ walk_files tmp fs2 ->
  (forall s, s ∈ moved -> s ∈ walk_files tmp fs2) ->
  rehomed tmp target fs2 fs ->
  placed tmp target fs2 moved fs ->
  rehome tmp target src fs = (Ok tt, fs') ->
  placed tmp target fs2 (src :: moved) fs'.
Proof.
  intros Htree Htmp Hne Hout1 Hout2 Hsrc Hmoved Hinv (Hb & Hc & Hd) Hrun.
  apply elem_of_walk_files in Hsrc as ([rel ->] & Hfile).
  assert (Hrel : rel <> []).
  { intros ->. rewrite app_nil_r in Hfile. destruct Hfile as (b & p & H).
    congruence. }
  destruct (rehome_ok_inv tmp target fs2 fs fs' rel Hout1 Hrel Hinv Hfile Hrun)
    as (fsA & b1 & p1 & Hmk & Hnode & ->).
  assert (Hkeep : forall q n, fs !! q = Some n -> fsA !! q = Some n).
  { intros q n Hq.
    pose proof (makedirs_preserves (target ++ dirname rel) fs q n I Hq) as H.
    by rewrite Hmk in H. }
  split; [|split].
  - intros rel' n Hin Hn. destruct (decide (rel' = rel)) as [->|Hne'].
    + rewrite lookup_insert_eq. congruence.
    + rewrite lookup_insert_ne by (intros H; by apply app_inv_head in H).
      rewrite lookup_delete_ne
        by (intros H; apply (Hout1 rel'); rewrite <- H; by apply prefix_app_r).
      apply Hkeep. apply Hb; [|done].
      apply elem_of_cons in Hin as [Heq|Hin]; [|done].
      by apply app_inv_head in Heq.
  - intros k Hk Hdir.
    destruct (decide (k = rel)) as [->|Hkr];
      [by rewrite lookup_insert_eq in Hdir|].
    rewrite lookup_insert_ne in Hdir by (intros H; by apply app_inv_head in H).
    apply lookup_delete_Some in Hdir as [_ Hdir].
    assert (Hn' : (makedirs (target ++ dirname rel) fs).2 !! (target ++ k)
                  = Some Dir) by (by rewrite Hmk).
    apply makedirs_from_new in Hn' as [Hold | (_ & _ & j & _ & Hj & Heq)].
    + destruct (Hc k Hk Hold) as (rel' & Hin & Hpre).
      exists rel'. split; [by right | done].
    + exists rel. split; [by left|]. simpl in Heq.
      apply (prefix_app_inv target). by rewrite Heq.
  - intros rel' k Hin Hpre.
    assert (HdirA : fsA !! (target ++ k) = Some Dir).
    { apply elem_of_cons in Hin as [Heq|Hin].
      - apply app_inv_head in Heq as ->.
        apply (makedirs_from_made (target ++ dirname rel) [] fs fsA (target ++ k)
                 Hmk); [by destruct target | by apply prefix_app].
      - apply Hkeep. by apply (Hd rel'). }
    assert (Hkr : k <> rel).
    { intros ->.
      assert (Hlen : (length (dirname rel') < length rel')%nat -> rel' <> rel).
      { intros Hl ->. apply prefix_length in Hpre. lia. }
      assert (Hex : exists n', fs2 !! (tmp ++ rel') = Some n').
      { apply elem_of_cons in Hin as [Heq|Hin].
        - apply app_inv_head in Heq as ->. eauto.
        - apply Hmoved, elem_of_walk_files in Hin as (_ & b & p & H). eauto. }
      destruct Hex as (n' & Hn').
      destruct (snoc_cases rel') as [->|(pre & c & ->)].
      { apply prefix_nil_inv in Hpre. done. }
      rewrite dirname_snoc in Hpre. destruct Hpre as [j ->].
      assert (fs2 !! (tmp ++ rel) = Some Dir); [|congruence].
      apply (tree_like_ancestor fs2 (tmp ++ rel) (j ++ [c])); [done | by destruct j |].
      rewrite <- !app_assoc in *. by rewrite Hn'. }
    rewrite lookup_insert_ne by (intros H; by apply app_inv_head in H).
    rewrite lookup_delete_ne
      by (intros H; apply (Hout1 k); rewrite <- H; by apply prefix_app_r).
    exact HdirA.
Qed.

Lemma rehome_loop_places (tmp target : list string) (fs2 : FS)
    (srcs : list (list string)) :
  tree_like fs2 -> fs2 !! tmp = Some Dir -> target <> [] ->
  (forall k, outside tmp (target ++ k)) ->
  (forall k, outside target (tmp ++ k)) ->
  (forall src, src ∈ srcs -> src ∈ walk_files tmp fs2) ->
  forall (moved : list (list string)) (fs fs' : FS),
    (forall s, s ∈ moved -> s ∈ walk_files tmp fs2) ->
    rehomed tmp target fs2 fs ->
    placed tmp target fs2 moved fs ->
    forM srcs (rehome tmp target) fs = (Ok tt, fs') ->
    placed tmp target fs2 (reverse srcs ++ moved) fs'.
Proof.
  intros Htree Htmp Hne Hout1 Hout2. induction srcs as [|src srcs IH];
    intros Hsrcs moved fs fs' Hmoved Hinv Hpl Hrun.
  - simpl in Hrun. by inversion Hrun; subst.
  - apply forM_cons_ok in Hrun as (fs1 & Hstep & Hrest).
    assert (Hin : src ∈ walk_files tmp fs2) by (apply Hsrcs; by left).
    destruct (rehome_step tmp target fs2 fs fs1 src Htree Htmp Hne Hout1 Hout2
                Hin Hinv Hstep) as [Hinv1 _].
    pose proof (rehome_step_places tmp target fs2 fs fs1 src moved Htree Htmp Hne
                  Hout1 Hout2 Hin Hmoved Hinv Hpl Hstep) as Hpl1.
    assert (Hsrcs' : forall s, s ∈ srcs -> s ∈ walk_files tmp fs2)
      by (intros s Hs; apply Hsrcs; by right).
    assert (Hmoved' : forall s, s ∈ src :: moved -> s ∈ walk_files tmp fs2).
    { intros s Hs. apply elem_of_cons in Hs as [->|Hs]; [done | by apply Hmoved]. }
    rewrite reverse_cons, <- app_assoc.
    exact (IH Hsrcs' (src :: moved) fs1 fs' Hmoved' Hinv1 Hpl1 Hrest).
Qed.

(** What a completed run of the rez branch went through: the members
    were staged in a scratch directory, and the loop moved every file it
    found there. *)
Lemma rez_install_inv (L : Libs) (addons_dir zip_path : list string)
    (zip_info : AddonZipInfo) (dir_names : list string) (fs fs' : FS)
    (bytes : string) (perm : Z) (members : list ZipMember) :
  tree_like fs ->
  zip_path <> [] ->
  fs !! zip_path = Some (File bytes perm) ->
  zip_read L bytes = Ok members ->
  is_rez zip_info = true ->
  name zip_info ∉ dir_names ->
  unpack_addon_sync L addons_dir zip_path zip_info dir_names fs = (Ok tt, fs') ->
  exists (tmp : list string) (fs2 fsL : FS),
    let target := target_path addons_dir zip_info in
    tree_like fs2
    /\ provenance members tmp fs2
    /\ (forall m, m ∈ members ->
          exists n, fs2 !! (tmp ++ arcname (filename m)) = Some n
                    /\ kind_of_member m n)
    /\ fs2 !! tmp = Some Dir
    /\ extracted members tmp fs2
    /\ rehomed tmp target fs2 fsL
    /\ placed tmp target fs2 (reverse (walk_files tmp fs2)) fsL
    /\ (forall k, fs' !! (target ++ k) = fsL !! (target ++ k)).
Proof.
  intros Htree Hzne Hzip Hread Hrez Hnames Hrun.
  pose proof (target_path_not_nil addons_dir zip_info) as Htne.
  unfold unpack_addon_sync in Hrun. unfold bindM at 1 in Hrun.
  destruct (makedirs addons_dir fs) as [[[]|e] fs1] eqn:Hmk; [|done].
  assert (Hroot0 : fs !! [] = Some Dir).
  { apply (tree_like_ancestor fs [] zip_path); [done | done |].
    exact (mk_is_Some _ _ Hzip). }
  assert (Htree1 : tree_like fs1).
  { pose proof (makedirs_from_tree_like addons_dir [] fs Htree Hroot0) as H.
    unfold makedirs in Hmk. by rewrite Hmk in H. }
  assert (Hkeep1 : forall q n, fs !! q = Some n -> fs1 !! q = Some n).
  { intros q n Hq. pose proof (makedirs_preserves addons_dir fs q n I Hq) as H.
    by rewrite Hmk in H. }
  unfold with_temporary_directory, mkdtemp in Hrun.
  destruct (fs1 !! addons_dir) as [[b0 p0|]|] eqn:Hroot1; try done.
  destruct (pick_fresh fs1 addons_dir dir_names) as [c|] eqn:Hpick; [|done].
  assert (Hc : c <> name zip_info).
  { intros ->. by apply pick_fresh_elem in Hpick. }
  apply pick_fresh_free in Hpick.
  destruct (scratch_apart_from_target addons_dir zip_info c Hc) as [Hout1 Hout2].
  set (target := target_path addons_dir zip_info) in *.
  set (tmp := addons_dir ++ [c]) in *.
  set (fs1' := <[tmp := Dir]> fs1) in *.
  assert (Hst0 : staged [] tmp fs1').
  { split; [by apply tree_like_insert_dir|]. split; [apply lookup_insert_eq|].
    intros rel n Hrel Hn. unfold fs1' in Hn.
    rewrite lookup_insert_ne in Hn.
    - by rewrite (tree_like_absent_below fs1 tmp rel) in Hn.
    - intros H. rewrite <- (app_nil_r tmp) in H at 1. by apply app_inv_head in H. }
  assert (Hzip1 : fs1' !! zip_path = Some (File bytes perm)).
  { unfold fs1'. rewrite lookup_insert_ne; [by apply Hkeep1|].
    intros <-. apply Hkeep1 in Hzip. congruence. }
  cbv [bindM getM liftR] in Hrun. unfold open_zip in Hrun.
  rewrite Hzip1, Hread in Hrun.
  destruct (forM members (extract_member tmp) fs1') as [[[]|e] fsS] eqn:Hext;
    [|done].
  destruct (extract_all_staged tmp members [] fs1' fsS Hst0 Hext)
    as [(HtreeS & HtmpS & HprovS) Hkinds].
  rewrite Hrez in Hrun.
  assert (Hloop : exists fs2 fsL,
            tree_like fs2
            /\ (forall j, fs2 !! (tmp ++ j) = fsS !! (tmp ++ j))
            /\ (forall k, k <> [] -> fs2 !! (target ++ k) = None)
            /\ forM (walk_files tmp fs2) (rehome tmp target) fs2 = (Ok tt, fsL)
            /\ fs' = prune tmp (prune tmp fsL)).
  { destruct (isdir fsS target) eqn:Hd.
    - unfold isdir in Hd. unfold rmtree in Hrun at 1.
      destruct (fsS !! target) as [[b1 p1|]|]; try discriminate.
      destruct (forM (walk_files tmp (prune target fsS)) (rehome tmp target)
                  (prune target fsS)) as [[[]|e3] fsL] eqn:Hlp; [|discriminate].
      exists (prune target fsS), fsL.
      split; [by apply tree_like_prune|].
      split; [intros j; apply lookup_prune_outside, Hout2|].
      split; [intros k _; by apply lookup_prune_below, prefix_app_r|].
      split; [done|].
      unfold rmtree in Hrun. destruct (fsL !! tmp) as [[b2 p2|]|]; try done.
      by inversion Hrun.
    - unfold retM in Hrun.
      destruct (forM (walk_files tmp fsS) (rehome tmp target) fsS)
        as [[[]|e3] fsL] eqn:Hlp; [|discriminate].
      exists fsS, fsL. split; [done|]. split; [done|]. split.
      + intros k Hk. destruct (fsS !! (target ++ k)) as [n|] eqn:E; [|done].
        exfalso. unfold isdir in Hd.
        rewrite (tree_like_ancestor fsS target k HtreeS Hk (mk_is_Some _ _ E))
          in Hd. discriminate.
      + split; [done|].
        unfold rmtree in Hrun. destruct (fsL !! tmp) as [[b2 p2|]|]; try done.
        by inversion Hrun. }
  destruct Hloop as (fs2 & fsL & Htree2 & Hlook2 & Hfree2 & Hlp & ->).
  assert (Htmp2 : fs2 !! tmp = Some Dir).
  { pose proof (Hlook2 []) as H. rewrite app_nil_r in H. by rewrite H. }
  assert (Hinv0 : rehomed tmp target fs2 fs2).
  { split; [done|]. intros k n Hk Hn. by rewrite Hfree2 in Hn. }
  assert (Hpl0 : placed tmp target fs2 [] fs2).
  { split; [|split].
    - intros rel n Hin. by apply elem_of_nil in Hin.
    - intros k Hk Hn. by rewrite Hfree2 in Hn.
    - intros rel k Hin. by apply elem_of_nil in Hin. }
  destruct (rehome_loop tmp target fs2 (walk_files tmp fs2)
              Htree2 Htmp2 Htne Hout1 Hout2 (fun s H => H) fs2 fsL Hinv0 Hlp)
    as [HinvL _].
  assert (Hnone : forall s : list string, s ∈ [] -> s ∈ walk_files tmp fs2)
    by (intros s Hs; by apply elem_of_nil in Hs).
  pose proof (rehome_loop_places tmp target fs2 (walk_files tmp fs2)
                Htree2 Htmp2 Htne Hout1 Hout2 (fun s H => H) [] fs2 fsL
                Hnone Hinv0 Hpl0 Hlp) as HplL.
  rewrite app_nil_r in HplL.
  exists tmp, fs2, fsL. cbv zeta.
  split; [done|]. split.
  { intros rel n Hrel Hn. rewrite Hlook2 in Hn. by apply HprovS. }
  split.
  { intros m Hm. destruct (Hkinds m Hm) as (n & Hn & Hk).
    exists n. by rewrite Hlook2. }
  split; [done|]. split; [by exists fs1', fsS|].
  split; [done|]. split; [done|].
  intros k. by rewrite !lookup_prune_outside by apply Hout1.
Qed.

(** A file member is, after the rez branch completed, a file with the
    member's data at the member's path below the target directory. *)
Lemma rez_places (L : Libs) (addons_dir zip_path : list string)
    (zip_info : AddonZipInfo) (dir_names : list string) (fs fs' : FS)
    (bytes : string) (perm : Z) (members : list ZipMember) (m : ZipMember) :
  tree_like fs ->
  zip_path <> [] ->
  fs !! zip_path = Some (File bytes perm) ->
  zip_read L bytes = Ok members ->
  is_rez zip_info = true ->
  name zip_info ∉ dir_names ->
  unpack_addon_sync L addons_dir zip_path zip_info dir_names fs = (Ok tt, fs') ->
  m ∈ members -> member_is_dir m = false ->
  (forall m', m' ∈ members -> arcname (filename m') = arcname (filename m) ->
              data m' = data m) ->
  exists mode,
    fs' !! (target_path addons_dir zip_info ++ arcname (filename m))
    = Some (File (data m) mode).
Proof.
  intros Htree Hzne Hzip Hread Hrez Hnames Hrun Hm Hmdir Huniq.
  destruct (rez_install_inv L addons_dir zip_path zip_info dir_names fs fs'
              bytes perm members Htree Hzne Hzip Hread Hrez Hnames Hrun)
    as (tmp & fs2 & fsL & Htree2 & Hprov & Hkinds & Htmp2 & _ & _ & (Hb & _) & Hlast).
  destruct (Hkinds m Hm) as (n & Hn & Hkind).
  unfold kind_of_member in Hkind. rewrite Hmdir in Hkind.
  destruct Hkind as (b & p & ->).
  assert (Hrel : arcname (filename m) <> []).
  { intros Hnil. rewrite Hnil, app_nil_r in Hn. congruence. }
  destruct (Hprov _ _ Hrel Hn) as [_ Hfile].
  destruct (Hfile b p eq_refl) as (m' & Hm' & _ & Harc' & Hdata).
  exists p. rewrite Hlast, <- (Huniq m' Hm' Harc'), Hdata.
  apply Hb; [|done].
  apply elem_of_reverse, elem_of_walk_files.
  split; [by apply prefix_app_r | eauto].
Qed.

(** X14.  A completed installation holds the files of the archive: a
    file member stored below the payload root of the package ([addon] for
    a standard package, the top of the archive for a rez package) is,
    after [unpack_addon_sync] returned, a file with the member's data at
    the same relative path below the target directory.  The scratch
    directory must not take the name of the addon, and the members stored
    under the same path must agree on the data. *)
Theorem install_places_files (L : Libs) (addons_dir zip_path : list string)
    (zip_info : AddonZipInfo) (dir_names : list string) (fs fs' : FS)
    (bytes : string) (perm : Z) (members : list ZipMember) (m : ZipMember)
    (k : list string) :
  tree_like fs ->
  zip_path <> [] ->
  fs !! zip_path = Some (File bytes perm) ->
  zip_read L bytes = Ok members ->
  name zip_info ∉ dir_names ->
  unpack_addon_sync L addons_dir zip_path zip_info dir_names fs = (Ok tt, fs') ->
  m ∈ members -> member_is_dir m = false ->
  arcname (filename m) = payload_root zip_info ++ k ->
  (forall m', m' ∈ members -> arcname (filename m') = arcname (filename m) ->
              data m' = data m) ->
  exists mode,
    fs' !! (target_path addons_dir zip_info ++ k) = Some (File (data m) mode).
Proof.
  intros Htree Hzne Hzip Hread Hnames Hrun Hm Hmdir Harc Huniq.
  unfold payload_root in Harc. destruct (is_rez zip_info) eqn:Hrez.
  - simpl in Harc. rewrite <- Harc. by eapply rez_places.
  - simpl in Harc. eapply standard_places; try done.
    intros m' Hm' Harc'. apply Huniq; [done | congruence].
Qed.

Lemma install_places_files_witness :
  let run := unpack_addon_sync example_libs example_root ["uploads"; "a.zip"]
               rez_info ["tmpdir"] (files (uploaded_world rez_archive)) in
  run.1 = Ok tt
  /\ exists mode,
       run.2 !! (target_path example_root rez_info ++ ["client"; "a.py"])
       = Some (File "x=1" mode).
Proof.
  intros run. destruct run as [res fs'] eqn:Hrun.
  assert (Hres : res = Ok tt).
  { change res with (res, fs').1. rewrite <- Hrun. vm_compute. reflexivity. }
  subst res. split; [reflexivity|].
  apply (install_places_files example_libs example_root
           ["uploads"; "a.zip"] rez_info ["tmpdir"]
           (files (uploaded_world rez_archive)) fs' rez_archive 420
           rez_members (mkMember "client/a.py" "x=1" 2175008768)
           ["client"; "a.py"]).
  - apply tree_like_b_sound. vm_compute. reflexivity.
  - discriminate.
  - vm_compute. reflexivity.
  - vm_compute. reflexivity.
  - intros H. apply elem_of_cons in H as [H|H]; [discriminate H|].
    destruct (proj1 (elem_of_nil _) H).
  - exact Hrun.
  - right. left.
  - reflexivity.
  - vm_compute. reflexivity.
  - intros m' Hm' Harc.
    apply elem_of_cons in Hm' as [->|Hm'];
      [vm_compute in Harc; discriminate Harc|].
    apply elem_of_cons in Hm' as [->|Hm']; [reflexivity|].
    apply elem_of_cons in Hm' as [->|Hm'];
      [vm_compute in Harc; discriminate Harc|].
    destruct (proj1 (elem_of_nil _) Hm').
Defined.



(** X16.  A completed installation of a rez package holds nothing but
    the files of the archive and the directories that lead to them: every
    node below the target directory lies on the path of a file member.  A
    directory of the archive that holds no file is not installed. *)
Theorem rez_install_only_files (L : Libs) (addons_dir zip_path : list string)
    (zip_info : AddonZipInfo) (dir_names : list string) (fs fs' : FS)
    (bytes : string) (perm : Z) (members : list ZipMember)
    (k : list string) (n : node) :
  tree_like fs ->
  zip_path <> [] ->
  fs !! zip_path = Some (File bytes perm) ->
  zip_read L bytes = Ok members ->
  is_rez zip_info = true ->
  name zip_info ∉ dir_names ->
  unpack_addon_sync L addons_dir zip_path zip_info dir_names fs = (Ok tt, fs') ->
  k <> [] ->
  fs' !! (target_path addons_dir zip_info ++ k) = Some n ->
  exists m, m ∈ members /\ member_is_dir m = false
            /\ k `prefix_of` arcname (filename m)
            /\ (n <> Dir -> arcname (filename m) = k).
Proof.
  intros Htree Hzne Hzip Hread Hrez Hnames Hrun Hk Hn.
  destruct (rez_install_inv L addons_dir zip_path zip_info dir_names fs fs'
              bytes perm members Htree Hzne Hzip Hread Hrez Hnames Hrun)
    as (tmp & fs2 & fsL & Htree2 & Hprov & _ & Htmp2 & _ & [_ HbL] & (_ & Hc & _)
        & Hlast).
  rewrite Hlast in Hn. destruct n as [b p|].
  - apply HbL in Hn; [|done].
    destruct (Hprov _ _ Hk Hn) as [_ Hfile].
    destruct (Hfile b p eq_refl) as (m & Hm & Hd & Harc & _).
    exists m. split; [done|]. split; [done|]. by rewrite Harc.
  - destruct (Hc k Hk Hn) as (rel & Hin & Hpre).
    apply elem_of_reverse, elem_of_walk_files in Hin as (_ & b & p & Hfile).
    assert (Hrel : rel <> []).
    { intros ->. rewrite app_nil_r in Hfile. congruence. }
    destruct (Hprov _ _ Hrel Hfile) as [_ Hf].
    destruct (Hf b p eq_refl) as (m & Hm & Hd & Harc & _).
    exists m. split; [done|]. split; [done|]. split; [|done].
    rewrite Harc. etrans; [exact Hpre | apply dirname_prefix].
Qed.

Lemma rez_install_only_files_witness :
  let target := target_path example_root rez_info in
  let run := unpack_addon_sync example_libs example_root ["uploads"; "a.zip"]
               rez_info ["tmpdir"] (files (uploaded_world rez_archive)) in
  run.1 = Ok tt
  /\ run.2 !! (target ++ ["server"]) = None
  /\ exists m, m ∈ rez_members /\ member_is_dir m = false
               /\ ["client"] `prefix_of` arcname (filename m).
Proof.
  intros target run. destruct run as [res fs'] eqn:Hrun.
  assert (Hres : res = Ok tt).
  { change res with (res, fs').1. rewrite <- Hrun. vm_compute. reflexivity. }
  subst res. split; [reflexivity|].
  assert (Hserver : fs' !! (target ++ ["server"]) = None).
  { change fs' with (Ok tt : result unit, fs').2. rewrite <- Hrun.
    vm_compute. reflexivity. }
  assert (Hclient : fs' !! (target ++ ["client"]) = Some Dir).
  { change fs' with (Ok tt : result unit, fs').2. rewrite <- Hrun.
    vm_compute. reflexivity. }
  split; [exact Hserver|].
  destruct (rez_install_only_files example_libs example_root
              ["uploads"; "a.zip"] rez_info ["tmpdir"]
              (files (uploaded_world rez_archive)) fs' rez_archive 420
              rez_members ["client"] Dir) as (m & Hm & Hd & Hpre & _).
  - apply tree_like_b_sound. vm_compute. reflexivity.
  - discriminate.
  - vm_compute. reflexivity.
  - vm_compute. reflexivity.
  - reflexivity.
  - intros H. apply elem_of_cons in H as [H|H]; [discriminate H|].
    destruct (proj1 (elem_of_nil _) H).
  - exact Hrun.
  - discriminate.
  - exact Hclient.
  - exists m. split; [exact Hm|]. split; [exact Hd | exact Hpre].
Defined.

(** ** Names in the install root *)

(** X17.  [unpack_addon_sync] leaves no entry of its own in the install
    root when the addon's name and version are plain path components
    (not empty, neither [.] nor [..], without a separator): on a
    tree-shaped file system every plain name of the root other than the
    addon's name is after the call as it was before, with all below it,
    whether the call returned or raised.  A name that was free is free
    again, so the scratch directory is gone, and the directories of
    other addons are untouched.  With an empty name or version the
    target is the root or the addon's directory itself, which this
    statement leaves out. *)
Theorem unpack_addon_sync_keeps_root_names (L : Libs)
    (addons_dir zip_path : list string) (zip_info : AddonZipInfo)
    (dir_names : list string) (fs : FS) (c : string) (k : list string) :
  tree_like fs ->
  plain_component (name zip_info) = true ->
  plain_component (version zip_info) = true ->
  plain_component c = true ->
  c <> name zip_info ->
  (unpack_addon_sync L addons_dir zip_path zip_info dir_names fs).2
    !! (addons_dir ++ c :: k)
  = fs !! (addons_dir ++ c :: k).
Proof.
  intros Htree _ _ _ Hc. apply unpack_addon_sync_changes; [done| |].
  - intros [j Hj]. unfold target_path in Hj. rewrite <- app_assoc in Hj.
    apply app_inv_head in Hj. simpl in Hj. inversion Hj; subst. done.
  - intros [j Hj]. unfold target_path in Hj. rewrite <- app_assoc in Hj.
    apply app_inv_head in Hj. simpl in Hj. inversion Hj; subst. done.
Qed.

Lemma unpack_addon_sync_keeps_root_names_witness :
  let run := unpack_addon_sync example_libs example_root ["uploads"; "a.zip"]
               tvpaint_info ["tmpdir"] (files (uploaded_world hollow_archive)) in
  run.1 = Raise FileNotFoundError
  /\ run.2 !! (example_root ++ "tmpdir" :: ["manifest.json"]) = None.
Proof.
  split; [vm_compute; reflexivity|].
  rewrite (unpack_addon_sync_keeps_root_names example_libs example_root
             ["uploads"; "a.zip"] tvpaint_info ["tmpdir"]
             (files (uploaded_world hollow_archive)) "tmpdir" ["manifest.json"]).
  - vm_compute. reflexivity.
  - apply tree_like_b_sound. vm_compute. reflexivity.
  - vm_compute. reflexivity.
  - vm_compute. reflexivity.
  - vm_compute. reflexivity.
  - discriminate.
Defined.

(** ** Errors of the readers *)

(** X18.  A JSON manifest that is read but is not an object (a list, a
    string, a number, null) makes [get_addon_zip_info] raise
    [AttributeError], not [UnsupportedAddonException]: the reader calls
    [get] on whatever [json.loads] returned, and the error leaves
    [get_addon_zip_info] as it is, before any version check. *)
Theorem manifest_not_an_object (L : Libs) (ayon_version : string) (fs : FS)
    (p : list string) (members : list ZipMember) (manifest_data : string)
    (doc : pyval) :
  open_zip L fs p = Ok members ->
  "manifest.json" ∈ namelist members ->
  read_text members "manifest.json" = Ok manifest_data ->
  json_loads L manifest_data = Ok doc ->
  (forall entries, doc <> PyDict entries) ->
  get_addon_zip_info L ayon_version fs p = Raise AttributeError.
Proof.
  intros Hopen Hin Hread Hload Hdoc. unfold get_addon_zip_info. rewrite Hopen.
  cbn [mbind result_bind].
  rewrite (parse_loop_first members (PARSERS L) 0 "manifest.json"
             (get_addon_info_from_manifest L)); [|done|done|intros j e Hj; lia].
  unfold parsed_with. cbn [snd]. rewrite Hread. cbn [mbind result_bind].
  unfold get_addon_info_from_manifest. rewrite Hload. cbn [mbind result_bind].
  destruct doc as [| | | | |entries]; try reflexivity.
  by destruct (Hdoc entries).
Qed.

Lemma manifest_not_an_object_witness :
  let fs : FS := {[ ["uploads"; "a.zip"] :=
                     File (quoted "PK;manifest.json|0|['tvpaint', '1.0.0']") 420 ]} in
  get_addon_zip_info example_libs "1.1.0" fs ["uploads"; "a.zip"]
  = Raise AttributeError.
Proof.
  apply (manifest_not_an_object example_libs "1.1.0" _ _
           [mkMember "manifest.json" (quoted "['tvpaint', '1.0.0']") 0]
           (quoted "['tvpaint', '1.0.0']")
           (PyList [PyStr "tvpaint"; PyStr "1.0.0"])).
  - vm_compute. reflexivity.
  - left.
  - vm_compute. reflexivity.
  - vm_compute. reflexivity.
  - discriminate.
Defined.

(** X19.  A JSON manifest that sets [addon_name] and [addon_version]
    but has no [name] passes the guard and fails in the constructor of
    the descriptor: [get_addon_info_from_manifest] raises a validation
    error, not [UnsupportedAddonException]. *)
Theorem manifest_without_name_fails_validation (L : Libs) (manifest_data : string)
    (entries : list (string * pyval)) (a b : pyval) :
  json_loads L manifest_data = Ok (PyDict entries) ->
  assoc_get entries "addon_name" = Some a -> truthy a = true ->
  assoc_get entries "addon_version" = Some b -> truthy b = true ->
  assoc_get entries "name" = None ->
  get_addon_info_from_manifest L manifest_data = Raise ValidationError.
Proof.
  intros Hload Ha Hta Hb Htb Hn. unfold get_addon_info_from_manifest.
  rewrite Hload. simpl. rewrite Ha. simpl. rewrite Hta, Hb. simpl.
  rewrite Htb. simpl. rewrite Hn. simpl.
  unfold make_zip_info. simpl.
  by destruct (default PyNone (assoc_get entries "version")).
Qed.

Lemma manifest_without_name_fails_validation_witness :
  get_addon_info_from_manifest example_libs
    (quoted "{'addon_name':'tvpaint','addon_version':'1.0.0'}")
  = Raise ValidationError.
Proof.
  apply (manifest_without_name_fails_validation example_libs _
           [("addon_name", PyStr "tvpaint"); ("addon_version", PyStr "1.0.0")]
           (PyStr "tvpaint") (PyStr "1.0.0"));
    vm_compute; reflexivity.
Defined.

(** ** The installed content is determined by the archive *)

(** One extraction changes nothing except on the path to the member. *)
Lemma extract_member_other (dest : list string) (m : ZipMember) :
  untouched (fun q => ¬ q `prefix_of` dest ++ arcname (filename m))
            (extract_member dest m).
Proof.
  assert (Hneq : forall q : list string,
            ¬ q `prefix_of` dest ++ arcname (filename m) ->
            q <> dest ++ arcname (filename m)) by (by intros q Hq ->).
  unfold extract_member.
  eapply (untouched_bind_val _ (fun a => a = dest ++ arcname (filename m))).
  - unfold extract.
    apply untouched_bind; [apply untouched_get|]. intros fs.
    apply untouched_bind.
    { apply untouched_if; [apply untouched_ret|].
      eapply untouched_weaken; [|apply makedirs_untouched].
      intros q Hq Hpre. apply Hq. etrans; [exact Hpre | apply dirname_prefix]. }
    intros _. apply untouched_if.
    + apply untouched_bind; [apply untouched_get|]. intros fs'.
      apply untouched_bind; [|intros; apply untouched_ret].
      apply untouched_if; [apply untouched_ret|].
      eapply untouched_weaken; [|apply mkdir_untouched]. exact Hneq.
    + apply untouched_bind; [|intros; apply untouched_ret].
      eapply untouched_weaken; [|apply write_file_untouched]. exact Hneq.
  - intros fs a fs'. apply extract_returns.
  - intros a ->. apply untouched_if; [apply untouched_ret|].
    eapply untouched_weaken; [|apply chmod_untouched]. exact Hneq.
Qed.

Lemma extract_member_same_below (ms : list ZipMember) (ta tb : list string)
    (m : ZipMember) (fa fb fa' fb' : FS) :
  staged ms ta fa -> staged ms tb fb ->
  same_below ta tb fa fb ->
  extract_member ta m fa = (Ok tt, fa') ->
  extract_member tb m fb = (Ok tt, fb') ->
  same_below ta tb fa' fb'.
Proof.
  intros Hsa Hsb Hsim Ha Hb rel.
  destruct (extract_member_staged ms ta m fa fa' Hsa Ha) as [(Htra & _ & _) Hna].
  destruct (extract_member_staged ms tb m fb fb' Hsb Hb) as [(Htrb & _ & _) Hnb].
  assert (Hexa : is_Some (fa' !! (ta ++ arcname (filename m)))).
  { destruct (member_is_dir m); [by rewrite Hna|].
    destruct Hna as (p & ->). done. }
  assert (Hexb : is_Some (fb' !! (tb ++ arcname (filename m)))).
  { destruct (member_is_dir m); [by rewrite Hnb|].
    destruct Hnb as (p & ->). done. }
  destruct (decide (rel `prefix_of` arcname (filename m))) as [[j Hj]|Hnpre].
  - destruct j as [|x j].
    + rewrite app_nil_r in Hj. subst rel.
      destruct (member_is_dir m) eqn:Hd; [by rewrite Hna, Hnb|].
      rewrite (extract_file_node ta m fa fa' Ha Hd).
      rewrite (extract_file_node tb m fb fb' Hb Hd).
      by rewrite (Hsim (arcname (filename m))).
    + rewrite Hj in Hexa, Hexb. rewrite app_assoc in Hexa, Hexb.
      rewrite (tree_like_ancestor fa' (ta ++ rel) (x :: j) Htra); [|done|done].
      by rewrite (tree_like_ancestor fb' (tb ++ rel) (x :: j) Htrb).
  - pose proof (extract_member_other ta m fa (ta ++ rel)) as Hoa.
    pose proof (extract_member_other tb m fb (tb ++ rel)) as Hob.
    rewrite Ha in Hoa. rewrite Hb in Hob. cbn [snd] in Hoa, Hob.
    rewrite Hoa, Hob; [apply Hsim | |];
      intros Hpre; by apply prefix_app_inv in Hpre.
Qed.

Lemma extract_all_same_below (ta tb : list string) (todo : list ZipMember) :
  forall (ms : list ZipMember) (fa fb fa' fb' : FS),
    staged ms ta fa -> staged ms tb fb ->
    same_below ta tb fa fb ->
    forM todo (extract_member ta) fa = (Ok tt, fa') ->
    forM todo (extract_member tb) fb = (Ok tt, fb') ->
    same_below ta tb fa' fb'.
Proof.
  induction todo as [|m todo IH]; intros ms fa fb fa' fb' Hsa Hsb Hsim Ha Hb.
  - simpl in Ha, Hb. by inversion Ha; inversion Hb; subst.
  - apply forM_cons_ok in Ha as (fa1 & Ha1 & Ha).
    apply forM_cons_ok in Hb as (fb1 & Hb1 & Hb).
    destruct (extract_member_staged ms ta m fa fa1 Hsa Ha1) as [Hsa1 _].
    destruct (extract_member_staged ms tb m fb fb1 Hsb Hb1) as [Hsb1 _].
    apply (IH (ms ++ [m]) fa1 fb1 fa' fb' Hsa1 Hsb1); [|done|done].
    exact (extract_member_same_below ms ta tb m fa fb fa1 fb1 Hsa Hsb Hsim Ha1 Hb1).
Qed.

(** What the extraction leaves in a fresh scratch directory depends on
    the members only. *)
Lemma extracted_same_below (members : list ZipMember) (ta tb : list string)
    (fa2 fb2 : FS) :
  extracted members ta fa2 -> extracted members tb fb2 ->
  same_below ta tb fa2 fb2.
Proof.
  intros (fa0 & faS & Hsa & Hra & Hla) (fb0 & fbS & Hsb & Hrb & Hlb) rel.
  rewrite Hla, Hlb.
  apply (extract_all_same_below ta tb members [] fa0 fb0 faS fbS); try done.
  intros r. destruct Hsa as (_ & Hta & Hpa). destruct Hsb as (_ & Htb & Hpb).
  destruct r as [|x r]; [by rewrite !app_nil_r, Hta, Htb|].
  destruct (fa0 !! (ta ++ x :: r)) as [n|] eqn:Ea.
  { destruct (Hpa (x :: r) n) as [(m & Hm & _) _]; [done | done |].
    by apply elem_of_nil in Hm. }
  destruct (fb0 !! (tb ++ x :: r)) as [n|] eqn:Eb; [|done].
  destruct (Hpb (x :: r) n) as [(m & Hm & _) _]; [done | done |].
  by apply elem_of_nil in Hm.
Qed.

(** The content below the target after the rez loop, read off the
    scratch directory. *)
Lemma rez_lookup_some (ta tb target_a target_b : list string)
    (fa2 faL fb2 fbL : FS) (k : list string) (n : node) :
  same_below ta tb fa2 fb2 ->
  rehomed ta target_a fa2 faL ->
  placed ta target_a fa2 (reverse (walk_files ta fa2)) faL ->
  placed tb target_b fb2 (reverse (walk_files tb fb2)) fbL ->
  k <> [] ->
  faL !! (target_a ++ k) = Some n ->
  fbL !! (target_b ++ k) = Some n.
Proof.
  intros Hsim [_ HbL] (_ & Hc & _) (Hb & _ & Hd) Hk Hn.
  assert (Hwalk : forall rel b p, fb2 !! (tb ++ rel) = Some (File b p) ->
                                  tb ++ rel ∈ reverse (walk_files tb fb2)).
  { intros rel b p H. apply elem_of_reverse, elem_of_walk_files.
    split; [by apply prefix_app_r | eauto]. }
  destruct n as [b p|].
  - apply HbL in Hn; [|done]. rewrite (Hsim k) in Hn.
    apply Hb; [by eapply Hwalk | done].
  - destruct (Hc k Hk Hn) as (rel & Hin & Hpre).
    apply elem_of_reverse, elem_of_walk_files in Hin as (_ & b & p & Hfile).
    rewrite (Hsim rel) in Hfile.
    apply (Hd rel k); [by eapply Hwalk | done].
Qed.

(** X20.  What an installation leaves below the target directory is
    determined by the archive and the packaging kind alone: two completed
    runs of [unpack_addon_sync] on archives with the same members leave
    the same node at every relative path below their targets, whatever
    the file systems held before, wherever the archives and the install
    roots lie, and whatever names and versions the descriptors give.
    In particular the content does not depend on a version that was
    installed before. *)
Theorem content_determined_by_archive (L : Libs) (members : list ZipMember)
    (addons_dir_a zip_path_a : list string) (zip_info_a : AddonZipInfo)
    (dir_names_a : list string) (fs_a fs_a' : FS)
    (addons_dir_b zip_path_b : list string) (zip_info_b : AddonZipInfo)
    (dir_names_b : list string) (fs_b fs_b' : FS) (k : list string) :
  completed_install L addons_dir_a zip_path_a zip_info_a dir_names_a members
    fs_a fs_a' ->
  completed_install L addons_dir_b zip_path_b zip_info_b dir_names_b members
    fs_b fs_b' ->
  is_rez zip_info_a = is_rez zip_info_b ->
  k <> [] ->
  fs_a' !! (target_path addons_dir_a zip_info_a ++ k)
  = fs_b' !! (target_path addons_dir_b zip_info_b ++ k).
Proof.
  intros (Hta & Hza & (ba & pa & Hfa & Hra) & Hna & Hrun_a)
         (Htb & Hzb & (bb & pb & Hfb & Hrb) & Hnb & Hrun_b) Hkind Hk.
  destruct (is_rez zip_info_a) eqn:Hrez_a; symmetry in Hkind.
  - destruct (rez_install_inv L addons_dir_a zip_path_a zip_info_a dir_names_a
                fs_a fs_a' ba pa members Hta Hza Hfa Hra Hrez_a Hna Hrun_a)
      as (ta & fa2 & faL & _ & _ & _ & _ & Hexa & Hinva & Hpla & Hlasta).
    destruct (rez_install_inv L addons_dir_b zip_path_b zip_info_b dir_names_b
                fs_b fs_b' bb pb members Htb Hzb Hfb Hrb Hkind Hnb Hrun_b)
      as (tb & fb2 & fbL & _ & _ & _ & _ & Hexb & Hinvb & Hplb & Hlastb).
    pose proof (extracted_same_below members ta tb fa2 fb2 Hexa Hexb) as Hsim.
    assert (Hsim' : same_below tb ta fb2 fa2) by (intros rel; by rewrite Hsim).
    rewrite Hlasta, Hlastb.
    destruct (faL !! (target_path addons_dir_a zip_info_a ++ k)) as [n|] eqn:Ea.
    + symmetry.
      exact (rez_lookup_some ta tb _ _ fa2 faL fb2 fbL k n Hsim Hinva Hpla Hplb
               Hk Ea).
    + destruct (fbL !! (target_path addons_dir_b zip_info_b ++ k)) as [n|] eqn:Eb;
        [|done].
      pose proof (rez_lookup_some tb ta _ _ fb2 fbL fa2 faL k n Hsim' Hinvb Hplb
                    Hpla Hk Eb) as H.
      congruence.
  - destruct (standard_install_inv L addons_dir_a zip_path_a zip_info_a dir_names_a
                fs_a fs_a' ba pa members Hta Hza Hfa Hra Hrez_a Hna Hrun_a)
      as (ta & fa2 & fa3 & Htra & _ & _ & Hnda & Hexa & Houta & Hmva & Hlasta).
    destruct (standard_install_inv L addons_dir_b zip_path_b zip_info_b dir_names_b
                fs_b fs_b' bb pb members Htb Hzb Hfb Hrb Hkind Hnb Hrun_b)
      as (tb & fb2 & fb3 & Htrb & _ & _ & Hndb & Hexb & Houtb & Hmvb & Hlastb).
    pose proof (extracted_same_below members ta tb fa2 fb2 Hexa Hexb) as Hsim.
    rewrite Hlasta, Hlastb.
    rewrite (move_addon_lookup ta _ fa2 fa3 k
               (target_path_not_nil addons_dir_a zip_info_a) Htra Hnda Houta Hmva).
    rewrite (move_addon_lookup tb _ fb2 fb3 k
               (target_path_not_nil addons_dir_b zip_info_b) Htrb Hndb Houtb Hmvb).
    apply Hsim.
Qed.

Lemma content_determined_by_archive_witness :
  let target := target_path example_root tvpaint_info in
  let first := unpack_addon_sync example_libs example_root ["uploads"; "a.zip"]
                 tvpaint_info ["tmpdir"] (files (uploaded_world tvpaint_archive)) in
  let again := unpack_addon_sync example_libs example_root ["uploads"; "a.zip"]
                 tvpaint_info ["scratch"] installed_files in
  installed_files !! (target ++ ["old.py"]) = Some (File "old" 420)
  /\ forall k, k <> [] -> first.2 !! (target ++ k) = again.2 !! (target ++ k).
Proof.
  intros target first again. split; [vm_compute; reflexivity|].
  destruct first as [res1 fs1] eqn:Hrun1. destruct again as [res2 fs2] eqn:Hrun2.
  assert (Hres1 : res1 = Ok tt).
  { change res1 with (res1, fs1).1. rewrite <- Hrun1. vm_compute. reflexivity. }
  assert (Hres2 : res2 = Ok tt).
  { change res2 with (res2, fs2).1. rewrite <- Hrun2. vm_compute. reflexivity. }
  subst res1 res2. intros k Hk.
  apply (content_determined_by_archive example_libs tvpaint_members
           example_root ["uploads"; "a.zip"] tvpaint_info ["tmpdir"]
           (files (uploaded_world tvpaint_archive)) fs1
           example_root ["uploads"; "a.zip"] tvpaint_info ["scratch"]
           installed_files fs2 k).
  - split; [apply tree_like_b_sound; vm_compute; reflexivity|].
    split; [discriminate|]. split.
    { exists tvpaint_archive, 420. split; vm_compute; reflexivity. }
    split; [|exact Hrun1].
    intros H. apply elem_of_cons in H as [H|H]; [discriminate H|].
    destruct (proj1 (elem_of_nil _) H).
  - split; [apply tree_like_b_sound; vm_compute; reflexivity|].
    split; [discriminate|]. split.
    { exists tvpaint_archive, 420. split; vm_compute; reflexivity. }
    split; [|exact Hrun2].
    intros H. apply elem_of_cons in H as [H|H]; [discriminate H|].
    destruct (proj1 (elem_of_nil _) H).
  - reflexivity.
  - exact Hk.
Defined.
